(** * KiCad: Cairo graphics abstraction layer and board-item plotter

    A shallow embedding of
      - common/gal/cairo/cairo_gal.cpp   (class CAIRO_GAL), and
      - pcbnew/plot_brditems_plotter.cpp (class BRDITEMS_PLOTTER),
    followed by the properties of the drawing-state machine, of the group
    recorder and of the board-item decomposition.

    Conventions.
      - C++ [int] is [Z]; the arithmetic operators wrap to 32 bits
        ([Int32.wrap]), integer division truncates towards zero.
      - C++ [double] is [R]: exact real arithmetic stands for the
        floating-point one.  Doubles are only stored, compared and passed
        on by the functions below, apart from a few products and quotients.
      - [std::map<int, GROUP>] is a [gmap Z GROUP]; [std::deque] and
        [std::vector] are lists.
      - The Cairo library and the PLOTTER back end are the two sinks of
        the code.  Cairo is modelled by a context record holding the
        current path, the graphics state and the list of paint operations
        applied to the target surface; the plotter by the list of calls it
        has received. *)

From Stdlib Require Import ZArith List Bool String Ascii Reals Lra Lia.
From stdpp Require Import gmap.
Import ListNotations.

Open Scope Z_scope.

(* ===================================================================== *)
(** * Machine integers *)
(* ===================================================================== *)

Module Int32.

Definition min_int : Z := - 2 ^ 31.
Definition max_int : Z := 2 ^ 31 - 1.

(** Reduction of a mathematical integer to the two's complement range. *)
Definition wrap (z : Z) : Z := (z + 2 ^ 31) mod 2 ^ 32 - 2 ^ 31.

Definition in_range (z : Z) : Prop := min_int <= z <= max_int.

Definition add (a b : Z) : Z := wrap (a + b).
Definition sub (a b : Z) : Z := wrap (a - b).
Definition mul (a b : Z) : Z := wrap (a * b).
Definition neg (a : Z) : Z := wrap (- a).
(** [a / b] of C++: the quotient is truncated towards zero. *)
Definition div (a b : Z) : Z := wrap (Z.quot a b).

(** [unsigned int]: arithmetic modulo 2^32. *)
Definition uwrap (z : Z) : Z := z mod 2 ^ 32.
(** Conversion of an [unsigned int] to [int]. *)
Definition of_unsigned (u : Z) : Z := wrap u.

End Int32.

(* ===================================================================== *)
(** * Common value types *)
(* ===================================================================== *)

Abbreviation double := R (only parsing).

Record VECTOR2D : Type := mkVECTOR2D { vx : double; vy : double }.
Record VECTOR2I : Type := mkVECTOR2I { ix : Z; iy : Z }.

Record COLOR4D : Type := mkCOLOR4D
  { col_r : double; col_g : double; col_b : double; col_a : double }.

Definition COLOR4D_eq_dec (c d : COLOR4D) : {c = d} + {c <> d}.
Proof. decide equality; apply Req_dec_T. Defined.

(** [operator==] and [operator!=] of COLOR4D. *)
Definition COLOR4D_eqb (c d : COLOR4D) : bool :=
  if COLOR4D_eq_dec c d then true else false.

(** [atan2] of the C library. *)
Definition atan2 (y x : double) : double :=
  if Rlt_dec 0 x then atan (y / x)
  else if Rlt_dec x 0 then
    (if Rle_dec 0 y then atan (y / x) + PI else atan (y / x) - PI)%R
  else if Rlt_dec 0 y then (PI / 2)%R
  else if Rlt_dec y 0 then (- PI / 2)%R
  else 0%R.

(* ===================================================================== *)
(** * The board-item plotter (pcbnew/plot_brditems_plotter.cpp) *)
(* ===================================================================== *)

Module Plot.

Record wxPoint : Type := mkPoint { pt_x : Z; pt_y : Z }.
Record wxSize : Type := mkSize { sz_x : Z; sz_y : Z }.

(** A layer number, and a set of layers ([LSET], a [std::bitset]) as the
    integer whose bit [l] says whether layer [l] belongs to the set. *)
Definition LAYER_NUM : Type := Z.
Definition LSET : Type := Z.

(** [set[l]] *)
Definition lset_test (s : LSET) (l : LAYER_NUM) : bool := Z.testbit s l.
(** [( a & b ).any()] *)
Definition lset_any_common (a b : LSET) : bool := negb (Z.land a b =? 0).

Inductive EDA_COLOR_T : Type := WHITE | LIGHTGRAY.
Inductive EDA_DRAW_MODE_T : Type := FILLED | SKETCH.
Inductive FILL_T : Type := NO_FILL | FILLED_SHAPE.
Inductive PAD_ATTR_T : Type :=
  | PAD_ATTRIB_STANDARD | PAD_ATTRIB_SMD | PAD_ATTRIB_CONN
  | PAD_ATTRIB_HOLE_NOT_PLATED.
Inductive PAD_SHAPE_T : Type :=
  | PAD_SHAPE_CIRCLE | PAD_SHAPE_RECT | PAD_SHAPE_OVAL
  | PAD_SHAPE_TRAPEZOID | PAD_SHAPE_ROUNDRECT.
Inductive PAD_DRILL_SHAPE_T : Type :=
  | PAD_DRILL_SHAPE_CIRCLE | PAD_DRILL_SHAPE_OBLONG.
Inductive STROKE_T : Type :=
  | S_SEGMENT | S_RECT | S_ARC | S_CIRCLE | S_POLYGON | S_CURVE.
Inductive DrillMarksType : Type :=
  | NO_DRILL_SHAPE | SMALL_DRILL_SHAPE | FULL_DRILL_SHAPE.

Definition PAD_ATTR_T_eqb (a b : PAD_ATTR_T) : bool :=
  match a, b with
  | PAD_ATTRIB_STANDARD, PAD_ATTRIB_STANDARD
  | PAD_ATTRIB_SMD, PAD_ATTRIB_SMD
  | PAD_ATTRIB_CONN, PAD_ATTRIB_CONN
  | PAD_ATTRIB_HOLE_NOT_PLATED, PAD_ATTRIB_HOLE_NOT_PLATED => true
  | _, _ => false
  end.

(** ** Manufacturing metadata (GBR_METADATA) *)

Inductive GBR_APERTURE_ATTRIB : Type :=
  | GBR_APERTURE_ATTRIB_NONE
  | GBR_APERTURE_ATTRIB_ETCHEDCMP
  | GBR_APERTURE_ATTRIB_CONDUCTOR
  | GBR_APERTURE_ATTRIB_NONCONDUCTOR
  | GBR_APERTURE_ATTRIB_COMPONENTPAD
  | GBR_APERTURE_ATTRIB_SMDPAD_CUDEF
  | GBR_APERTURE_ATTRIB_BGAPAD_CUDEF
  | GBR_APERTURE_ATTRIB_CONNECTORPAD
  | GBR_APERTURE_ATTRIB_WASHERPAD
  | GBR_APERTURE_ATTRIB_VIAPAD.

(** The values the plotter passes to [SetNetAttribType]; [NET_CMP] is
    [GBR_NETINFO_NET | GBR_NETINFO_CMP]. *)
Inductive GBR_NETINFO_TYPE : Type :=
  | GBR_NETINFO_UNSPECIFIED
  | GBR_NETINFO_ALL
  | GBR_NETINFO_NET
  | GBR_NETINFO_CMP
  | GBR_NETINFO_NET_CMP.

Record GBR_METADATA : Type := mkMetadata
  { m_ApertAttribute : GBR_APERTURE_ATTRIB;
    m_NetAttribType : GBR_NETINFO_TYPE;
    m_NotInNet : bool;
    m_Padname : string;
    m_Cmpref : string;
    m_Netname : string }.

(** A default-constructed [GBR_METADATA]. *)
Definition GBR_METADATA_new : GBR_METADATA :=
  mkMetadata GBR_APERTURE_ATTRIB_NONE GBR_NETINFO_UNSPECIFIED false
             EmptyString EmptyString EmptyString.

Definition SetApertureAttrib (a : GBR_APERTURE_ATTRIB) (m : GBR_METADATA) :=
  mkMetadata a (m_NetAttribType m) (m_NotInNet m) (m_Padname m)
             (m_Cmpref m) (m_Netname m).
Definition SetNetAttribType (t : GBR_NETINFO_TYPE) (m : GBR_METADATA) :=
  mkMetadata (m_ApertAttribute m) t (m_NotInNet m) (m_Padname m)
             (m_Cmpref m) (m_Netname m).
Definition SetNotInNet (b : bool) (m : GBR_METADATA) :=
  mkMetadata (m_ApertAttribute m) (m_NetAttribType m) b (m_Padname m)
             (m_Cmpref m) (m_Netname m).
Definition SetPadName (n : string) (m : GBR_METADATA) :=
  mkMetadata (m_ApertAttribute m) (m_NetAttribType m) (m_NotInNet m) n
             (m_Cmpref m) (m_Netname m).
Definition SetCmpReference (n : string) (m : GBR_METADATA) :=
  mkMetadata (m_ApertAttribute m) (m_NetAttribType m) (m_NotInNet m)
             (m_Padname m) n (m_Netname m).
Definition SetNetName (n : string) (m : GBR_METADATA) :=
  mkMetadata (m_ApertAttribute m) (m_NetAttribType m) (m_NotInNet m)
             (m_Padname m) (m_Cmpref m) n.

(** ** The plotter back end, as the list of the calls it received *)

Inductive plot_call : Type :=
  | SetColor (color : COLOR4D)
  | SetCurrentLineWidth (width : Z) (data : option GBR_METADATA)
  | FlashPadCircle (pos : wxPoint) (diametre : Z)
      (mode : EDA_DRAW_MODE_T) (data : option GBR_METADATA)
  | FlashPadOval (pos : wxPoint) (size : wxSize) (orient : double)
      (mode : EDA_DRAW_MODE_T) (data : option GBR_METADATA)
  | FlashPadRect (pos : wxPoint) (size : wxSize) (orient : double)
      (mode : EDA_DRAW_MODE_T) (data : option GBR_METADATA)
  | FlashPadRoundRect (pos : wxPoint) (size : wxSize) (radius : Z)
      (orient : double) (mode : EDA_DRAW_MODE_T) (data : option GBR_METADATA)
  | FlashPadTrapez (pos : wxPoint) (corners : list wxPoint) (orient : double)
      (mode : EDA_DRAW_MODE_T) (data : option GBR_METADATA)
  | ThickSegment (start finish : wxPoint) (width : Z)
      (mode : EDA_DRAW_MODE_T) (data : option GBR_METADATA)
  | ThickCircle (pos : wxPoint) (diametre : Z) (width : Z)
      (mode : EDA_DRAW_MODE_T) (data : option GBR_METADATA)
  | ThickArc (centre : wxPoint) (StAngle EndAngle : double) (radius : Z)
      (width : Z) (mode : EDA_DRAW_MODE_T) (data : option GBR_METADATA)
  | PlotPoly (corners : list wxPoint) (fill : FILL_T) (width : Z)
      (data : option GBR_METADATA)
  | Text (pos : wxPoint) (color : COLOR4D) (text : string) (orient : double)
      (size : wxSize) (h_justify v_justify : Z) (width : Z)
      (italic bold multiline : bool) (data : option GBR_METADATA).

Abbreviation PLOTTER := (list plot_call).

(** [m_plotter->call( ... )] *)
Definition emit (c : plot_call) (p : PLOTTER) : PLOTTER := p ++ [c].

(** The calls that put geometry on the plot; [SetColor] and
    [SetCurrentLineWidth] only change the state of the plotter. *)
Definition is_primitive (c : plot_call) : bool :=
  match c with
  | SetColor _ | SetCurrentLineWidth _ _ => false
  | _ => true
  end.

(** The metadata a flash call carries. *)
Definition flash_metadata (c : plot_call) : option GBR_METADATA :=
  match c with
  | FlashPadCircle _ _ _ d | FlashPadOval _ _ _ _ d
  | FlashPadRect _ _ _ _ d | FlashPadRoundRect _ _ _ _ _ d
  | FlashPadTrapez _ _ _ _ d => d
  | _ => None
  end.

(** ** Declarations of the headers that the plotter uses

    Layer masks and identifiers (layers_id_colors_and_visibility.h),
    the colour table (colors.h), the small drill size (pcbplot.h) and the
    helpers of trigo.cpp and common.cpp are not part of the two files;
    they are parameters of the development. *)
Class PcbDecls : Type :=
  { AllCuMask : LSET;
    ExternalCuMask : LSET;
    AllBoardTechMask : LSET;
    Edge_Cuts : LAYER_NUM;
    IsCopperLayer : LAYER_NUM -> bool;
    COLOR4D_of : EDA_COLOR_T -> COLOR4D;
    COLOR4D_WHITE : COLOR4D;
    COLOR4D_UNSPECIFIED : COLOR4D;
    SMALL_DRILL : Z;
    ArcTangente : Z -> Z -> double;
    RotatePoint : wxPoint -> double -> wxPoint;
    wxStringSplit : string -> ascii -> list string }.

(** [Clamp( lower, value, upper )] of macros.h. *)
Definition Clamp (lower value upper : Z) : Z :=
  if value <? lower then lower
  else if upper <? value then upper
  else value.

(** The conversion [int( v )] of a double: truncation towards zero. *)
Definition int_of_double (v : double) : Z :=
  if Rle_dec 0 v then Int_part v else (- Int_part (- v))%Z.

(** [KiROUND( v )] of common.h: [int( v < 0 ? v - 0.5 : v + 0.5 )]. *)
Definition KiROUND (v : double) : Z :=
  if Rlt_dec v 0 then int_of_double (v - / 2)%R else int_of_double (v + / 2)%R.

(** [GetLineLength( a, b )] of trigo.h: [hypot( a.x - b.x, a.y - b.y )]. *)
Definition GetLineLength (a b : wxPoint) : double :=
  sqrt (Rsqr (IZR (Int32.sub (pt_x a) (pt_x b)))
        + Rsqr (IZR (Int32.sub (pt_y a) (pt_y b))))%R.

(** ** Board entities, as the values of the accessors the plotter reads *)

Record D_PAD : Type := mkPad
  { pad_ShapePos : wxPoint;
    pad_Position : wxPoint;
    pad_LayerSet : LSET;
    pad_ParentReference : string;   (* GetParent()->GetReference() *)
    pad_PadName : string;
    pad_Netname : string;
    pad_Attribute : PAD_ATTR_T;
    pad_Shape : PAD_SHAPE_T;
    pad_Size : wxSize;
    pad_Orientation : double;
    pad_RoundRectCornerRadius : Z;
    pad_Polygon : list wxPoint;     (* BuildPadPolygon( coord, wxSize(0,0), 0 ) *)
    pad_DrillSize : wxSize;
    pad_DrillShape : PAD_DRILL_SHAPE_T }.

Record DRAWSEGMENT : Type := mkDrawSegment
  { seg_Shape : STROKE_T;
    seg_Width : Z;
    seg_Layer : LAYER_NUM;
    seg_Start : wxPoint;
    seg_End : wxPoint;
    seg_Angle : double;
    seg_BezierPoints : list wxPoint }.

Record PCB_TARGET : Type := mkTarget
  { mire_Layer : LAYER_NUM;
    mire_Position : wxPoint;
    mire_Size : Z;
    mire_Width : Z;
    mire_Shape : Z }.               (* 0: shape +, otherwise shape X *)

Record MODULE : Type := mkModule
  { mod_Orientation : double;
    mod_Position : wxPoint }.

Record EDGE_MODULE : Type := mkEdge
  { edge_IsModuleEdge : bool;       (* Type() == PCB_MODULE_EDGE_T *)
    edge_Layer : LAYER_NUM;
    edge_Shape : STROKE_T;
    edge_Width : Z;
    edge_Start : wxPoint;
    edge_End : wxPoint;
    edge_Angle : double;
    edge_PolyPoints : list wxPoint;
    edge_ParentReference : string;
    edge_ParentModule : option MODULE }.

Record TEXTE_PCB : Type := mkText
  { txt_ShownText : string;
    txt_Layer : LAYER_NUM;
    txt_TextSize : wxSize;
    txt_TextPos : wxPoint;
    txt_TextAngle : double;
    txt_Thickness : Z;
    txt_Mirrored : bool;
    txt_Bold : bool;
    txt_Italic : bool;
    txt_MultilineAllowed : bool;
    txt_HorizJustify : Z;
    txt_VertJustify : Z;
    (* GetPositionsOfLinesOfMultilineText( positions, count ) *)
    txt_LinePositions : nat -> list wxPoint }.

Record VIA : Type := mkVia
  { via_Start : wxPoint; via_DrillValue : Z; via_Width : Z }.

(** The plotter object: plot parameters, layer selection and the part of
    the board it reads. *)
Record BRDITEMS_PLOTTER : Type := mkBrdPlotter
  { m_layerMask : LSET;
    PlotMode : EDA_DRAW_MODE_T;
    FineWidthAdj : Z;
    DrillMarks : DrillMarksType;
    PlotColor : COLOR4D;                       (* GetColor() *)
    LayerColor : LAYER_NUM -> COLOR4D;         (* m_board->GetLayerColor *)
    board_Vias : list VIA;                     (* the vias of m_board->m_Track *)
    board_Pads : list D_PAD }.                 (* the pads of all modules *)

(** ** The member functions *)

Section Members.

Context `{PcbDecls}.

Variable this : BRDITEMS_PLOTTER.

(** [BRDITEMS_PLOTTER::getColor] *)
Definition getColor (aLayer : LAYER_NUM) : COLOR4D :=
  let color := LayerColor this aLayer in
  if COLOR4D_eqb color COLOR4D_WHITE then COLOR4D_of LIGHTGRAY else color.

(** [aColor != WHITE ? aColor : LIGHTGRAY] *)
Definition not_white (aColor : COLOR4D) : COLOR4D :=
  if negb (COLOR4D_eqb aColor (COLOR4D_of WHITE)) then aColor
  else COLOR4D_of LIGHTGRAY.

(** The aperture attribute chosen in the branch of an internal copper
    layer, or of a pad that is on no technical layer. *)
Definition pad_attrib_internal (isPadOnBoardTechLayers : bool)
    (attr : PAD_ATTR_T) (m : GBR_METADATA) : GBR_METADATA :=
  let m := SetNetAttribType GBR_NETINFO_NET_CMP m in
  let m := if negb isPadOnBoardTechLayers
           then SetApertureAttrib GBR_APERTURE_ATTRIB_CONDUCTOR m else m in
  match attr with
  | PAD_ATTRIB_HOLE_NOT_PLATED => SetApertureAttrib GBR_APERTURE_ATTRIB_WASHERPAD m
  | PAD_ATTRIB_STANDARD => SetApertureAttrib GBR_APERTURE_ATTRIB_VIAPAD m
  | _ => m
  end.

(** The attributes reserved to the external copper layers. *)
Definition pad_attrib_external (attr : PAD_ATTR_T) (shape : PAD_SHAPE_T)
    (m : GBR_METADATA) : GBR_METADATA :=
  match attr with
  | PAD_ATTRIB_HOLE_NOT_PLATED => SetApertureAttrib GBR_APERTURE_ATTRIB_WASHERPAD m
  | PAD_ATTRIB_STANDARD => SetApertureAttrib GBR_APERTURE_ATTRIB_COMPONENTPAD m
  | PAD_ATTRIB_CONN => SetApertureAttrib GBR_APERTURE_ATTRIB_CONNECTORPAD m
  | PAD_ATTRIB_SMD =>
      match shape with
      | PAD_SHAPE_CIRCLE => SetApertureAttrib GBR_APERTURE_ATTRIB_BGAPAD_CUDEF m
      | _ => SetApertureAttrib GBR_APERTURE_ATTRIB_SMDPAD_CUDEF m
      end
  end.

(** The metadata record [PlotPad] builds before it flashes the pad. *)
Definition pad_metadata (aPad : D_PAD) : GBR_METADATA :=
  let isOnCopperLayer := lset_any_common (m_layerMask this) AllCuMask in
  let isOnExternalCopperLayer := lset_any_common (m_layerMask this) ExternalCuMask in
  let isPadOnBoardTechLayers := lset_any_common (pad_LayerSet aPad) AllBoardTechMask in
  let m := SetCmpReference (pad_ParentReference aPad) GBR_METADATA_new in
  if isOnCopperLayer then
    let m := SetNetAttribType GBR_NETINFO_ALL m in
    let m := if isOnExternalCopperLayer then SetPadName (pad_PadName aPad) m else m in
    let m := SetNetName (pad_Netname aPad) m in
    let m := if PAD_ATTR_T_eqb (pad_Attribute aPad) PAD_ATTRIB_HOLE_NOT_PLATED
                || String.eqb (pad_PadName aPad) EmptyString
             then SetNotInNet true m else m in
    let m := if negb isOnExternalCopperLayer || negb isPadOnBoardTechLayers
             then pad_attrib_internal isPadOnBoardTechLayers (pad_Attribute aPad) m
             else pad_attrib_external (pad_Attribute aPad) (pad_Shape aPad) m in
    if PAD_ATTR_T_eqb (pad_Attribute aPad) PAD_ATTRIB_HOLE_NOT_PLATED
    then SetApertureAttrib GBR_APERTURE_ATTRIB_WASHERPAD m else m
  else SetNetAttribType GBR_NETINFO_CMP m.

(** [BRDITEMS_PLOTTER::PlotPad] *)
Definition PlotPad (aPad : D_PAD) (aColor : COLOR4D) (aPlotMode : EDA_DRAW_MODE_T)
    (m_plotter : PLOTTER) : PLOTTER :=
  let shape_pos := pad_ShapePos aPad in
  let gbr_metadata := pad_metadata aPad in
  let m_plotter := emit (SetColor (not_white aColor)) m_plotter in
  match pad_Shape aPad with
  | PAD_SHAPE_CIRCLE =>
      emit (FlashPadCircle shape_pos (sz_x (pad_Size aPad)) aPlotMode
              (Some gbr_metadata)) m_plotter
  | PAD_SHAPE_OVAL =>
      emit (FlashPadOval shape_pos (pad_Size aPad) (pad_Orientation aPad)
              aPlotMode (Some gbr_metadata)) m_plotter
  | PAD_SHAPE_TRAPEZOID =>
      emit (FlashPadTrapez shape_pos (pad_Polygon aPad) (pad_Orientation aPad)
              aPlotMode (Some gbr_metadata)) m_plotter
  | PAD_SHAPE_ROUNDRECT =>
      emit (FlashPadRoundRect shape_pos (pad_Size aPad)
              (pad_RoundRectCornerRadius aPad) (pad_Orientation aPad)
              aPlotMode (Some gbr_metadata)) m_plotter
  | PAD_SHAPE_RECT =>
      emit (FlashPadRect shape_pos (pad_Size aPad) (pad_Orientation aPad)
              aPlotMode (Some gbr_metadata)) m_plotter
  end.

(** The chain of thick segments [p0-p1, p1-p2, ...]: the loop
    [for( i = 1; i < points.size(); i++ ) ThickSegment( points[i-1], points[i], ... )]. *)
Fixpoint thick_chain (points : list wxPoint) (width : Z) (mode : EDA_DRAW_MODE_T)
    (data : option GBR_METADATA) (m_plotter : PLOTTER) : PLOTTER :=
  match points with
  | a :: (b :: _) as rest =>
      thick_chain rest width mode data (emit (ThickSegment a b width mode data) m_plotter)
  | _ => m_plotter
  end.

(** [BRDITEMS_PLOTTER::PlotDrawSegment] *)
Definition PlotDrawSegment (aSeg : DRAWSEGMENT) (m_plotter : PLOTTER) : PLOTTER :=
  if negb (lset_test (m_layerMask this) (seg_Layer aSeg)) then m_plotter
  else
    let thickness := seg_Width aSeg in
    let m_plotter := emit (SetColor (getColor (seg_Layer aSeg))) m_plotter in
    let start := seg_Start aSeg in
    let end_ := seg_End aSeg in
    let isOnCopperLayer := lset_any_common (m_layerMask this) AllCuMask in
    let gbr_metadata :=
      if isOnCopperLayer && (seg_Layer aSeg =? Edge_Cuts)
      then SetApertureAttrib GBR_APERTURE_ATTRIB_NONCONDUCTOR GBR_METADATA_new
      else GBR_METADATA_new in
    match seg_Shape aSeg with
    | S_CIRCLE =>
        let radius := KiROUND (GetLineLength end_ start) in
        emit (ThickCircle start (Int32.mul radius 2) thickness (PlotMode this)
                (Some gbr_metadata)) m_plotter
    | S_ARC =>
        let radius := KiROUND (GetLineLength end_ start) in
        let StAngle := ArcTangente (Int32.sub (pt_y end_) (pt_y start))
                                   (Int32.sub (pt_x end_) (pt_x start)) in
        let EndAngle := (StAngle + seg_Angle aSeg)%R in
        emit (ThickArc start (- EndAngle)%R (- StAngle)%R radius thickness
                (PlotMode this) (Some gbr_metadata)) m_plotter
    | S_CURVE =>
        let m_plotter := emit (SetCurrentLineWidth thickness (Some gbr_metadata)) m_plotter in
        thick_chain (seg_BezierPoints aSeg) thickness (PlotMode this)
                    (Some gbr_metadata) m_plotter
    | _ =>
        emit (ThickSegment start end_ thickness (PlotMode this) (Some gbr_metadata))
             m_plotter
    end.

(** A default-constructed [DRAWSEGMENT] on which [PlotPcbTarget] sets the
    shape, the width, the layer and the two end points. *)
Definition mire_segment (shape : STROKE_T) (aMire : PCB_TARGET)
    (start end_ : wxPoint) : DRAWSEGMENT :=
  mkDrawSegment shape (mire_Width aMire) (mire_Layer aMire) start end_ 0%R [].

(** [BRDITEMS_PLOTTER::PlotPcbTarget] *)
Definition PlotPcbTarget (aMire : PCB_TARGET) (m_plotter : PLOTTER) : PLOTTER :=
  if negb (lset_test (m_layerMask this) (mire_Layer aMire)) then m_plotter
  else
    let m_plotter := emit (SetColor (getColor (mire_Layer aMire))) m_plotter in
    let start := mire_Position aMire in
    let radius := Int32.div (mire_Size aMire) 3 in
    let radius := if negb (mire_Shape aMire =? 0)      (* shape X *)
                  then Int32.div (mire_Size aMire) 2 else radius in
    (* Draw the circle *)
    let end_ := mkPoint (Int32.add (pt_x start) radius) (pt_y start) in
    let m_plotter := PlotDrawSegment (mire_segment S_CIRCLE aMire start end_) m_plotter in
    let radius := Int32.div (mire_Size aMire) 2 in
    let '(dx1, dy1, dx2, dy2) :=
      if negb (mire_Shape aMire =? 0)                  (* shape X *)
      then (radius, radius, radius, Int32.neg radius)
      else (radius, 0, 0, radius) in
    let mirePos := mire_Position aMire in
    (* Draw the X or + shape *)
    let m_plotter :=
      PlotDrawSegment
        (mire_segment S_SEGMENT aMire
           (mkPoint (Int32.sub (pt_x mirePos) dx1) (Int32.sub (pt_y mirePos) dy1))
           (mkPoint (Int32.add (pt_x mirePos) dx1) (Int32.add (pt_y mirePos) dy1)))
        m_plotter in
    PlotDrawSegment
      (mire_segment S_SEGMENT aMire
         (mkPoint (Int32.sub (pt_x mirePos) dx2) (Int32.sub (pt_y mirePos) dy2))
         (mkPoint (Int32.add (pt_x mirePos) dx2) (Int32.add (pt_y mirePos) dy2)))
      m_plotter.

(** The true coordinates of a footprint polygon corner: rotated by the
    orientation of the footprint, then moved by its position. *)
Definition edge_corner (module : option MODULE) (corner : wxPoint) : wxPoint :=
  match module with
  | Some m =>
      let corner := RotatePoint corner (mod_Orientation m) in
      mkPoint (Int32.add (pt_x corner) (pt_x (mod_Position m)))
              (Int32.add (pt_y corner) (pt_y (mod_Position m)))
  | None => corner
  end.

(** [BRDITEMS_PLOTTER::Plot_1_EdgeModule] *)
Definition Plot_1_EdgeModule (aEdge : EDGE_MODULE) (m_plotter : PLOTTER) : PLOTTER :=
  if negb (edge_IsModuleEdge aEdge) then m_plotter
  else
    let m_plotter := emit (SetColor (getColor (edge_Layer aEdge))) m_plotter in
    let type_trace := edge_Shape aEdge in
    let thickness := edge_Width aEdge in
    let pos := edge_Start aEdge in
    let end_ := edge_End aEdge in
    let gbr_metadata := SetNetAttribType GBR_NETINFO_CMP GBR_METADATA_new in
    let gbr_metadata := SetCmpReference (edge_ParentReference aEdge) gbr_metadata in
    let isOnCopperLayer := lset_any_common (m_layerMask this) AllCuMask in
    let gbr_metadata :=
      if isOnCopperLayer
      then SetApertureAttrib GBR_APERTURE_ATTRIB_ETCHEDCMP gbr_metadata
      else if edge_Layer aEdge =? Edge_Cuts
      then SetApertureAttrib GBR_APERTURE_ATTRIB_NONCONDUCTOR gbr_metadata
      else gbr_metadata in
    match type_trace with
    | S_SEGMENT =>
        emit (ThickSegment pos end_ thickness (PlotMode this) (Some gbr_metadata))
             m_plotter
    | S_CIRCLE =>
        let radius := KiROUND (GetLineLength end_ pos) in
        emit (ThickCircle pos (Int32.mul radius 2) thickness (PlotMode this)
                (Some gbr_metadata)) m_plotter
    | S_ARC =>
        let radius := KiROUND (GetLineLength end_ pos) in
        let startAngle := ArcTangente (Int32.sub (pt_y end_) (pt_y pos))
                                      (Int32.sub (pt_x end_) (pt_x pos)) in
        let endAngle := (startAngle + edge_Angle aEdge)%R in
        emit (ThickArc pos (- endAngle)%R (- startAngle)%R radius thickness
                (PlotMode this) (Some gbr_metadata)) m_plotter
    | S_POLYGON =>
        let polyPoints := edge_PolyPoints aEdge in
        if (length polyPoints <=? 1)%nat then m_plotter   (* Malformed polygon *)
        else
          let cornerList := map (edge_corner (edge_ParentModule aEdge)) polyPoints in
          emit (PlotPoly cornerList FILLED_SHAPE thickness (Some gbr_metadata)) m_plotter
    | _ => m_plotter
    end.

(** The loop of [PlotTextePcb] over the lines of a multiline text:
    line [ii] is plotted at [positions[ii]]. *)
Fixpoint plot_text_lines (ii : nat) (strings_list : list string)
    (positions : list wxPoint) (put : wxPoint -> string -> plot_call)
    (m_plotter : PLOTTER) : PLOTTER :=
  match strings_list with
  | [] => m_plotter
  | txt :: rest =>
      plot_text_lines (S ii) rest positions put
        (emit (put (nth ii positions (mkPoint 0 0)) txt) m_plotter)
  end.

(** [BRDITEMS_PLOTTER::PlotTextePcb] *)
Definition PlotTextePcb (pt_texte : TEXTE_PCB) (m_plotter : PLOTTER) : PLOTTER :=
  let shownText := txt_ShownText pt_texte in
  if String.eqb shownText EmptyString then m_plotter
  else if negb (lset_test (m_layerMask this) (txt_Layer pt_texte)) then m_plotter
  else
    let gbr_metadata :=
      if IsCopperLayer (txt_Layer pt_texte)
      then SetApertureAttrib GBR_APERTURE_ATTRIB_NONCONDUCTOR GBR_METADATA_new
      else GBR_METADATA_new in
    let m_plotter := emit (SetColor (getColor (txt_Layer pt_texte))) m_plotter in
    let size := txt_TextSize pt_texte in
    let pos := txt_TextPos pt_texte in
    let orient := txt_TextAngle pt_texte in
    let thickness := txt_Thickness pt_texte in
    let size := if txt_Mirrored pt_texte
                then mkSize (Int32.neg (sz_x size)) (sz_y size) else size in
    let allow_bold := txt_Bold pt_texte || negb (thickness =? 0) in
    let put (where_ : wxPoint) (txt : string) : plot_call :=
      Text where_ COLOR4D_UNSPECIFIED txt orient size
           (txt_HorizJustify pt_texte) (txt_VertJustify pt_texte)
           thickness (txt_Italic pt_texte) allow_bold false (Some gbr_metadata) in
    if txt_MultilineAllowed pt_texte then
      let strings_list := wxStringSplit shownText "010"%char in
      let positions := txt_LinePositions pt_texte (length strings_list) in
      plot_text_lines 0 strings_list positions put m_plotter
    else
      emit (put pos shownText) m_plotter.

(** [BRDITEMS_PLOTTER::plotOneDrillMark] *)
Definition plotOneDrillMark (aDrillShape : PAD_DRILL_SHAPE_T) (aDrillPos : wxPoint)
    (aDrillSize aPadSize : wxSize) (aOrientation : double) (aSmallDrill : Z)
    (m_plotter : PLOTTER) : PLOTTER :=
  (* Small drill marks have no significance when applied to slots *)
  let x := match aDrillShape with
           | PAD_DRILL_SHAPE_CIRCLE =>
               if negb (aSmallDrill =? 0)
               then Z.min aSmallDrill (sz_x aDrillSize) else sz_x aDrillSize
           | PAD_DRILL_SHAPE_OBLONG => sz_x aDrillSize
           end in
  (* Round holes only have x diameter, slots have both *)
  let x := Int32.sub x (FineWidthAdj this) in
  let x := Clamp 1 x (Int32.sub (sz_x aPadSize) 1) in
  match aDrillShape with
  | PAD_DRILL_SHAPE_OBLONG =>
      let y := Int32.sub (sz_y aDrillSize) (FineWidthAdj this) in
      let y := Clamp 1 y (Int32.sub (sz_y aPadSize) 1) in
      emit (FlashPadOval aDrillPos (mkSize x y) aOrientation (PlotMode this) None)
           m_plotter
  | PAD_DRILL_SHAPE_CIRCLE =>
      emit (FlashPadCircle aDrillPos x (PlotMode this) None) m_plotter
  end.


(** ** Notions used to state the properties *)

(** The diameter of a drill mark once the small-drill ceiling has been
    applied to it. *)
Definition ceiled (aDrillShape : PAD_DRILL_SHAPE_T) (aSmallDrill d : Z) : Z :=
  match aDrillShape with
  | PAD_DRILL_SHAPE_CIRCLE => if aSmallDrill =? 0 then d else Z.min aSmallDrill d
  | PAD_DRILL_SHAPE_OBLONG => d
  end.

(** The metadata [PlotDrawSegment] attaches to an item of layer [l]. *)
Definition segment_metadata (l : LAYER_NUM) : GBR_METADATA :=
  if lset_any_common (m_layerMask this) AllCuMask && (l =? Edge_Cuts)
  then SetApertureAttrib GBR_APERTURE_ATTRIB_NONCONDUCTOR GBR_METADATA_new
  else GBR_METADATA_new.

End Members.

(** ** The other board entities the plotter reads *)

(** [operator==] of wxPoint. *)
Definition wxPoint_eqb (a b : wxPoint) : bool :=
  (pt_x a =? pt_x b) && (pt_y a =? pt_y b).

(** A text of a footprint. *)
Record TEXTE_MODULE : Type := mkTextModule
  { tm_Layer : LAYER_NUM;
    tm_Visible : bool;
    tm_ShownText : string;
    tm_TextSize : wxSize;
    tm_TextPos : wxPoint;
    tm_DrawRotation : double;
    tm_Thickness : Z;
    tm_Mirrored : bool;
    tm_Bold : bool;
    tm_Italic : bool;
    tm_HorizJustify : Z;
    tm_VertJustify : Z;
    tm_ParentReference : string }.  (* GetParent()->GetReference() *)

(** An element of [GraphicalItems()] of a footprint. *)
Inductive MODULE_ITEM : Type :=
  | ItemEdge (edge : EDGE_MODULE)
  | ItemText (text : TEXTE_MODULE).

(** [dyn_cast<EDGE_MODULE*>( item )] and [dyn_cast<TEXTE_MODULE*>( item )],
    which look at [Type()]. *)
Definition as_edge (item : MODULE_ITEM) : option EDGE_MODULE :=
  match item with
  | ItemEdge e => if edge_IsModuleEdge e then Some e else None
  | ItemText _ => None
  end.
Definition as_text (item : MODULE_ITEM) : option TEXTE_MODULE :=
  match item with
  | ItemText t => Some t
  | ItemEdge _ => None
  end.

(** The fields and the graphical items of a footprint: [Reference()],
    [Value()] and [GraphicalItems()] of a MODULE. *)
Record MODULE_FIELDS : Type := mkModuleFields
  { mod_Reference : TEXTE_MODULE;
    mod_Value : TEXTE_MODULE;
    mod_GraphicalItems : list MODULE_ITEM }.

(** The plot parameters (PCB_PLOT_PARAMS, the base class of the plotter)
    that the texts of the footprints depend on. *)
Record PCB_PLOT_PARAMS : Type := mkPlotParams
  { m_plotValue : bool;
    m_plotReference : bool;
    m_plotInvisibleText : bool;
    m_referenceColor : COLOR4D;
    m_valueColor : COLOR4D }.

(** A dimension: its text, and the end points of its seven lines. *)
Record DIMENSION : Type := mkDimension
  { dim_Layer : LAYER_NUM;
    dim_Width : Z;
    dim_BoardLayerColor : COLOR4D;  (* GetBoard()->GetLayerColor( GetLayer() ) *)
    dim_Text : TEXTE_PCB;
    m_crossBarO : wxPoint; m_crossBarF : wxPoint;
    m_featureLineGO : wxPoint; m_featureLineGF : wxPoint;
    m_featureLineDO : wxPoint; m_featureLineDF : wxPoint;
    m_arrowD1F : wxPoint; m_arrowD2F : wxPoint;
    m_arrowG1F : wxPoint; m_arrowG2F : wxPoint }.

(** A filled zone.  [zone_Corners] is what the iteration
    [for( auto ic = polysList.CIterate(); ic; ++ic )] visits: every corner
    of the filled polygons, with [ic.IsEndContour()]. *)
Record ZONE_CONTAINER : Type := mkZone
  { zone_PolysIsEmpty : bool;       (* GetFilledPolysList().IsEmpty() *)
    zone_Corners : list (wxPoint * bool);
    zone_IsOnCopperLayer : bool;
    zone_Netname : string;
    zone_Layer : LAYER_NUM;
    zone_FillMode : Z;
    zone_MinThickness : Z;
    zone_FillSegments : list (wxPoint * wxPoint) }.  (* m_Start, m_End *)

(** An element of the list [m_board->m_Drawings], by its [Type()]. *)
Inductive BOARD_ITEM : Type :=
  | PCB_LINE_T (item : DRAWSEGMENT)
  | PCB_TEXT_T (item : TEXTE_PCB)
  | PCB_DIMENSION_T (item : DIMENSION)
  | PCB_TARGET_T (item : PCB_TARGET)
  | PCB_MARKER_T
  | PCB_OTHER_T.

(** The number of layers (layers_id_colors_and_visibility.h). *)
Class LayerDecls : Type :=
  { LAYER_ID_COUNT : LAYER_NUM }.

Section MoreMembers.

Context `{PcbDecls} `{LayerDecls}.

Variable this : BRDITEMS_PLOTTER.
Variable params : PCB_PLOT_PARAMS.

(** [BRDITEMS_PLOTTER::PlotTextModule] *)
Definition PlotTextModule (pt_texte : TEXTE_MODULE) (aColor : COLOR4D)
    (m_plotter : PLOTTER) : PLOTTER :=
  let aColor := if COLOR4D_eqb aColor COLOR4D_WHITE then COLOR4D_of LIGHTGRAY
                else aColor in
  let m_plotter := emit (SetColor aColor) m_plotter in
  (* calculate some text parameters *)
  let size := tm_TextSize pt_texte in
  let pos := tm_TextPos pt_texte in
  let orient := tm_DrawRotation pt_texte in
  let thickness := tm_Thickness pt_texte in
  let size := if tm_Mirrored pt_texte
              then mkSize (Int32.neg (sz_x size)) (sz_y size) else size in
  let allow_bold := tm_Bold pt_texte || negb (thickness =? 0) in
  let gbr_metadata := SetNetAttribType GBR_NETINFO_CMP GBR_METADATA_new in
  let gbr_metadata := SetCmpReference (tm_ParentReference pt_texte) gbr_metadata in
  emit (Text pos aColor (tm_ShownText pt_texte) orient size
             (tm_HorizJustify pt_texte) (tm_VertJustify pt_texte)
             thickness (tm_Italic pt_texte) allow_bold false (Some gbr_metadata))
       m_plotter.

(** The loop of [PlotAllTextsModule] over the graphical items; [false]
    is the [return false] inside the loop. *)
Fixpoint plot_item_texts (items : list MODULE_ITEM) (m_plotter : PLOTTER)
    : bool * PLOTTER :=
  match items with
  | [] => (true, m_plotter)
  | item :: rest =>
      match as_text item with
      | None => plot_item_texts rest m_plotter
      | Some textModule =>
          if negb (tm_Visible textModule) then plot_item_texts rest m_plotter
          else
            let textLayer := tm_Layer textModule in
            if LAYER_ID_COUNT <=? textLayer then (false, m_plotter)
            else if negb (lset_test (m_layerMask this) textLayer)
            then plot_item_texts rest m_plotter
            else plot_item_texts rest
                   (PlotTextModule textModule (getColor this textLayer) m_plotter)
      end
  end.

(** [BRDITEMS_PLOTTER::PlotAllTextsModule] *)
Definition PlotAllTextsModule (aModule : MODULE_FIELDS) (m_plotter : PLOTTER)
    : bool * PLOTTER :=
  (* see if we want to plot VALUE and REF fields *)
  let trace_val := m_plotValue params in
  let trace_ref := m_plotReference params in
  let textModule := mod_Reference aModule in
  let textLayer := tm_Layer textModule in
  if LAYER_ID_COUNT <=? textLayer then (false, m_plotter)
  else
    let trace_ref := if negb (lset_test (m_layerMask this) textLayer)
                     then false else trace_ref in
    let trace_ref := if negb (tm_Visible textModule)
                        && negb (m_plotInvisibleText params)
                     then false else trace_ref in
    let textModule := mod_Value aModule in
    let textLayer := tm_Layer textModule in
    if LAYER_ID_COUNT <? textLayer then (false, m_plotter)
    else
      let trace_val := if negb (lset_test (m_layerMask this) textLayer)
                       then false else trace_val in
      let trace_val := if negb (tm_Visible textModule)
                          && negb (m_plotInvisibleText params)
                       then false else trace_val in
      (* Plot text fields, if allowed *)
      let m_plotter :=
        if trace_ref then
          if COLOR4D_eqb (m_referenceColor params) COLOR4D_UNSPECIFIED
          then PlotTextModule (mod_Reference aModule) (getColor this textLayer) m_plotter
          else PlotTextModule (mod_Reference aModule) (m_referenceColor params) m_plotter
        else m_plotter in
      let m_plotter :=
        if trace_val then
          if COLOR4D_eqb (m_valueColor params) COLOR4D_UNSPECIFIED
          then PlotTextModule (mod_Value aModule) (getColor this textLayer) m_plotter
          else PlotTextModule (mod_Value aModule) (m_valueColor params) m_plotter
        else m_plotter in
      plot_item_texts (mod_GraphicalItems aModule) m_plotter.

(** Modelled from the spec: the constructor of DRAWSEGMENT
    (class_drawsegment.cpp) is not among the sources.  [PlotDimension]
    sets the width, the layer and the two end points of a
    default-constructed DRAWSEGMENT, which is a segment: "a dimension
    becomes a text label plus 7 line segments". *)
Definition dimension_segment (aDim : DIMENSION) (start end_ : wxPoint) : DRAWSEGMENT :=
  mkDrawSegment S_SEGMENT (dim_Width aDim) (dim_Layer aDim) start end_ 0%R [].

(** [BRDITEMS_PLOTTER::PlotDimension] *)
Definition PlotDimension (aDim : DIMENSION) (m_plotter : PLOTTER) : PLOTTER :=
  if negb (lset_test (m_layerMask this) (dim_Layer aDim)) then m_plotter
  else
    let color := dim_BoardLayerColor aDim in
    (* Set plot color (change WHITE to LIGHTGRAY because
       the white items are not seen on a white paper or screen *)
    let m_plotter := emit (SetColor (not_white color)) m_plotter in
    let m_plotter := PlotTextePcb this (dim_Text aDim) m_plotter in
    let line a b p := PlotDrawSegment this (dimension_segment aDim a b) p in
    let m_plotter := line (m_crossBarO aDim) (m_crossBarF aDim) m_plotter in
    let m_plotter := line (m_featureLineGO aDim) (m_featureLineGF aDim) m_plotter in
    let m_plotter := line (m_featureLineDO aDim) (m_featureLineDF aDim) m_plotter in
    let m_plotter := line (m_crossBarF aDim) (m_arrowD1F aDim) m_plotter in
    let m_plotter := line (m_crossBarF aDim) (m_arrowD2F aDim) m_plotter in
    let m_plotter := line (m_crossBarO aDim) (m_arrowG1F aDim) m_plotter in
    line (m_crossBarO aDim) (m_arrowG2F aDim) m_plotter.

(** [BRDITEMS_PLOTTER::PlotBoardGraphicItems], on the list [m_Drawings]. *)
Definition PlotBoardGraphicItems (m_Drawings : list BOARD_ITEM) (m_plotter : PLOTTER)
    : PLOTTER :=
  fold_left (fun p item =>
               match item with
               | PCB_LINE_T seg => PlotDrawSegment this seg p
               | PCB_TEXT_T txt => PlotTextePcb this txt p
               | PCB_DIMENSION_T dim => PlotDimension dim p
               | PCB_TARGET_T mire => PlotPcbTarget this mire p
               | PCB_MARKER_T | PCB_OTHER_T => p
               end) m_Drawings m_plotter.

(** [BRDITEMS_PLOTTER::Plot_Edges_Modules], on the list [m_Modules]. *)
Definition Plot_Edges_Modules (m_Modules : list MODULE_FIELDS) (m_plotter : PLOTTER)
    : PLOTTER :=
  fold_left (fun p module =>
               fold_left (fun p item =>
                            match as_edge item with
                            | Some edge =>
                                if lset_test (m_layerMask this) (edge_Layer edge)
                                then Plot_1_EdgeModule this edge p else p
                            | None => p
                            end) (mod_GraphicalItems module) p)
            m_Modules m_plotter.

(** The metadata [PlotFilledAreas] attaches to the filling of a zone. *)
Definition zone_metadata (aZone : ZONE_CONTAINER) : GBR_METADATA :=
  if zone_IsOnCopperLayer aZone then
    let m := SetNetName (zone_Netname aZone) GBR_METADATA_new in
    (* Zones with no net name can exist.
       they are not used to connect items, so the aperture attribute cannot
       be set as conductor *)
    if String.eqb (zone_Netname aZone) EmptyString
    then SetApertureAttrib GBR_APERTURE_ATTRIB_NONCONDUCTOR m
    else SetNetAttribType GBR_NETINFO_NET
           (SetApertureAttrib GBR_APERTURE_ATTRIB_CONDUCTOR m)
  else GBR_METADATA_new.

(** What [PlotFilledAreas] plots at the end of a contour, whose corners
    are in [cornerList]. *)
Definition plot_contour (aZone : ZONE_CONTAINER) (cornerList : list wxPoint)
    (m_plotter : PLOTTER) : PLOTTER :=
  let gbr_metadata := zone_metadata aZone in
  match PlotMode this with
  | FILLED =>
      (* Plot the filled area polygon.
         The area can be filled by segments or uses solid polygons *)
      if zone_FillMode aZone =? 0 then
        emit (PlotPoly cornerList FILLED_SHAPE (zone_MinThickness aZone)
                (Some gbr_metadata)) m_plotter
      else
        let m_plotter :=
          fold_left (fun p seg =>
                       emit (ThickSegment (fst seg) (snd seg) (zone_MinThickness aZone)
                               (PlotMode this) (Some gbr_metadata)) p)
                    (zone_FillSegments aZone) m_plotter in
        (* Plot the area outline only *)
        if 0 <? zone_MinThickness aZone
        then emit (PlotPoly cornerList NO_FILL (zone_MinThickness aZone) None) m_plotter
        else m_plotter
  | SKETCH =>
      let m_plotter :=
        if 0 <? zone_MinThickness aZone
        then thick_chain cornerList (zone_MinThickness aZone) (PlotMode this)
               (Some gbr_metadata) m_plotter
        else m_plotter in
      emit (SetCurrentLineWidth (-1) None) m_plotter
  end.

(** The outline closed: [if( cornerList[0] != cornerList[cornerList.size() - 1] )
    cornerList.push_back( cornerList[0] )]. *)
Definition close_outline (cornerList : list wxPoint) : list wxPoint :=
  let first := hd (mkPoint 0 0) cornerList in
  if negb (wxPoint_eqb first (List.last cornerList (mkPoint 0 0)))
  then cornerList ++ [first] else cornerList.

(** The loop of [PlotFilledAreas] over the corners; [cornerList] is the
    buffer of the corners of the current contour. *)
Fixpoint plot_corners (aZone : ZONE_CONTAINER) (corners : list (wxPoint * bool))
    (cornerList : list wxPoint) (m_plotter : PLOTTER) : PLOTTER :=
  match corners with
  | [] => m_plotter
  | (pos, IsEndContour) :: rest =>
      let cornerList := cornerList ++ [pos] in
      if IsEndContour then
        (* Plot the current filled area outline: first, close the outline *)
        let cornerList := close_outline cornerList in
        plot_corners aZone rest [] (plot_contour aZone cornerList m_plotter)
      else plot_corners aZone rest cornerList m_plotter
  end.

(** [BRDITEMS_PLOTTER::PlotFilledAreas] *)
Definition PlotFilledAreas (aZone : ZONE_CONTAINER) (m_plotter : PLOTTER) : PLOTTER :=
  if zone_PolysIsEmpty aZone then m_plotter
  else
    let m_plotter := emit (SetColor (getColor this (zone_Layer aZone))) m_plotter in
    plot_corners aZone (zone_Corners aZone) [] m_plotter.

(** ** Notions used to state the further properties *)

(** The colour a call selects. *)
Definition selected_color (c : plot_call) : option COLOR4D :=
  match c with SetColor col => Some col | _ => None end.

(** The corners of a polygon call. *)
Definition polygon_corners (c : plot_call) : option (list wxPoint) :=
  match c with PlotPoly corners _ _ _ => Some corners | _ => None end.

(** A list of corners that ends where it starts. *)
Definition closed (corners : list wxPoint) : Prop :=
  corners <> [] /\ hd (mkPoint 0 0) corners = List.last corners (mkPoint 0 0).

(** The layer an element of [m_Drawings] is on. *)
Definition item_layer (item : BOARD_ITEM) : option LAYER_NUM :=
  match item with
  | PCB_LINE_T seg => Some (seg_Layer seg)
  | PCB_TEXT_T txt => Some (txt_Layer txt)
  | PCB_DIMENSION_T dim => Some (dim_Layer dim)
  | PCB_TARGET_T mire => Some (mire_Layer mire)
  | PCB_MARKER_T | PCB_OTHER_T => None
  end.

(** No call of the list selects the white colour. *)
Definition no_white (p : PLOTTER) : Prop :=
  Forall (fun c => selected_color c <> Some COLOR4D_WHITE) p.

(** A plot function that only adds calls to those the plotter has
    received, and the same ones whatever it has received. *)
Definition appends (f : PLOTTER -> PLOTTER) : Prop :=
  forall p : PLOTTER, f p = p ++ f [].

(** The polygons among the calls all end where they start. *)
Definition polygons_closed (p : PLOTTER) : Prop :=
  Forall (fun c => forall corners : list wxPoint,
            polygon_corners c = Some corners -> closed corners) p.

(** The segments of a chain of points: each point with the next. *)
Definition chain_segments (points : list wxPoint) : list (wxPoint * wxPoint) :=
  combine points (tl points).

Definition is_text (c : plot_call) : bool :=
  match c with Text _ _ _ _ _ _ _ _ _ _ _ _ => true | _ => false end.

End MoreMembers.

End Plot.

(* ===================================================================== *)
(** * The Cairo library, as far as CAIRO_GAL uses it *)
(* ===================================================================== *)

Module Cairo.

Record cairo_matrix_t : Type := mkMatrix
  { m_xx : double; m_yx : double; m_xy : double; m_yy : double;
    m_x0 : double; m_y0 : double }.

(** The current transformation matrix is kept as the list of the calls
    that built it, the most recent first: the matrix installed by
    [cairo_set_matrix] and the transformations applied to it since. *)
Inductive ctm_op : Type :=
  | CtmSet (m : cairo_matrix_t)
  | CtmTransform (m : cairo_matrix_t)
  | CtmRotate (angle : double)
  | CtmTranslate (tx ty : double)
  | CtmScale (sx sy : double).

Abbreviation ctm := (list ctm_op).

(** The elements of a path.  Cairo converts the user-space coordinates of
    an element to device space when the element is added; the model keeps
    the coordinates together with the matrix in force at that moment. *)
Inductive path_data : Type :=
  | MoveTo (m : ctm) (x y : double)
  | LineTo (m : ctm) (x y : double)
  | CurveTo (m : ctm) (x1 y1 x2 y2 x3 y3 : double)
  | Arc (m : ctm) (xc yc radius angle1 angle2 : double)
  | ArcNegative (m : ctm) (xc yc radius angle1 angle2 : double)
  | Rectangle (m : ctm) (x y width height : double)
  | ClosePath
  | NewSubPath.

Abbreviation cairo_path_t := (list path_data).

Inductive cairo_line_join_t : Type :=
  | CAIRO_LINE_JOIN_MITER | CAIRO_LINE_JOIN_ROUND | CAIRO_LINE_JOIN_BEVEL.
Inductive cairo_line_cap_t : Type :=
  | CAIRO_LINE_CAP_BUTT | CAIRO_LINE_CAP_ROUND | CAIRO_LINE_CAP_SQUARE.
Inductive cairo_antialias_t : Type :=
  | CAIRO_ANTIALIAS_DEFAULT | CAIRO_ANTIALIAS_NONE.

(** What has been done to the pixels: every fill and stroke with the path
    and the graphics state it used, and the two operations of the
    compositor on whole buffers. *)
Inductive paint : Type :=
  | Fill (p : cairo_path_t) (source : COLOR4D)
  | Stroke (p : cairo_path_t) (source : COLOR4D) (width : double) (m : ctm)
      (join : cairo_line_join_t) (cap : cairo_line_cap_t)
  | Composite (buffer : nat)
  | ClearBuffer.

(** The part of the graphics state that [cairo_save] saves. *)
Record gstate : Type := mkGstate
  { g_source : COLOR4D; g_line_width : double; g_matrix : ctm;
    g_line_join : cairo_line_join_t; g_line_cap : cairo_line_cap_t;
    g_antialias : cairo_antialias_t }.

(** A drawing context.  [target] names the surface it paints on (0 is the
    bitmap of the window, the others are buffers of the compositor) and
    [surface] lists the paint operations done so far, each with its
    target, oldest first. *)
Record cairo_t : Type := mkCairo
  { path : cairo_path_t;
    gs : gstate;
    saved : list gstate;
    target : nat;
    surface : list (nat * paint) }.

Definition source (c : cairo_t) : COLOR4D := g_source (gs c).
Definition line_width (c : cairo_t) : double := g_line_width (gs c).
Definition matrix (c : cairo_t) : ctm := g_matrix (gs c).

Definition set_path (p : cairo_path_t) (c : cairo_t) : cairo_t :=
  mkCairo p (gs c) (saved c) (target c) (surface c).
Definition set_gs (g : gstate) (c : cairo_t) : cairo_t :=
  mkCairo (path c) g (saved c) (target c) (surface c).
Definition set_saved (l : list gstate) (c : cairo_t) : cairo_t :=
  mkCairo (path c) (gs c) l (target c) (surface c).
Definition set_target (t : nat) (c : cairo_t) : cairo_t :=
  mkCairo (path c) (gs c) (saved c) t (surface c).
Definition add_paint (t : nat) (x : paint) (c : cairo_t) : cairo_t :=
  mkCairo (path c) (gs c) (saved c) (target c) (surface c ++ [(t, x)]).

Definition opaque_black : COLOR4D := mkCOLOR4D 0 0 0 1.

(** [cairo_create( surface )]: a context with the default graphics state,
    painting on the window bitmap whose previous content is [pixels]. *)
Definition cairo_create (pixels : list (nat * paint)) : cairo_t :=
  mkCairo []
    (mkGstate opaque_black 2 [] CAIRO_LINE_JOIN_MITER CAIRO_LINE_CAP_BUTT
              CAIRO_ANTIALIAS_DEFAULT)
    [] 0%nat pixels.

Definition add_path (e : path_data) (c : cairo_t) : cairo_t :=
  set_path (path c ++ [e]) c.

Definition cairo_move_to (x y : double) (c : cairo_t) : cairo_t :=
  add_path (MoveTo (matrix c) x y) c.
Definition cairo_line_to (x y : double) (c : cairo_t) : cairo_t :=
  add_path (LineTo (matrix c) x y) c.
Definition cairo_curve_to (x1 y1 x2 y2 x3 y3 : double) (c : cairo_t) : cairo_t :=
  add_path (CurveTo (matrix c) x1 y1 x2 y2 x3 y3) c.
Definition cairo_arc (xc yc radius angle1 angle2 : double) (c : cairo_t) : cairo_t :=
  add_path (Arc (matrix c) xc yc radius angle1 angle2) c.
Definition cairo_arc_negative (xc yc radius angle1 angle2 : double) (c : cairo_t) : cairo_t :=
  add_path (ArcNegative (matrix c) xc yc radius angle1 angle2) c.
Definition cairo_rectangle (x y width height : double) (c : cairo_t) : cairo_t :=
  add_path (Rectangle (matrix c) x y width height) c.
Definition cairo_close_path (c : cairo_t) : cairo_t := add_path ClosePath c.
Definition cairo_new_sub_path (c : cairo_t) : cairo_t := add_path NewSubPath c.
Definition cairo_new_path (c : cairo_t) : cairo_t := set_path [] c.

Definition set_source (col : COLOR4D) (c : cairo_t) : cairo_t :=
  set_gs (mkGstate col (g_line_width (gs c)) (g_matrix (gs c))
            (g_line_join (gs c)) (g_line_cap (gs c)) (g_antialias (gs c))) c.
(** [cairo_set_source_rgba] *)
Definition cairo_set_source_rgba (r g b a : double) (c : cairo_t) : cairo_t :=
  set_source (mkCOLOR4D r g b a) c.
(** [cairo_set_source_rgb]: an opaque colour. *)
Definition cairo_set_source_rgb (r g b : double) (c : cairo_t) : cairo_t :=
  set_source (mkCOLOR4D r g b 1) c.

Definition cairo_set_line_width (w : double) (c : cairo_t) : cairo_t :=
  set_gs (mkGstate (g_source (gs c)) w (g_matrix (gs c))
            (g_line_join (gs c)) (g_line_cap (gs c)) (g_antialias (gs c))) c.
Definition set_matrix (m : ctm) (c : cairo_t) : cairo_t :=
  set_gs (mkGstate (g_source (gs c)) (g_line_width (gs c)) m
            (g_line_join (gs c)) (g_line_cap (gs c)) (g_antialias (gs c))) c.
Definition cairo_set_line_join (j : cairo_line_join_t) (c : cairo_t) : cairo_t :=
  set_gs (mkGstate (g_source (gs c)) (g_line_width (gs c)) (g_matrix (gs c))
            j (g_line_cap (gs c)) (g_antialias (gs c))) c.
Definition cairo_set_line_cap (k : cairo_line_cap_t) (c : cairo_t) : cairo_t :=
  set_gs (mkGstate (g_source (gs c)) (g_line_width (gs c)) (g_matrix (gs c))
            (g_line_join (gs c)) k (g_antialias (gs c))) c.
Definition cairo_set_antialias (a : cairo_antialias_t) (c : cairo_t) : cairo_t :=
  set_gs (mkGstate (g_source (gs c)) (g_line_width (gs c)) (g_matrix (gs c))
            (g_line_join (gs c)) (g_line_cap (gs c)) a) c.

Definition cairo_set_matrix (m : cairo_matrix_t) (c : cairo_t) : cairo_t :=
  set_matrix [CtmSet m] c.
Definition cairo_transform (m : cairo_matrix_t) (c : cairo_t) : cairo_t :=
  set_matrix (CtmTransform m :: matrix c) c.
Definition cairo_rotate (angle : double) (c : cairo_t) : cairo_t :=
  set_matrix (CtmRotate angle :: matrix c) c.
Definition cairo_translate (tx ty : double) (c : cairo_t) : cairo_t :=
  set_matrix (CtmTranslate tx ty :: matrix c) c.
Definition cairo_scale (sx sy : double) (c : cairo_t) : cairo_t :=
  set_matrix (CtmScale sx sy :: matrix c) c.

(** [cairo_save] and [cairo_restore]; the path is not part of the saved
    state.  A restore without a matching save leaves the state as it is. *)
Definition cairo_save (c : cairo_t) : cairo_t := set_saved (gs c :: saved c) c.
Definition cairo_restore (c : cairo_t) : cairo_t :=
  match saved c with
  | g :: rest => set_saved rest (set_gs g c)
  | [] => c
  end.

Definition the_fill (c : cairo_t) : paint := Fill (path c) (source c).
Definition the_stroke (c : cairo_t) : paint :=
  Stroke (path c) (source c) (line_width c) (matrix c)
         (g_line_join (gs c)) (g_line_cap (gs c)).

(** [cairo_fill] and [cairo_stroke] paint the current path and clear it;
    the [_preserve] variants keep it. *)
Definition cairo_fill_preserve (c : cairo_t) : cairo_t :=
  add_paint (target c) (the_fill c) c.
Definition cairo_fill (c : cairo_t) : cairo_t :=
  cairo_new_path (cairo_fill_preserve c).
Definition cairo_stroke_preserve (c : cairo_t) : cairo_t :=
  add_paint (target c) (the_stroke c) c.
Definition cairo_stroke (c : cairo_t) : cairo_t :=
  cairo_new_path (cairo_stroke_preserve c).

(** [cairo_copy_path] gives a copy of the current path and
    [cairo_append_path] adds a copied path to the current one.  Cairo
    hands the copy out in user coordinates and reads it back under the
    matrix in force at the append; the model keeps the elements as they
    were added, which is what Cairo does when the two matrices agree. *)
Definition cairo_copy_path (c : cairo_t) : cairo_path_t := path c.
Definition cairo_append_path (p : cairo_path_t) (c : cairo_t) : cairo_t :=
  set_path (path c ++ p) c.

(** The numerical side of the library: [cairo_device_to_user_distance]
    under a given transformation matrix. *)
Class CairoNumerics : Type :=
  { cairo_device_to_user_distance : ctm -> double -> double -> double * double }.

(** A paint operation that can leave a mark: it has a path to cover. *)
Definition paints_path (x : paint) : bool :=
  match x with
  | Fill [] _ | Stroke [] _ _ _ _ _ => false
  | Fill _ _ | Stroke _ _ _ _ _ _ => true
  | Composite _ | ClearBuffer => false
  end.

(** The geometry of a paint operation: all of it but the colour. *)
Definition geometry (x : paint) : paint :=
  match x with
  | Fill p _ => Fill p opaque_black
  | Stroke p _ w m j k => Stroke p opaque_black w m j k
  | other => other
  end.

Definition paint_source (x : paint) : option COLOR4D :=
  match x with
  | Fill _ s | Stroke _ s _ _ _ _ => Some s
  | _ => None
  end.

End Cairo.

(* ===================================================================== *)
(** * CAIRO_GAL (common/gal/cairo/cairo_gal.cpp) *)
(* ===================================================================== *)

Module Gal.

Export Cairo.

Inductive RENDER_TARGET : Type :=
  | TARGET_CACHED | TARGET_NONCACHED | TARGET_OVERLAY.

(** An element of a group: the command with the arguments it reads back.
    The two path commands hold the address of a [cairo_path_t]. *)
Inductive GROUP_ELEMENT : Type :=
  | CMD_SET_FILL (boolArg : bool)
  | CMD_SET_STROKE (boolArg : bool)
  | CMD_SET_FILLCOLOR (r g b a : double)
  | CMD_SET_STROKECOLOR (r g b a : double)
  | CMD_SET_LINE_WIDTH (w : double)
  | CMD_STROKE_PATH (cairoPath : nat)
  | CMD_FILL_PATH (cairoPath : nat)
  | CMD_ROTATE (angle : double)
  | CMD_TRANSLATE (x y : double)
  | CMD_SCALE (x y : double)
  | CMD_SAVE
  | CMD_RESTORE
  | CMD_CALL_GROUP (intArg : Z).

Abbreviation GROUP := (list GROUP_ELEMENT).

Record CAIRO_GAL : Type := mkGAL
  { isGrouping : bool;
    isInitialized : bool;
    validCompositor : bool;
    groupCounter : Z   (* unsigned int *);
    isElementAdded : bool;
    isFillEnabled : bool;
    isStrokeEnabled : bool;
    fillColor : COLOR4D;
    strokeColor : COLOR4D;
    lineWidth : double;
    layerDepth : double;
    backgroundColor : COLOR4D;
    screenSize : VECTOR2I;
    worldScreenMatrix : cairo_matrix_t   (* as ComputeWorldScreenMatrix() leaves it *);
    groups : gmap Z GROUP;
    currentGroup : Z   (* the key of the map node currentGroup points to *);
    currentContext : cairo_t   (* the context the Cairo calls go to *);
    cairoPaths : gmap nat cairo_path_t   (* the cairo_path_t objects alive, by address *);
    nextPath : nat   (* the address of the next allocation *);
    currentTarget : RENDER_TARGET;
    mainBuffer : nat;
    overlayBuffer : nat }.

Definition set_isGrouping (v : bool) (s : CAIRO_GAL) : CAIRO_GAL :=
  mkGAL v (isInitialized s) (validCompositor s) (groupCounter s)
        (isElementAdded s) (isFillEnabled s) (isStrokeEnabled s)
        (fillColor s) (strokeColor s) (lineWidth s) (layerDepth s)
        (backgroundColor s) (screenSize s) (worldScreenMatrix s) (groups s)
        (currentGroup s) (currentContext s) (cairoPaths s) (nextPath s)
        (currentTarget s) (mainBuffer s) (overlayBuffer s).
Definition set_isInitialized (v : bool) (s : CAIRO_GAL) : CAIRO_GAL :=
  mkGAL (isGrouping s) v (validCompositor s) (groupCounter s)
        (isElementAdded s) (isFillEnabled s) (isStrokeEnabled s)
        (fillColor s) (strokeColor s) (lineWidth s) (layerDepth s)
        (backgroundColor s) (screenSize s) (worldScreenMatrix s) (groups s)
        (currentGroup s) (currentContext s) (cairoPaths s) (nextPath s)
        (currentTarget s) (mainBuffer s) (overlayBuffer s).
Definition set_validCompositor (v : bool) (s : CAIRO_GAL) : CAIRO_GAL :=
  mkGAL (isGrouping s) (isInitialized s) v (groupCounter s)
        (isElementAdded s) (isFillEnabled s) (isStrokeEnabled s)
        (fillColor s) (strokeColor s) (lineWidth s) (layerDepth s)
        (backgroundColor s) (screenSize s) (worldScreenMatrix s) (groups s)
        (currentGroup s) (currentContext s) (cairoPaths s) (nextPath s)
        (currentTarget s) (mainBuffer s) (overlayBuffer s).
Definition set_groupCounter (v : Z) (s : CAIRO_GAL) : CAIRO_GAL :=
  mkGAL (isGrouping s) (isInitialized s) (validCompositor s) v
        (isElementAdded s) (isFillEnabled s) (isStrokeEnabled s)
        (fillColor s) (strokeColor s) (lineWidth s) (layerDepth s)
        (backgroundColor s) (screenSize s) (worldScreenMatrix s) (groups s)
        (currentGroup s) (currentContext s) (cairoPaths s) (nextPath s)
        (currentTarget s) (mainBuffer s) (overlayBuffer s).
Definition set_isElementAdded (v : bool) (s : CAIRO_GAL) : CAIRO_GAL :=
  mkGAL (isGrouping s) (isInitialized s) (validCompositor s)
        (groupCounter s) v (isFillEnabled s) (isStrokeEnabled s)
        (fillColor s) (strokeColor s) (lineWidth s) (layerDepth s)
        (backgroundColor s) (screenSize s) (worldScreenMatrix s) (groups s)
        (currentGroup s) (currentContext s) (cairoPaths s) (nextPath s)
        (currentTarget s) (mainBuffer s) (overlayBuffer s).
Definition set_isFillEnabled (v : bool) (s : CAIRO_GAL) : CAIRO_GAL :=
  mkGAL (isGrouping s) (isInitialized s) (validCompositor s)
        (groupCounter s) (isElementAdded s) v (isStrokeEnabled s)
        (fillColor s) (strokeColor s) (lineWidth s) (layerDepth s)
        (backgroundColor s) (screenSize s) (worldScreenMatrix s) (groups s)
        (currentGroup s) (currentContext s) (cairoPaths s) (nextPath s)
        (currentTarget s) (mainBuffer s) (overlayBuffer s).
Definition set_isStrokeEnabled (v : bool) (s : CAIRO_GAL) : CAIRO_GAL :=
  mkGAL (isGrouping s) (isInitialized s) (validCompositor s)
        (groupCounter s) (isElementAdded s) (isFillEnabled s) v
        (fillColor s) (strokeColor s) (lineWidth s) (layerDepth s)
        (backgroundColor s) (screenSize s) (worldScreenMatrix s) (groups s)
        (currentGroup s) (currentContext s) (cairoPaths s) (nextPath s)
        (currentTarget s) (mainBuffer s) (overlayBuffer s).
Definition set_fillColor (v : COLOR4D) (s : CAIRO_GAL) : CAIRO_GAL :=
  mkGAL (isGrouping s) (isInitialized s) (validCompositor s)
        (groupCounter s) (isElementAdded s) (isFillEnabled s)
        (isStrokeEnabled s) v (strokeColor s) (lineWidth s) (layerDepth s)
        (backgroundColor s) (screenSize s) (worldScreenMatrix s) (groups s)
        (currentGroup s) (currentContext s) (cairoPaths s) (nextPath s)
        (currentTarget s) (mainBuffer s) (overlayBuffer s).
Definition set_strokeColor (v : COLOR4D) (s : CAIRO_GAL) : CAIRO_GAL :=
  mkGAL (isGrouping s) (isInitialized s) (validCompositor s)
        (groupCounter s) (isElementAdded s) (isFillEnabled s)
        (isStrokeEnabled s) (fillColor s) v (lineWidth s) (layerDepth s)
        (backgroundColor s) (screenSize s) (worldScreenMatrix s) (groups s)
        (currentGroup s) (currentContext s) (cairoPaths s) (nextPath s)
        (currentTarget s) (mainBuffer s) (overlayBuffer s).
Definition set_lineWidth (v : double) (s : CAIRO_GAL) : CAIRO_GAL :=
  mkGAL (isGrouping s) (isInitialized s) (validCompositor s)
        (groupCounter s) (isElementAdded s) (isFillEnabled s)
        (isStrokeEnabled s) (fillColor s) (strokeColor s) v (layerDepth s)
        (backgroundColor s) (screenSize s) (worldScreenMatrix s) (groups s)
        (currentGroup s) (currentContext s) (cairoPaths s) (nextPath s)
        (currentTarget s) (mainBuffer s) (overlayBuffer s).
Definition set_layerDepth (v : double) (s : CAIRO_GAL) : CAIRO_GAL :=
  mkGAL (isGrouping s) (isInitialized s) (validCompositor s)
        (groupCounter s) (isElementAdded s) (isFillEnabled s)
        (isStrokeEnabled s) (fillColor s) (strokeColor s) (lineWidth s) v
        (backgroundColor s) (screenSize s) (worldScreenMatrix s) (groups s)
        (currentGroup s) (currentContext s) (cairoPaths s) (nextPath s)
        (currentTarget s) (mainBuffer s) (overlayBuffer s).
Definition set_backgroundColor (v : COLOR4D) (s : CAIRO_GAL) : CAIRO_GAL :=
  mkGAL (isGrouping s) (isInitialized s) (validCompositor s)
        (groupCounter s) (isElementAdded s) (isFillEnabled s)
        (isStrokeEnabled s) (fillColor s) (strokeColor s) (lineWidth s)
        (layerDepth s) v (screenSize s) (worldScreenMatrix s) (groups s)
        (currentGroup s) (currentContext s) (cairoPaths s) (nextPath s)
        (currentTarget s) (mainBuffer s) (overlayBuffer s).
Definition set_screenSize (v : VECTOR2I) (s : CAIRO_GAL) : CAIRO_GAL :=
  mkGAL (isGrouping s) (isInitialized s) (validCompositor s)
        (groupCounter s) (isElementAdded s) (isFillEnabled s)
        (isStrokeEnabled s) (fillColor s) (strokeColor s) (lineWidth s)
        (layerDepth s) (backgroundColor s) v (worldScreenMatrix s)
        (groups s) (currentGroup s) (currentContext s) (cairoPaths s)
        (nextPath s) (currentTarget s) (mainBuffer s) (overlayBuffer s).
Definition set_worldScreenMatrix (v : cairo_matrix_t) (s : CAIRO_GAL) : CAIRO_GAL :=
  mkGAL (isGrouping s) (isInitialized s) (validCompositor s)
        (groupCounter s) (isElementAdded s) (isFillEnabled s)
        (isStrokeEnabled s) (fillColor s) (strokeColor s) (lineWidth s)
        (layerDepth s) (backgroundColor s) (screenSize s) v (groups s)
        (currentGroup s) (currentContext s) (cairoPaths s) (nextPath s)
        (currentTarget s) (mainBuffer s) (overlayBuffer s).
Definition set_groups (v : gmap Z GROUP) (s : CAIRO_GAL) : CAIRO_GAL :=
  mkGAL (isGrouping s) (isInitialized s) (validCompositor s)
        (groupCounter s) (isElementAdded s) (isFillEnabled s)
        (isStrokeEnabled s) (fillColor s) (strokeColor s) (lineWidth s)
        (layerDepth s) (backgroundColor s) (screenSize s)
        (worldScreenMatrix s) v (currentGroup s) (currentContext s)
        (cairoPaths s) (nextPath s) (currentTarget s) (mainBuffer s)
        (overlayBuffer s).
Definition set_currentGroup (v : Z) (s : CAIRO_GAL) : CAIRO_GAL :=
  mkGAL (isGrouping s) (isInitialized s) (validCompositor s)
        (groupCounter s) (isElementAdded s) (isFillEnabled s)
        (isStrokeEnabled s) (fillColor s) (strokeColor s) (lineWidth s)
        (layerDepth s) (backgroundColor s) (screenSize s)
        (worldScreenMatrix s) (groups s) v (currentContext s) (cairoPaths s)
        (nextPath s) (currentTarget s) (mainBuffer s) (overlayBuffer s).
Definition set_currentContext (v : cairo_t) (s : CAIRO_GAL) : CAIRO_GAL :=
  mkGAL (isGrouping s) (isInitialized s) (validCompositor s)
        (groupCounter s) (isElementAdded s) (isFillEnabled s)
        (isStrokeEnabled s) (fillColor s) (strokeColor s) (lineWidth s)
        (layerDepth s) (backgroundColor s) (screenSize s)
        (worldScreenMatrix s) (groups s) (currentGroup s) v (cairoPaths s)
        (nextPath s) (currentTarget s) (mainBuffer s) (overlayBuffer s).
Definition set_cairoPaths (v : gmap nat cairo_path_t) (s : CAIRO_GAL) : CAIRO_GAL :=
  mkGAL (isGrouping s) (isInitialized s) (validCompositor s)
        (groupCounter s) (isElementAdded s) (isFillEnabled s)
        (isStrokeEnabled s) (fillColor s) (strokeColor s) (lineWidth s)
        (layerDepth s) (backgroundColor s) (screenSize s)
        (worldScreenMatrix s) (groups s) (currentGroup s) (currentContext s)
        v (nextPath s) (currentTarget s) (mainBuffer s) (overlayBuffer s).
Definition set_nextPath (v : nat) (s : CAIRO_GAL) : CAIRO_GAL :=
  mkGAL (isGrouping s) (isInitialized s) (validCompositor s)
        (groupCounter s) (isElementAdded s) (isFillEnabled s)
        (isStrokeEnabled s) (fillColor s) (strokeColor s) (lineWidth s)
        (layerDepth s) (backgroundColor s) (screenSize s)
        (worldScreenMatrix s) (groups s) (currentGroup s) (currentContext s)
        (cairoPaths s) v (currentTarget s) (mainBuffer s) (overlayBuffer s).
Definition set_currentTarget (v : RENDER_TARGET) (s : CAIRO_GAL) : CAIRO_GAL :=
  mkGAL (isGrouping s) (isInitialized s) (validCompositor s)
        (groupCounter s) (isElementAdded s) (isFillEnabled s)
        (isStrokeEnabled s) (fillColor s) (strokeColor s) (lineWidth s)
        (layerDepth s) (backgroundColor s) (screenSize s)
        (worldScreenMatrix s) (groups s) (currentGroup s) (currentContext s)
        (cairoPaths s) (nextPath s) v (mainBuffer s) (overlayBuffer s).
Definition set_mainBuffer (v : nat) (s : CAIRO_GAL) : CAIRO_GAL :=
  mkGAL (isGrouping s) (isInitialized s) (validCompositor s)
        (groupCounter s) (isElementAdded s) (isFillEnabled s)
        (isStrokeEnabled s) (fillColor s) (strokeColor s) (lineWidth s)
        (layerDepth s) (backgroundColor s) (screenSize s)
        (worldScreenMatrix s) (groups s) (currentGroup s) (currentContext s)
        (cairoPaths s) (nextPath s) (currentTarget s) v (overlayBuffer s).
Definition set_overlayBuffer (v : nat) (s : CAIRO_GAL) : CAIRO_GAL :=
  mkGAL (isGrouping s) (isInitialized s) (validCompositor s)
        (groupCounter s) (isElementAdded s) (isFillEnabled s)
        (isStrokeEnabled s) (fillColor s) (strokeColor s) (lineWidth s)
        (layerDepth s) (backgroundColor s) (screenSize s)
        (worldScreenMatrix s) (groups s) (currentGroup s) (currentContext s)
        (cairoPaths s) (nextPath s) (currentTarget s) (mainBuffer s) v.

(** A call on [currentContext]. *)
Definition on_context (f : cairo_t -> cairo_t) (s : CAIRO_GAL) : CAIRO_GAL :=
  set_currentContext (f (currentContext s)) s.

(** [currentGroup->push_back( groupElement )].  [currentGroup] points into
    a node of [groups]; when that node has been erased the C++ pointer
    dangles, and the model leaves the table as it is. *)
Definition push_back (e : GROUP_ELEMENT) (s : CAIRO_GAL) : CAIRO_GAL :=
  set_groups (alter (fun g => g ++ [e]) (currentGroup s) (groups s)) s.

(** [groups[aGroupNumber]]: [std::map::operator[]] inserts an empty group
    under a key that is not in the map. *)
Definition touch (aGroupNumber : Z) (s : CAIRO_GAL) : CAIRO_GAL :=
  match groups s !! aGroupNumber with
  | Some _ => s
  | None => set_groups (<[aGroupNumber := []]> (groups s)) s
  end.

Definition group_at (aGroupNumber : Z) (s : CAIRO_GAL) : GROUP :=
  default [] (groups s !! aGroupNumber).

(** [cairo_copy_path( currentContext )]: a new path object. *)
Definition copy_path (s : CAIRO_GAL) : nat * CAIRO_GAL :=
  let addr := nextPath s in
  (addr,
   set_nextPath (S addr)
     (set_cairoPaths (<[addr := cairo_copy_path (currentContext s)]> (cairoPaths s)) s)).

(** [cairo_path_destroy( p )] *)
Definition cairo_path_destroy (p : nat) (s : CAIRO_GAL) : CAIRO_GAL :=
  set_cairoPaths (delete p (cairoPaths s)) s.

(** [cairo_append_path( currentContext, p )] *)
Definition append_path (p : nat) (s : CAIRO_GAL) : CAIRO_GAL :=
  on_context (cairo_append_path (default [] (cairoPaths s !! p))) s.

Definition source_rgba (c : COLOR4D) : cairo_t -> cairo_t :=
  cairo_set_source_rgba (col_r c) (col_g c) (col_b c) (col_a c).
Definition source_rgb (c : COLOR4D) : cairo_t -> cairo_t :=
  cairo_set_source_rgb (col_r c) (col_g c) (col_b c).

(** [CAIRO_GAL::flushPath] *)
Definition flushPath (s : CAIRO_GAL) : CAIRO_GAL :=
  let s :=
    if isFillEnabled s then
      let s := on_context (source_rgba (fillColor s)) s in
      if isStrokeEnabled s then on_context cairo_fill_preserve s
      else on_context cairo_fill s
    else s in
  if isStrokeEnabled s then
    let s := on_context (source_rgba (strokeColor s)) s in
    on_context cairo_stroke s
  else s.

(** [CAIRO_GAL::storePath] *)
Definition storePath (s : CAIRO_GAL) : CAIRO_GAL :=
  if isElementAdded s then
    let s := set_isElementAdded false s in
    let s :=
      if negb (isGrouping s) then
        let s :=
          if isFillEnabled s then
            let s := on_context (source_rgb (fillColor s)) s in
            on_context cairo_fill_preserve s
          else s in
        if isStrokeEnabled s then
          let s := on_context (source_rgb (strokeColor s)) s in
          on_context cairo_stroke_preserve s
        else s
      else
        (* Copy the actual path, append it to the global path list
           then check, if the path needs to be stroked/filled and
           add this command to the group list *)
        let s :=
          if isStrokeEnabled s then
            let '(p, s) := copy_path s in push_back (CMD_STROKE_PATH p) s
          else s in
        if isFillEnabled s then
          let '(p, s) := copy_path s in push_back (CMD_FILL_PATH p) s
        else s in
    on_context cairo_new_path s
  else s.

(** [CAIRO_GAL::Flush] *)
Definition Flush (s : CAIRO_GAL) : CAIRO_GAL := storePath s.

Section Numerics.

Context `{CairoNumerics}.

(** "Make lines appear at least 1 pixel wide, no matter of zoom" *)
Definition set_device_line_width (w : double) (c : cairo_t) : cairo_t :=
  let '(x, y) := cairo_device_to_user_distance (matrix c) 1 1 in
  let minWidth := Rmin (Rabs x) (Rabs y) in
  cairo_set_line_width (Rmax w minWidth) c.

(** [CAIRO_GAL::SetIsFill] *)
Definition SetIsFill (aIsFillEnabled : bool) (s : CAIRO_GAL) : CAIRO_GAL :=
  let s := storePath s in
  let s := set_isFillEnabled aIsFillEnabled s in
  if isGrouping s then push_back (CMD_SET_FILL aIsFillEnabled) s else s.

(** [CAIRO_GAL::SetIsStroke] *)
Definition SetIsStroke (aIsStrokeEnabled : bool) (s : CAIRO_GAL) : CAIRO_GAL :=
  let s := storePath s in
  let s := set_isStrokeEnabled aIsStrokeEnabled s in
  if isGrouping s then push_back (CMD_SET_STROKE aIsStrokeEnabled) s else s.

(** [CAIRO_GAL::SetStrokeColor] *)
Definition SetStrokeColor (aColor : COLOR4D) (s : CAIRO_GAL) : CAIRO_GAL :=
  let s := storePath s in
  let s := set_strokeColor aColor s in
  if isGrouping s then
    push_back (CMD_SET_STROKECOLOR (col_r (strokeColor s)) (col_g (strokeColor s))
                 (col_b (strokeColor s)) (col_a (strokeColor s))) s
  else s.

(** [CAIRO_GAL::SetFillColor] *)
Definition SetFillColor (aColor : COLOR4D) (s : CAIRO_GAL) : CAIRO_GAL :=
  let s := storePath s in
  let s := set_fillColor aColor s in
  if isGrouping s then
    push_back (CMD_SET_FILLCOLOR (col_r (fillColor s)) (col_g (fillColor s))
                 (col_b (fillColor s)) (col_a (fillColor s))) s
  else s.

(** [CAIRO_GAL::SetLineWidth] *)
Definition SetLineWidth (aLineWidth : double) (s : CAIRO_GAL) : CAIRO_GAL :=
  let s := storePath s in
  let s := set_lineWidth aLineWidth s in
  if isGrouping s then push_back (CMD_SET_LINE_WIDTH aLineWidth) s
  else on_context (set_device_line_width aLineWidth) s.

(** [GAL::SetLayerDepth] of the base class. *)
Definition super_SetLayerDepth (aLayerDepth : double) (s : CAIRO_GAL) : CAIRO_GAL :=
  set_layerDepth aLayerDepth s.

(** [CAIRO_GAL::SetLayerDepth] *)
Definition SetLayerDepth (aLayerDepth : double) (s : CAIRO_GAL) : CAIRO_GAL :=
  let s := super_SetLayerDepth aLayerDepth s in
  if isInitialized s then storePath s else s.

(** [CAIRO_GAL::Transform] *)
Definition Transform (aTransformation : cairo_matrix_t) (s : CAIRO_GAL) : CAIRO_GAL :=
  on_context (cairo_transform aTransformation) s.

(** [CAIRO_GAL::Rotate] *)
Definition Rotate (aAngle : double) (s : CAIRO_GAL) : CAIRO_GAL :=
  let s := storePath s in
  if isGrouping s then push_back (CMD_ROTATE aAngle) s
  else on_context (cairo_rotate aAngle) s.

(** [CAIRO_GAL::Translate] *)
Definition Translate (aTranslation : VECTOR2D) (s : CAIRO_GAL) : CAIRO_GAL :=
  let s := storePath s in
  if isGrouping s then push_back (CMD_TRANSLATE (vx aTranslation) (vy aTranslation)) s
  else on_context (cairo_translate (vx aTranslation) (vy aTranslation)) s.

(** [CAIRO_GAL::Scale] *)
Definition Scale (aScale : VECTOR2D) (s : CAIRO_GAL) : CAIRO_GAL :=
  let s := storePath s in
  if isGrouping s then push_back (CMD_SCALE (vx aScale) (vy aScale)) s
  else on_context (cairo_scale (vx aScale) (vy aScale)) s.

(** [CAIRO_GAL::Save] *)
Definition Save (s : CAIRO_GAL) : CAIRO_GAL :=
  let s := storePath s in
  if isGrouping s then push_back CMD_SAVE s else on_context cairo_save s.

(** [CAIRO_GAL::Restore] *)
Definition Restore (s : CAIRO_GAL) : CAIRO_GAL :=
  let s := storePath s in
  if isGrouping s then push_back CMD_RESTORE s else on_context cairo_restore s.

(** ** Primitives *)

(** [CAIRO_GAL::DrawLine] *)
Definition DrawLine (aStartPoint aEndPoint : VECTOR2D) (s : CAIRO_GAL) : CAIRO_GAL :=
  let s := on_context (cairo_move_to (vx aStartPoint) (vy aStartPoint)) s in
  let s := on_context (cairo_line_to (vx aEndPoint) (vy aEndPoint)) s in
  let s := flushPath s in
  set_isElementAdded true s.

(** [VECTOR2D::EuclideanNorm] *)
Definition EuclideanNorm (v : VECTOR2D) : double :=
  sqrt (vx v * vx v + vy v * vy v).

(** [CAIRO_GAL::DrawSegment] *)
Definition DrawSegment (aStartPoint aEndPoint : VECTOR2D) (aWidth : double)
    (s : CAIRO_GAL) : CAIRO_GAL :=
  let s :=
    if isFillEnabled s then
      (* Filled tracks mode *)
      let s := SetLineWidth aWidth s in
      let s := on_context (cairo_move_to (vx aStartPoint) (vy aStartPoint)) s in
      let s := on_context (cairo_line_to (vx aEndPoint) (vy aEndPoint)) s in
      let s := on_context (source_rgba (fillColor s)) s in
      on_context cairo_stroke s
    else
      (* Outline mode for tracks *)
      let startEndVector :=
        mkVECTOR2D (vx aEndPoint - vx aStartPoint) (vy aEndPoint - vy aStartPoint) in
      let lineAngle := atan2 (vy startEndVector) (vx startEndVector) in
      let lineLength := EuclideanNorm startEndVector in
      let s := on_context cairo_save s in
      let s := on_context (source_rgba (strokeColor s)) s in
      let s := on_context (cairo_translate (vx aStartPoint) (vy aStartPoint)) s in
      let s := on_context (cairo_rotate lineAngle) s in
      let s := on_context (cairo_arc 0 0 (aWidth / 2) (PI / 2) (3 * PI / 2)) s in
      let s := on_context (cairo_arc lineLength 0 (aWidth / 2) (- PI / 2) (PI / 2)) s in
      let s := on_context (cairo_move_to 0 (aWidth / 2)) s in
      let s := on_context (cairo_line_to lineLength (aWidth / 2)) s in
      let s := on_context (cairo_move_to 0 (- aWidth / 2)) s in
      let s := on_context (cairo_line_to lineLength (- aWidth / 2)) s in
      let s := on_context cairo_restore s in
      flushPath s in
  set_isElementAdded true s.

(** [CAIRO_GAL::DrawCircle] *)
Definition DrawCircle (aCenterPoint : VECTOR2D) (aRadius : double)
    (s : CAIRO_GAL) : CAIRO_GAL :=
  let s := on_context cairo_new_sub_path s in
  let s := on_context (cairo_arc (vx aCenterPoint) (vy aCenterPoint) aRadius 0 (2 * PI)) s in
  let s := flushPath s in
  set_isElementAdded true s.

(** [SWAP( aStartAngle, >, aEndAngle )] *)
Definition swap_if_greater (a b : double) : double * double :=
  if Rlt_dec b a then (b, a) else (a, b).

(** [CAIRO_GAL::DrawArc] *)
Definition DrawArc (aCenterPoint : VECTOR2D) (aRadius aStartAngle aEndAngle : double)
    (s : CAIRO_GAL) : CAIRO_GAL :=
  let '(aStartAngle, aEndAngle) := swap_if_greater aStartAngle aEndAngle in
  let s := on_context cairo_new_sub_path s in
  let s := on_context (cairo_arc (vx aCenterPoint) (vy aCenterPoint) aRadius
                         aStartAngle aEndAngle) s in
  let s :=
    if isFillEnabled s then
      let startPoint := mkVECTOR2D (cos aStartAngle * aRadius + vx aCenterPoint)
                                   (sin aStartAngle * aRadius + vy aCenterPoint) in
      let endPoint := mkVECTOR2D (cos aEndAngle * aRadius + vx aCenterPoint)
                                 (sin aEndAngle * aRadius + vy aCenterPoint) in
      let s := on_context (cairo_move_to (vx aCenterPoint) (vy aCenterPoint)) s in
      let s := on_context (cairo_line_to (vx startPoint) (vy startPoint)) s in
      let s := on_context (cairo_line_to (vx endPoint) (vy endPoint)) s in
      on_context cairo_close_path s
    else s in
  let s := flushPath s in
  set_isElementAdded true s.

(** [CAIRO_GAL::DrawArcSegment] *)
Definition DrawArcSegment (aCenterPoint : VECTOR2D)
    (aRadius aStartAngle aEndAngle aWidth : double) (s : CAIRO_GAL) : CAIRO_GAL :=
  let '(aStartAngle, aEndAngle) := swap_if_greater aStartAngle aEndAngle in
  let s :=
    if isFillEnabled s then
      let s := on_context (cairo_arc (vx aCenterPoint) (vy aCenterPoint) aRadius
                             aStartAngle aEndAngle) s in
      let s := on_context (source_rgba (fillColor s)) s in
      on_context cairo_stroke s
    else
      let width := (aWidth / 2)%R in
      let startPoint := mkVECTOR2D (cos aStartAngle * aRadius) (sin aStartAngle * aRadius) in
      let endPoint := mkVECTOR2D (cos aEndAngle * aRadius) (sin aEndAngle * aRadius) in
      let s := on_context cairo_save s in
      let s := on_context (source_rgba (strokeColor s)) s in
      let s := on_context (cairo_translate (vx aCenterPoint) (vy aCenterPoint)) s in
      let s := on_context cairo_new_sub_path s in
      let s := on_context (cairo_arc 0 0 (aRadius - width) aStartAngle aEndAngle) s in
      let s := on_context cairo_new_sub_path s in
      let s := on_context (cairo_arc 0 0 (aRadius + width) aStartAngle aEndAngle) s in
      let s := on_context cairo_new_sub_path s in
      let s := on_context (cairo_arc_negative (vx startPoint) (vy startPoint) width
                             aStartAngle (aStartAngle + PI)) s in
      let s := on_context cairo_new_sub_path s in
      let s := on_context (cairo_arc (vx endPoint) (vy endPoint) width
                             aEndAngle (aEndAngle + PI)) s in
      let s := on_context cairo_restore s in
      flushPath s in
  set_isElementAdded true s.

(** [CAIRO_GAL::DrawRectangle] *)
Definition DrawRectangle (aStartPoint aEndPoint : VECTOR2D) (s : CAIRO_GAL) : CAIRO_GAL :=
  (* Calculate the diagonal points *)
  let diagonalPointA := mkVECTOR2D (vx aEndPoint) (vy aStartPoint) in
  let diagonalPointB := mkVECTOR2D (vx aStartPoint) (vy aEndPoint) in
  (* The path is composed from 4 segments *)
  let s := on_context (cairo_move_to (vx aStartPoint) (vy aStartPoint)) s in
  let s := on_context (cairo_line_to (vx diagonalPointA) (vy diagonalPointA)) s in
  let s := on_context (cairo_line_to (vx aEndPoint) (vy aEndPoint)) s in
  let s := on_context (cairo_line_to (vx diagonalPointB) (vy diagonalPointB)) s in
  let s := on_context cairo_close_path s in
  let s := flushPath s in
  set_isElementAdded true s.

(** [CAIRO_GAL::DrawCurve] *)
Definition DrawCurve (aStartPoint aControlPointA aControlPointB aEndPoint : VECTOR2D)
    (s : CAIRO_GAL) : CAIRO_GAL :=
  let s := on_context (cairo_move_to (vx aStartPoint) (vy aStartPoint)) s in
  let s := on_context (cairo_curve_to (vx aControlPointA) (vy aControlPointA)
                         (vx aControlPointB) (vy aControlPointB)
                         (vx aEndPoint) (vy aEndPoint)) s in
  let s := on_context (cairo_line_to (vx aEndPoint) (vy aEndPoint)) s in
  let s := flushPath s in
  set_isElementAdded true s.

(** A [SHAPE_LINE_CHAIN]: its points and whether it is closed.
    [CPoint( i )] wraps an index past the end around to the start. *)
Record SHAPE_LINE_CHAIN : Type := mkChain
  { chain_points : list VECTOR2I; IsClosed : bool }.

Definition PointCount (c : SHAPE_LINE_CHAIN) : nat := length (chain_points c).

Definition CPoint (c : SHAPE_LINE_CHAIN) (i : nat) : VECTOR2I :=
  let i := if (PointCount c <=? i)%nat then (i - PointCount c)%nat else i in
  nth i (chain_points c) (mkVECTOR2I 0 0).

(** The loop [for( int i = 1; i < numPoints; ++i ) cairo_line_to( CPoint( i ) )],
    [count] iterations starting at index [i]. *)
Fixpoint chain_lines (c : SHAPE_LINE_CHAIN) (count i : nat) (s : CAIRO_GAL) : CAIRO_GAL :=
  match count with
  | O => s
  | S count' =>
      let p := CPoint c i in
      chain_lines c count' (S i) (on_context (cairo_line_to (IZR (ix p)) (IZR (iy p))) s)
  end.

(** [CAIRO_GAL::drawPoly( const SHAPE_LINE_CHAIN& )] *)
Definition drawPoly (aLineChain : SHAPE_LINE_CHAIN) (s : CAIRO_GAL) : CAIRO_GAL :=
  if (PointCount aLineChain <? 2)%nat then s
  else
    let numPoints := PointCount aLineChain in
    let numPoints := if IsClosed aLineChain then S numPoints else numPoints in
    let start := CPoint aLineChain 0 in
    let s := on_context (cairo_move_to (IZR (ix start)) (IZR (iy start))) s in
    let s := chain_lines aLineChain (numPoints - 1) 1 s in
    let s := flushPath s in
    set_isElementAdded true s.

(** [CAIRO_GAL::DrawPolygon( const SHAPE_POLY_SET& )], on the outlines of
    the set. *)
Definition DrawPolygon (aPolySet : list SHAPE_LINE_CHAIN) (s : CAIRO_GAL) : CAIRO_GAL :=
  fold_left (fun s outline => drawPoly outline s) aPolySet s.

(** ** Surface and compositor *)

(** [CAIRO_GAL::ClearScreen] *)
Definition ClearScreen (aColor : COLOR4D) (s : CAIRO_GAL) : CAIRO_GAL :=
  let s := set_backgroundColor aColor s in
  let s := on_context (source_rgb aColor) s in
  let s := on_context (cairo_rectangle 0 0 (IZR (ix (screenSize s)))
                         (IZR (iy (screenSize s)))) s in
  on_context cairo_fill s.

(** [CAIRO_GAL::initSurface] *)
Definition initSurface (s : CAIRO_GAL) : CAIRO_GAL :=
  if isInitialized s then s
  else
    (* Create the Cairo surface on the bitmap, and its context *)
    let s := set_currentContext (cairo_create (surface (currentContext s))) s in
    let s := on_context (cairo_set_antialias CAIRO_ANTIALIAS_NONE) s in
    (* Clear the screen *)
    let s := ClearScreen (backgroundColor s) s in
    (* Compute the world <-> screen transformations *)
    let s := on_context (cairo_set_matrix (worldScreenMatrix s)) s in
    (* Start drawing with a new path *)
    let s := on_context cairo_new_path s in
    let s := set_isElementAdded true s in
    let s := on_context (cairo_set_line_join CAIRO_LINE_JOIN_ROUND) s in
    let s := on_context (cairo_set_line_cap CAIRO_LINE_CAP_ROUND) s in
    let s := set_lineWidth 0 s in
    set_isInitialized true s.

(** [CAIRO_GAL::deinitSurface].  The context is destroyed; the record
    keeps its last value, which nothing may use until the next
    [initSurface] replaces it. *)
Definition deinitSurface (s : CAIRO_GAL) : CAIRO_GAL :=
  if negb (isInitialized s) then s else set_isInitialized false s.

(** Modelled from the spec: the compositor (gal/cairo/cairo_compositor.cpp)
    is not among the sources.  It "owns two logical buffers (main,
    overlay)"; selecting a buffer makes [currentContext] paint on it,
    [DrawBuffer] merges a buffer into the window bitmap and [ClearBuffer]
    clears the selected one.  The graphics state is kept across the
    selection. *)
Definition compositor_SetBuffer (aBufferHandle : nat) (s : CAIRO_GAL) : CAIRO_GAL :=
  on_context (set_target aBufferHandle) s.
Definition compositor_GetBuffer (s : CAIRO_GAL) : nat := target (currentContext s).
Definition compositor_DrawBuffer (aBufferHandle : nat) (s : CAIRO_GAL) : CAIRO_GAL :=
  on_context (add_paint 0%nat (Composite aBufferHandle)) s.
Definition compositor_ClearBuffer (s : CAIRO_GAL) : CAIRO_GAL :=
  on_context (fun c => add_paint (target c) ClearBuffer c) s.

(** [CAIRO_GAL::setCompositor]: a new compositor, whose first two buffers
    are the main and the overlay one. *)
Definition setCompositor (s : CAIRO_GAL) : CAIRO_GAL :=
  let s := set_mainBuffer 1%nat s in
  let s := set_overlayBuffer 2%nat s in
  set_validCompositor true s.

(** [CAIRO_GAL::BeginDrawing] *)
Definition BeginDrawing (s : CAIRO_GAL) : CAIRO_GAL :=
  let s := initSurface s in
  let s := if negb (validCompositor s) then setCompositor s else s in
  compositor_SetBuffer (mainBuffer s) s.

(** [CAIRO_GAL::EndDrawing]; the copy of the bitmap to the window is
    outside the model. *)
Definition EndDrawing (s : CAIRO_GAL) : CAIRO_GAL :=
  (* Force remaining objects to be drawn *)
  let s := Flush s in
  (* Merge buffers on the screen *)
  let s := compositor_DrawBuffer (mainBuffer s) s in
  let s := compositor_DrawBuffer (overlayBuffer s) s in
  deinitSurface s.

(** [CAIRO_GAL::ResizeScreen] *)
Definition ResizeScreen (aWidth aHeight : Z) (s : CAIRO_GAL) : CAIRO_GAL :=
  let s := set_screenSize (mkVECTOR2I aWidth aHeight) s in
  set_validCompositor false s.

Definition buffer_of (aTarget : RENDER_TARGET) (s : CAIRO_GAL) : nat :=
  match aTarget with
  | TARGET_OVERLAY => overlayBuffer s
  | TARGET_CACHED | TARGET_NONCACHED => mainBuffer s
  end.

(** [CAIRO_GAL::SetTarget] *)
Definition SetTarget (aTarget : RENDER_TARGET) (s : CAIRO_GAL) : CAIRO_GAL :=
  (* If the compositor is not set, that means that there is a recaching
     process going on and we do not need the compositor now *)
  if negb (validCompositor s) then s
  else
    let s := if isInitialized s then storePath s else s in
    let s := compositor_SetBuffer (buffer_of aTarget s) s in
    set_currentTarget aTarget s.

(** [CAIRO_GAL::GetTarget] *)
Definition GetTarget (s : CAIRO_GAL) : RENDER_TARGET := currentTarget s.

(** [CAIRO_GAL::ClearTarget] *)
Definition ClearTarget (aTarget : RENDER_TARGET) (s : CAIRO_GAL) : CAIRO_GAL :=
  (* Save the current state *)
  let currentBuffer := compositor_GetBuffer s in
  let s := compositor_SetBuffer (buffer_of aTarget s) s in
  let s := compositor_ClearBuffer s in
  (* Restore the previous state *)
  compositor_SetBuffer currentBuffer s.

(** ** Groups *)

(** The outcome of a member function that holds a [wxASSERT]. *)
Inductive result (A : Type) : Type :=
  | Ok (a : A)
  | AssertionFailed.
#[global] Arguments Ok {A} a.
#[global] Arguments AssertionFailed {A}.

(** The loop [while( groups.find( groupCounter ) != groups.end() ) groupCounter++],
    for at most [fuel] counters. *)
Fixpoint first_free (fuel : nat) (table : gmap Z GROUP) (counter : Z) : option Z :=
  match fuel with
  | O => None
  | S fuel' =>
      match table !! Int32.of_unsigned counter with
      | Some _ => first_free fuel' table (Int32.uwrap (counter + 1))
      | None => Some counter
      end
  end.

(** [CAIRO_GAL::getNewGroupNumber].  With fewer groups than counters, one
    of the [size + 1] counters after [groupCounter] is free. *)
Definition getNewGroupNumber (s : CAIRO_GAL) : result (Z * CAIRO_GAL) :=
  if negb (Z.of_nat (size (groups s)) <? 2 ^ 32 - 1) then AssertionFailed
  else
    match first_free (S (size (groups s))) (groups s) (groupCounter s) with
    | Some counter => Ok (counter, set_groupCounter (Int32.uwrap (counter + 1)) s)
    | None => AssertionFailed
    end.

(** [CAIRO_GAL::BeginGroup] *)
Definition BeginGroup (s : CAIRO_GAL) : result (Z * CAIRO_GAL) :=
  let s := initSurface s in
  (* If the grouping is started: the actual path is stored in the group, when
     a attribute was changed or when grouping stops with the end group method. *)
  let s := storePath s in
  match getNewGroupNumber s with
  | AssertionFailed => AssertionFailed
  | Ok (counter, s) =>
      let groupNumber := Int32.of_unsigned counter in
      (* groups.insert( ... ), which keeps a group already there, then
         &groups[groupNumber] *)
      let s := touch groupNumber s in
      let s := set_currentGroup groupNumber s in
      let s := set_isGrouping true s in
      Ok (groupNumber, s)
  end.

(** [CAIRO_GAL::EndGroup] *)
Definition EndGroup (s : CAIRO_GAL) : CAIRO_GAL :=
  let s := storePath s in
  let s := set_isGrouping false s in
  deinitSurface s.

(** One command of the virtual machine of [DrawGroup]; [call] replays a
    nested group. *)
Definition run_element (call : Z -> CAIRO_GAL -> option CAIRO_GAL)
    (e : GROUP_ELEMENT) (s : CAIRO_GAL) : option CAIRO_GAL :=
  match e with
  | CMD_SET_FILL b => Some (set_isFillEnabled b s)
  | CMD_SET_STROKE b => Some (set_isStrokeEnabled b s)
  | CMD_SET_FILLCOLOR r g b a => Some (set_fillColor (mkCOLOR4D r g b a) s)
  | CMD_SET_STROKECOLOR r g b a => Some (set_strokeColor (mkCOLOR4D r g b a) s)
  | CMD_SET_LINE_WIDTH w => Some (on_context (set_device_line_width w) s)
  | CMD_STROKE_PATH p =>
      let s := on_context (source_rgb (strokeColor s)) s in
      let s := append_path p s in
      Some (on_context cairo_stroke s)
  | CMD_FILL_PATH p =>
      let s := on_context (source_rgb (fillColor s)) s in
      let s := append_path p s in
      Some (on_context cairo_fill s)
  | CMD_ROTATE angle => Some (on_context (cairo_rotate angle) s)
  | CMD_TRANSLATE x y => Some (on_context (cairo_translate x y) s)
  | CMD_SCALE x y => Some (on_context (cairo_scale x y) s)
  | CMD_SAVE => Some (on_context cairo_save s)
  | CMD_RESTORE => Some (on_context cairo_restore s)
  | CMD_CALL_GROUP n => call n s
  end.

Fixpoint run_elements (call : Z -> CAIRO_GAL -> option CAIRO_GAL)
    (l : GROUP) (s : CAIRO_GAL) : option CAIRO_GAL :=
  match l with
  | [] => Some s
  | e :: rest =>
      match run_element call e s with
      | Some s => run_elements call rest s
      | None => None
      end
  end.

(** [CAIRO_GAL::DrawGroup].  The recursion through [CMD_CALL_GROUP] is
    bounded by [fuel], the depth of nesting allowed; [None] says that the
    bound was reached. *)
Fixpoint DrawGroup (fuel : nat) (aGroupNumber : Z) (s : CAIRO_GAL) : option CAIRO_GAL :=
  match fuel with
  | O => None
  | S fuel' =>
      let s := storePath s in
      let s := touch aGroupNumber s in
      run_elements (DrawGroup fuel') (group_at aGroupNumber s) s
  end.

(** The assignment of the new colour to one element. *)
Definition recolor (aNewColor : COLOR4D) (e : GROUP_ELEMENT) : GROUP_ELEMENT :=
  match e with
  | CMD_SET_FILLCOLOR _ _ _ _ =>
      CMD_SET_FILLCOLOR (col_r aNewColor) (col_g aNewColor) (col_b aNewColor)
                        (col_a aNewColor)
  | CMD_SET_STROKECOLOR _ _ _ _ =>
      CMD_SET_STROKECOLOR (col_r aNewColor) (col_g aNewColor) (col_b aNewColor)
                          (col_a aNewColor)
  | other => other
  end.

(** [CAIRO_GAL::ChangeGroupColor] *)
Definition ChangeGroupColor (aGroupNumber : Z) (aNewColor : COLOR4D)
    (s : CAIRO_GAL) : CAIRO_GAL :=
  let s := storePath s in
  let s := touch aGroupNumber s in
  set_groups (alter (map (recolor aNewColor)) aGroupNumber (groups s)) s.

(** [CAIRO_GAL::ChangeGroupDepth] *)
Definition ChangeGroupDepth (aGroupNumber : Z) (aDepth : Z) (s : CAIRO_GAL) : CAIRO_GAL := s.

(** The loop of [DeleteGroup] that deletes the Cairo paths. *)
Definition destroy_paths (l : GROUP) (s : CAIRO_GAL) : CAIRO_GAL :=
  fold_left (fun s e =>
               match e with
               | CMD_FILL_PATH p | CMD_STROKE_PATH p => cairo_path_destroy p s
               | _ => s
               end) l s.

(** [CAIRO_GAL::DeleteGroup] *)
Definition DeleteGroup (aGroupNumber : Z) (s : CAIRO_GAL) : CAIRO_GAL :=
  let s := storePath s in
  (* Delete the Cairo paths *)
  let s := touch aGroupNumber s in
  let s := destroy_paths (group_at aGroupNumber s) s in
  (* Delete the group *)
  set_groups (delete aGroupNumber (groups s)) s.

(** The loop [for( int i = ...; i >= 0; --i ) DeleteGroup( i )], entered
    with [i = n - 1]. *)
Fixpoint delete_down (n : nat) (s : CAIRO_GAL) : CAIRO_GAL :=
  match n with
  | O => s
  | S i => delete_down i (DeleteGroup (Z.of_nat i) s)
  end.

(** [CAIRO_GAL::ClearCache] *)
Definition ClearCache (s : CAIRO_GAL) : CAIRO_GAL :=
  delete_down (size (groups s)) s.

(** [CAIRO_GAL::CAIRO_GAL].  The constructor assigns the four members
    below and the size of the screen, and the group table starts empty.
    [raw] gives the members it does not assign: those the constructor of
    the base class GAL sets, and those that keep the value they were
    allocated with, [isElementAdded] among them. *)
Definition CAIRO_GAL_ctor (parentSize : VECTOR2I) (raw : CAIRO_GAL) : CAIRO_GAL :=
  let s := set_cairoPaths ∅ (set_groups ∅ raw) in
  let s := set_isGrouping false s in
  let s := set_isInitialized false s in
  let s := set_validCompositor false s in
  let s := set_groupCounter 0 s in
  set_screenSize parentSize s.

(** ** The interface, as a type of calls *)

Inductive call : Type :=
  | CallBeginDrawing
  | CallEndDrawing
  | CallDrawLine (aStartPoint aEndPoint : VECTOR2D)
  | CallDrawSegment (aStartPoint aEndPoint : VECTOR2D) (aWidth : double)
  | CallDrawCircle (aCenterPoint : VECTOR2D) (aRadius : double)
  | CallDrawArc (aCenterPoint : VECTOR2D) (aRadius aStartAngle aEndAngle : double)
  | CallDrawArcSegment (aCenterPoint : VECTOR2D)
      (aRadius aStartAngle aEndAngle aWidth : double)
  | CallDrawRectangle (aStartPoint aEndPoint : VECTOR2D)
  | CallDrawPolygon (aPolySet : list SHAPE_LINE_CHAIN)
  | CallDrawCurve (aStartPoint aControlPointA aControlPointB aEndPoint : VECTOR2D)
  | CallResizeScreen (aWidth aHeight : Z)
  | CallFlush
  | CallClearScreen (aColor : COLOR4D)
  | CallSetIsFill (aIsFillEnabled : bool)
  | CallSetIsStroke (aIsStrokeEnabled : bool)
  | CallSetStrokeColor (aColor : COLOR4D)
  | CallSetFillColor (aColor : COLOR4D)
  | CallSetLineWidth (aLineWidth : double)
  | CallSetLayerDepth (aLayerDepth : double)
  | CallTransform (aTransformation : cairo_matrix_t)
  | CallRotate (aAngle : double)
  | CallTranslate (aTranslation : VECTOR2D)
  | CallScale (aScale : VECTOR2D)
  | CallSave
  | CallRestore
  | CallBeginGroup
  | CallEndGroup
  | CallDrawGroup (aGroupNumber : Z)
  | CallChangeGroupColor (aGroupNumber : Z) (aNewColor : COLOR4D)
  | CallChangeGroupDepth (aGroupNumber : Z) (aDepth : Z)
  | CallDeleteGroup (aGroupNumber : Z)
  | CallClearCache
  | CallSetTarget (aTarget : RENDER_TARGET)
  | CallClearTarget (aTarget : RENDER_TARGET).

(** How a call ends: it returns, an assertion stops it, or the replay of
    nested groups is deeper than the bound given. *)
Inductive outcome : Type :=
  | Returns (s : CAIRO_GAL)
  | Asserts
  | TooDeep.

Definition exec (fuel : nat) (c : call) (s : CAIRO_GAL) : outcome :=
  match c with
  | CallBeginDrawing => Returns (BeginDrawing s)
  | CallEndDrawing => Returns (EndDrawing s)
  | CallDrawLine a b => Returns (DrawLine a b s)
  | CallDrawSegment a b w => Returns (DrawSegment a b w s)
  | CallDrawCircle c r => Returns (DrawCircle c r s)
  | CallDrawArc c r a b => Returns (DrawArc c r a b s)
  | CallDrawArcSegment c r a b w => Returns (DrawArcSegment c r a b w s)
  | CallDrawRectangle a b => Returns (DrawRectangle a b s)
  | CallDrawPolygon l => Returns (DrawPolygon l s)
  | CallDrawCurve a b c d => Returns (DrawCurve a b c d s)
  | CallResizeScreen w h => Returns (ResizeScreen w h s)
  | CallFlush => Returns (Flush s)
  | CallClearScreen c => Returns (ClearScreen c s)
  | CallSetIsFill b => Returns (SetIsFill b s)
  | CallSetIsStroke b => Returns (SetIsStroke b s)
  | CallSetStrokeColor c => Returns (SetStrokeColor c s)
  | CallSetFillColor c => Returns (SetFillColor c s)
  | CallSetLineWidth w => Returns (SetLineWidth w s)
  | CallSetLayerDepth d => Returns (SetLayerDepth d s)
  | CallTransform m => Returns (Transform m s)
  | CallRotate a => Returns (Rotate a s)
  | CallTranslate v => Returns (Translate v s)
  | CallScale v => Returns (Scale v s)
  | CallSave => Returns (Save s)
  | CallRestore => Returns (Restore s)
  | CallBeginGroup =>
      match BeginGroup s with
      | Ok (_, s) => Returns s
      | AssertionFailed => Asserts
      end
  | CallEndGroup => Returns (EndGroup s)
  | CallDrawGroup n =>
      match DrawGroup fuel n s with
      | Some s => Returns s
      | None => TooDeep
      end
  | CallChangeGroupColor n c => Returns (ChangeGroupColor n c s)
  | CallChangeGroupDepth n d => Returns (ChangeGroupDepth n d s)
  | CallDeleteGroup n => Returns (DeleteGroup n s)
  | CallClearCache => Returns (ClearCache s)
  | CallSetTarget t => Returns (SetTarget t s)
  | CallClearTarget t => Returns (ClearTarget t s)
  end.

(** A sequence of calls, stopped by the first one that does not return. *)
Fixpoint exec_all (fuel : nat) (cs : list call) (s : CAIRO_GAL) : outcome :=
  match cs with
  | [] => Returns s
  | c :: rest =>
      match exec fuel c s with
      | Returns s => exec_all fuel rest s
      | other => other
      end
  end.

(** What the calls of a sequence painted: the paint operations added to
    the surface between two states, and those among them that cover a
    path. *)
Definition painted_since (before after : CAIRO_GAL) : list (nat * paint) :=
  drop (length (surface (currentContext before))) (surface (currentContext after)).

Definition visible (l : list (nat * paint)) : list (nat * paint) :=
  List.filter (fun x => paints_path (snd x)) l.

(** ** Notions used to state the properties *)


(** What [storePath] records in state [s]: nothing unless an element is
    pending inside a group, and then a stroke-path command if stroking is
    enabled, followed by a fill-path command if filling is; each command
    holds the address of a new copy of the current path. *)
Definition flush_records (s : CAIRO_GAL) : GROUP :=
  if isElementAdded s then
    if isGrouping s then
      (if isStrokeEnabled s then [CMD_STROKE_PATH (nextPath s)] else [])
      ++
      (if isFillEnabled s
       then [CMD_FILL_PATH (if isStrokeEnabled s then S (nextPath s) else nextPath s)]
       else [])
    else []
  else [].

(** The addresses of the paths that a group holds. *)
Definition paths_of (l : GROUP) : list nat :=
  flat_map (fun e => match e with
                     | CMD_STROKE_PATH p | CMD_FILL_PATH p => [p]
                     | _ => []
                     end) l.

(** The colour with the alpha channel dropped, as [cairo_set_source_rgb]
    installs it. *)
Definition opaque (c : COLOR4D) : COLOR4D :=
  mkCOLOR4D (col_r c) (col_g c) (col_b c) 1.

Definition is_call (e : GROUP_ELEMENT) : bool :=
  match e with CMD_CALL_GROUP _ => true | _ => false end.

(** A group without nested calls.  No member function appends a
    [CMD_CALL_GROUP]. *)
Definition flat (l : GROUP) : bool := forallb (fun e => negb (is_call e)) l.

(** A state with the colours forgotten: the two current colours, the
    source of the context and of the saved graphics states, and the colour
    of every paint operation done. *)
Definition colourless_gs (g : gstate) : gstate :=
  mkGstate opaque_black (g_line_width g) (g_matrix g) (g_line_join g)
           (g_line_cap g) (g_antialias g).
Definition colourless_context (c : cairo_t) : cairo_t :=
  mkCairo (path c) (colourless_gs (gs c)) (map colourless_gs (saved c)) (target c)
          (map (fun x => (fst x, geometry (snd x))) (surface c)).

(** Every group of the table is flat. *)
Definition flat_table (m : gmap Z GROUP) : Prop :=
  forall (k : Z) (g : GROUP), m !! k = Some g -> flat g = true.
Definition all_flat (s : CAIRO_GAL) : Prop := flat_table (groups s).

(** Two operations on a context respect the geometry: on contexts that
    agree up to colours, their results agree up to colours. *)
Definition respects (f f2 : cairo_t -> cairo_t) : Prop :=
  forall c c2, colourless_context c = colourless_context c2 ->
               colourless_context (f c) = colourless_context (f2 c2).


(** ** The other drawing functions *)

(** [CAIRO_GAL::drawPoly( const std::deque<VECTOR2D>& )].  The function
    reads [*aPointList.begin()] without a test: on an empty list the
    behaviour is undefined, which is [None]. *)
Definition drawPoly_deque (aPointList : list VECTOR2D) (s : CAIRO_GAL)
    : option CAIRO_GAL :=
  match aPointList with
  | [] => None
  | it :: rest =>
      let s := on_context (cairo_move_to (vx it) (vy it)) s in
      let s := fold_left (fun s it => on_context (cairo_line_to (vx it) (vy it)) s)
                         rest s in
      let s := flushPath s in
      Some (set_isElementAdded true s)
  end.

(** The loop [for( int i = 0; i < aListSize; ++i ) { ++ptr; cairo_line_to( ptr ) }]:
    [count] iterations, [ptr] being the index read last.  A read past the
    end of the array is undefined, which is [None]. *)
Fixpoint array_lines (aPointList : list VECTOR2D) (count ptr : nat) (s : CAIRO_GAL)
    : option CAIRO_GAL :=
  match count with
  | O => Some s
  | S count' =>
      let ptr := S ptr in
      match nth_error aPointList ptr with
      | None => None
      | Some p =>
          array_lines aPointList count' ptr (on_context (cairo_line_to (vx p) (vy p)) s)
      end
  end.

(** [CAIRO_GAL::drawPoly( const VECTOR2D aPointList[], int aListSize )] *)
Definition drawPoly_array (aPointList : list VECTOR2D) (aListSize : Z) (s : CAIRO_GAL)
    : option CAIRO_GAL :=
  match nth_error aPointList 0 with
  | None => None
  | Some p =>
      let s := on_context (cairo_move_to (vx p) (vy p)) s in
      match array_lines aPointList (Z.to_nat aListSize) 0 s with
      | None => None
      | Some s =>
          let s := flushPath s in
          Some (set_isElementAdded true s)
      end
  end.

(** The loop of [CAIRO_GAL::allocateBitmaps]
    [while( ( ( wxBufferWidth * 3 ) % 4 ) != 0 ) wxBufferWidth++], for at
    most [fuel] tests. *)
Fixpoint pad_width (fuel : nat) (wxBufferWidth : Z) : option Z :=
  match fuel with
  | O => None
  | S fuel' =>
      if negb (Z.rem (Int32.mul wxBufferWidth 3) 4 =? 0)
      then pad_width fuel' (Int32.add wxBufferWidth 1)
      else Some wxBufferWidth
  end.

(** ** Notions used to state the further properties *)

(** What [flushPath] paints in state [s]: the current path, filled with
    the fill colour if filling is enabled, then stroked with the stroke
    colour if stroking is; both colours with their alpha. *)
Definition flush_path_paints (s : CAIRO_GAL) : list (nat * paint) :=
  let c := currentContext s in
  (if isFillEnabled s then [(target c, Fill (path c) (fillColor s))] else [])
  ++
  (if isStrokeEnabled s
   then [(target c, Stroke (path c) (strokeColor s) (line_width c) (matrix c)
                           (g_line_join (gs c)) (g_line_cap (gs c)))]
   else []).

(** The path of a polyline: a move to the first point and a line to each
    of the others, under the transformation [m]. *)
Definition polyline (m : ctm) (points : list VECTOR2D) : cairo_path_t :=
  match points with
  | [] => []
  | p :: rest => MoveTo m (vx p) (vy p) :: map (fun q => LineTo m (vx q) (vy q)) rest
  end.

(** The live handles are [0 .. size - 1]. *)
Definition dense (m : gmap Z GROUP) : Prop :=
  forall k : Z, is_Some (m !! k) <-> 0 <= k < Z.of_nat (size m).

(** A state that a sequence of interface calls reaches from a
    constructed CAIRO_GAL. *)
Definition reachable (s : CAIRO_GAL) : Prop :=
  exists (parentSize : VECTOR2I) (raw : CAIRO_GAL) (fuel : nat) (cs : list call),
    exec_all fuel cs (CAIRO_GAL_ctor parentSize raw) = Returns s.

End Numerics.

End Gal.

(* ===================================================================== *)
(** * Data for the examples *)
(* ===================================================================== *)

Module Samples.

Import Plot.

(** The loop of [wxStringSplit] (common.cpp): [tmp] collects the
    characters of the current piece. *)
Fixpoint split_loop (aText : string) (aSplitter : ascii) (tmp : string) : list string :=
  match aText with
  | EmptyString => if String.eqb tmp EmptyString then [] else [tmp]
  | String ch rest =>
      if Ascii.eqb ch aSplitter then tmp :: split_loop rest aSplitter EmptyString
      else split_loop rest aSplitter (tmp ++ String ch EmptyString)%string
  end.

(** The declarations of pcbnew: copper layers are numbered 0 (front) to
    31 (back), the technical layers of the board are 32 to 39 and 46 to
    49, [Edge_Cuts] is 44; angles are in tenths of a degree and lengths
    in nanometres. *)
Definition pcbnew_decls : PcbDecls :=
  {| AllCuMask := 2 ^ 32 - 1;
     ExternalCuMask := 1 + 2 ^ 31;
     AllBoardTechMask := 255 * 2 ^ 32 + 15 * 2 ^ 46;
     Edge_Cuts := 44;
     IsCopperLayer := fun l => (0 <=? l) && (l <=? 31);
     COLOR4D_of := fun c =>
       match c with
       | WHITE => mkCOLOR4D 1 1 1 1
       | LIGHTGRAY => mkCOLOR4D (194 / 255) (194 / 255) (194 / 255) 1
       end;
     COLOR4D_WHITE := mkCOLOR4D 1 1 1 1;
     COLOR4D_UNSPECIFIED := mkCOLOR4D 0 0 0 0;
     SMALL_DRILL := 350000;
     ArcTangente := fun dy dx => (atan2 (IZR dy) (IZR dx) * 1800 / PI)%R;
     RotatePoint := fun p angle =>
       let a := (angle * PI / 1800)%R in
       mkPoint (KiROUND (IZR (pt_y p) * sin a + IZR (pt_x p) * cos a))
               (KiROUND (IZR (pt_y p) * cos a - IZR (pt_x p) * sin a));
     wxStringSplit := fun aText aSplitter => split_loop aText aSplitter EmptyString |}.

Definition red : COLOR4D := mkCOLOR4D 1 0 0 1.
Definition black : COLOR4D := mkCOLOR4D 0 0 0 1.

(** A plotter for the front copper layer and the front silk screen, on a
    board whose layers are all red. *)
Definition front_plotter : BRDITEMS_PLOTTER :=
  mkBrdPlotter (1 + 2 ^ 37) FILLED 5 SMALL_DRILL_SHAPE black (fun _ => red) [] [].

(** A plotter for the first inner copper layer only. *)
Definition inner_plotter : BRDITEMS_PLOTTER :=
  mkBrdPlotter 2 FILLED 5 SMALL_DRILL_SHAPE black (fun _ => red) [] [].

(** A through-hole pad on all copper layers and on both solder masks. *)
Definition through_pad : D_PAD :=
  mkPad (mkPoint 100 200) (mkPoint 100 200) (2 ^ 32 - 1 + 3 * 2 ^ 38)
        "U1" "1" "GND" PAD_ATTRIB_STANDARD PAD_SHAPE_CIRCLE
        (mkSize 100 100) 0 0 [] (mkSize 40 40) PAD_DRILL_SHAPE_CIRCLE.

(** Targets of size 30 on the front silk screen (layer 37). *)
Definition mire_plus : PCB_TARGET := mkTarget 37 (mkPoint 1000 2000) 30 2 0.
Definition mire_x : PCB_TARGET := mkTarget 37 (mkPoint 1000 2000) 30 2 1.

(** A footprint polygon left with a single corner. *)
Definition one_corner_edge : EDGE_MODULE :=
  mkEdge true 37 S_POLYGON 2 (mkPoint 0 0) (mkPoint 0 0) 0 [mkPoint 5 5] "U1"
         (Some (mkModule 0 (mkPoint 1000 2000))).

(** A text on the front silk screen that shows nothing. *)
Definition empty_text : TEXTE_PCB :=
  mkText EmptyString 37 (mkSize 10 10) (mkPoint 0 0) 0 1 false false false true 0 0
         (fun _ => []).

Import Gal.

(** Device and user distances coincide: no zoom. *)
Definition unit_numerics : CairoNumerics :=
  {| cairo_device_to_user_distance := fun _ x y => (x, y) |}.

Definition identity_matrix : cairo_matrix_t := mkMatrix 1 0 0 1 0 0.

(** The members of a CAIRO_GAL before the body of its constructor runs;
    stroking enabled, filling disabled. *)
Definition raw_gal (elementAdded : bool) : CAIRO_GAL :=
  mkGAL false false false 0 elementAdded false true
        (mkCOLOR4D 0 0 0 0) (mkCOLOR4D 1 1 1 1) 1 0 black (mkVECTOR2I 0 0)
        identity_matrix ∅ 0 (cairo_create []) ∅ 0%nat TARGET_NONCACHED 0%nat 0%nat.

(** A CAIRO_GAL as constructed, for a window of 800 by 600. *)
Definition new_gal : CAIRO_GAL := CAIRO_GAL_ctor (mkVECTOR2I 800 600) (raw_gal false).


(** One red line, stroked. *)
Definition red_line : list call :=
  [CallSetIsFill false; CallSetIsStroke true; CallSetStrokeColor red;
   CallDrawLine (mkVECTOR2D 0 0) (mkVECTOR2D 10 10)].

(** A state in which group 0 holds a stroke colour and the path of a
    line. *)
Definition gal_with_line_group : CAIRO_GAL :=
  set_groups {[ 0 := [CMD_SET_STROKECOLOR 0 0 0 1; CMD_STROKE_PATH 0] ]}
    (set_cairoPaths {[ 0%nat := [MoveTo [] 0 0; LineTo [] 10 10] ]}
       (set_nextPath 1 (BeginDrawing new_gal))).


(** The transformation of a surface just initialised, and the path of
    the line of [red_line] under it. *)
Definition world : ctm := [CtmSet identity_matrix].
Definition the_line : cairo_path_t := [MoveTo world 0 0; LineTo world 10 10].

(** Two groups are recorded, the first is deleted, the cache is cleared. *)
Definition two_groups_then_clear : list call :=
  [CallBeginGroup; CallEndGroup;
   CallBeginGroup; CallSetIsStroke true;
   CallDrawLine (mkVECTOR2D 0 0) (mkVECTOR2D 10 10); CallEndGroup;
   CallDeleteGroup 0; CallClearCache].

(** ** Data for the further examples *)

(** The number of layers of pcbnew. *)
Definition layer_decls : LayerDecls := {| LAYER_ID_COUNT := 50 |}.

Definition white : COLOR4D := mkCOLOR4D 1 1 1 1.

(** The plotter of [front_plotter] on a board whose layers are all
    white, and on one whose silk screen is red and other layers black. *)
Definition white_board_plotter : BRDITEMS_PLOTTER :=
  mkBrdPlotter (1 + 2 ^ 37) FILLED 5 SMALL_DRILL_SHAPE black (fun _ => white) [] [].
Definition layered_plotter : BRDITEMS_PLOTTER :=
  mkBrdPlotter (1 + 2 ^ 37) FILLED 5 SMALL_DRILL_SHAPE black
               (fun l => if l =? 37 then red else black) [] [].

(** Graphic items on the back copper layer (31), which these plotters do
    not plot, and on the front silk screen, which they plot. *)
Definition back_text : TEXTE_PCB :=
  mkText "R1" 31 (mkSize 10 10) (mkPoint 5 5) 0 1 false false false false 0 0
         (fun _ => []).
Definition back_dimension : DIMENSION :=
  mkDimension 31 2 red back_text
    (mkPoint 0 0) (mkPoint 100 0) (mkPoint 0 0) (mkPoint 0 20) (mkPoint 100 0)
    (mkPoint 100 20) (mkPoint 90 5) (mkPoint 90 (-5)) (mkPoint 10 5) (mkPoint 10 (-5)).
Definition back_drawings : list BOARD_ITEM :=
  [PCB_LINE_T (mkDrawSegment S_SEGMENT 2 31 (mkPoint 0 0) (mkPoint 10 0) 0 []);
   PCB_TEXT_T back_text;
   PCB_DIMENSION_T back_dimension;
   PCB_TARGET_T (mkTarget 31 (mkPoint 0 0) 30 2 0);
   PCB_MARKER_T].

Definition silk_curve : DRAWSEGMENT :=
  mkDrawSegment S_CURVE 2 37 (mkPoint 0 0) (mkPoint 30 0) 0
                [mkPoint 0 0; mkPoint 10 5; mkPoint 20 5; mkPoint 30 0].

(** A text of two lines on the front silk screen. *)
Definition two_line_text : TEXTE_PCB :=
  mkText (String "A" (String "010" (String "B" EmptyString))) 37 (mkSize 10 10)
         (mkPoint 5 5) 0 1 true false false true 0 0
         (fun _ => [mkPoint 5 5; mkPoint 5 20]).

Definition silk_drawings : list BOARD_ITEM :=
  [PCB_LINE_T silk_curve; PCB_TEXT_T two_line_text; PCB_TARGET_T mire_x].

(** A mechanical pad, and a round surface-mount pad on the front copper
    layer, the front paste and the front mask. *)
Definition washer_pad : D_PAD :=
  mkPad (mkPoint 100 200) (mkPoint 100 200) (2 ^ 32 - 1 + 3 * 2 ^ 38)
        "U1" EmptyString EmptyString PAD_ATTRIB_HOLE_NOT_PLATED PAD_SHAPE_CIRCLE
        (mkSize 100 100) 0 0 [] (mkSize 60 60) PAD_DRILL_SHAPE_CIRCLE.
Definition ball_pad : D_PAD :=
  mkPad (mkPoint 100 200) (mkPoint 100 200) (1 + 2 ^ 35 + 2 ^ 39)
        "U2" "A1" "VCC" PAD_ATTRIB_SMD PAD_SHAPE_CIRCLE
        (mkSize 50 50) 0 0 [] (mkSize 0 0) PAD_DRILL_SHAPE_CIRCLE.

(** A zone of two contours, a triangle left open and a square given
    closed, filled by three segments. *)
Definition segment_zone : ZONE_CONTAINER :=
  mkZone false
    [(mkPoint 0 0, false); (mkPoint 10 0, false); (mkPoint 10 10, true);
     (mkPoint 20 20, false); (mkPoint 30 20, false); (mkPoint 30 30, false);
     (mkPoint 20 30, false); (mkPoint 20 20, true)]
    true "GND" 0 1 2
    [(mkPoint 1 1, mkPoint 9 1); (mkPoint 1 2, mkPoint 9 2); (mkPoint 1 3, mkPoint 9 3)].

(** A footprint with its reference on the front silk screen, its value on
    the front fabrication layer (49), an outline on the back copper layer
    and an invisible text. *)
Definition sample_reference : TEXTE_MODULE :=
  mkTextModule 37 true "U1" (mkSize 10 10) (mkPoint 0 0) 0 1 false false false 0 0 "U1".
Definition sample_value : TEXTE_MODULE :=
  mkTextModule 49 true "4k7" (mkSize 10 10) (mkPoint 0 20) 0 1 false false false 0 0 "U1".
Definition hidden_text : TEXTE_MODULE :=
  mkTextModule 37 false "note" (mkSize 10 10) (mkPoint 0 40) 0 1 false false false 0 0 "U1".
Definition back_edge : EDGE_MODULE :=
  mkEdge true 31 S_SEGMENT 2 (mkPoint 0 0) (mkPoint 10 0) 0 [] "U1"
         (Some (mkModule 0 (mkPoint 1000 2000))).
Definition sample_module : MODULE_FIELDS :=
  mkModuleFields sample_reference sample_value [ItemEdge back_edge; ItemText hidden_text].

(** Plot parameters: the fields are plotted in the colour of their layer,
    or not at all; invisible texts are asked for in the second. *)
Definition fields_plotted : PCB_PLOT_PARAMS :=
  mkPlotParams true true false (mkCOLOR4D 0 0 0 0) (mkCOLOR4D 0 0 0 0).
Definition fields_not_plotted : PCB_PLOT_PARAMS :=
  mkPlotParams false false true (mkCOLOR4D 0 0 0 0) (mkCOLOR4D 0 0 0 0).

(** The state in which [BeginGroup] leaves a new CAIRO_GAL. *)
Definition first_group : CAIRO_GAL :=
  match BeginGroup new_gal with
  | Ok (_, s) => s
  | AssertionFailed => new_gal
  end.

(** The state after the recording of [red_line] in a group. *)
Definition recorded_line : CAIRO_GAL :=
  match @exec unit_numerics 1 CallBeginGroup new_gal with
  | Returns s =>
      match @exec_all unit_numerics 1 (red_line ++ [CallEndGroup]) s with
      | Returns s => s
      | _ => new_gal
      end
  | _ => new_gal
  end.

(** [gal_with_line_group] with nothing pending. *)
Definition idle_gal_with_line_group : CAIRO_GAL := Flush gal_with_line_group.

End Samples.

(* ===================================================================== *)
(** * Properties of the board-item plotter *)
(* ===================================================================== *)

Section PlotterProperties.

Import Plot.

Context `{PcbDecls}.

Lemma wrap_in_range (z : Z) : Int32.in_range z -> Int32.wrap z = z.
Proof.
  unfold Int32.in_range, Int32.min_int, Int32.max_int, Int32.wrap.
  intros Hz. rewrite Z.mod_small; lia.
Qed.

Lemma Clamp_bounds (lower value upper : Z) :
  lower <= upper -> lower <= Clamp lower value upper <= upper.
Proof.
  intros Hlu. unfold Clamp.
  destruct (value <? lower) eqn:E1; [lia|].
  destruct (upper <? value) eqn:E2; lia.
Qed.

Lemma Clamp_inside (lower value upper : Z) :
  lower <= value <= upper -> Clamp lower value upper = value.
Proof.
  intros Hv. unfold Clamp.
  destruct (value <? lower) eqn:E1; [lia|].
  destruct (upper <? value) eqn:E2; lia.
Qed.

(** C3.  Drill marks.  The diameter of a drill mark is first clamped to
    the small-drill ceiling, when small-drill mode is active and the drill
    is circular; then the width compensation is subtracted; then the
    result is clamped into [1, padDimension - 1]; the mark flashed has
    that diameter.  A slot gets the last two steps on both of its axes.
    The subtractions are assumed not to overflow. *)
Theorem drill_mark_order (this : BRDITEMS_PLOTTER) (aDrillShape : PAD_DRILL_SHAPE_T)
    (aDrillPos : wxPoint) (aDrillSize aPadSize : wxSize) (aOrientation : double)
    (aSmallDrill : Z) (m_plotter : PLOTTER) :
  let adj := FineWidthAdj this in
  let x := Clamp 1 (ceiled aDrillShape aSmallDrill (sz_x aDrillSize) - adj)
                   (sz_x aPadSize - 1) in
  let y := Clamp 1 (sz_y aDrillSize - adj) (sz_y aPadSize - 1) in
  Int32.in_range (ceiled aDrillShape aSmallDrill (sz_x aDrillSize) - adj) ->
  Int32.in_range (sz_x aPadSize - 1) ->
  (aDrillShape = PAD_DRILL_SHAPE_OBLONG ->
   Int32.in_range (sz_y aDrillSize - adj) /\ Int32.in_range (sz_y aPadSize - 1)) ->
  plotOneDrillMark this aDrillShape aDrillPos aDrillSize aPadSize aOrientation
                   aSmallDrill m_plotter
  = m_plotter ++
      [match aDrillShape with
       | PAD_DRILL_SHAPE_CIRCLE => FlashPadCircle aDrillPos x (PlotMode this) None
       | PAD_DRILL_SHAPE_OBLONG =>
           FlashPadOval aDrillPos (mkSize x y) aOrientation (PlotMode this) None
       end]
  /\ (2 <= sz_x aPadSize -> 1 <= x <= sz_x aPadSize - 1).
Proof.
  intros adj x y Hx Hpx Hy. split.
  - unfold plotOneDrillMark, emit, Int32.sub. subst x y adj.
    destruct aDrillShape; cbn [ceiled] in *.
    + destruct (aSmallDrill =? 0); cbn [negb];
        rewrite (wrap_in_range _ Hx), (wrap_in_range _ Hpx); reflexivity.
    + destruct (Hy eq_refl) as [Hy1 Hy2].
      rewrite (wrap_in_range _ Hx), (wrap_in_range _ Hpx),
              (wrap_in_range _ Hy1), (wrap_in_range _ Hy2). reflexivity.
  - intros Hpad. subst x. apply Clamp_bounds. lia.
Qed.

(** The example of C3: a circular drill of 40 under a small-drill
    ceiling of 25, a pad of 100 and a compensation of 5 is flashed with
    the diameter 20. *)
Lemma drill_mark_order_witness :
  plotOneDrillMark Samples.front_plotter PAD_DRILL_SHAPE_CIRCLE (mkPoint 7 9)
                   (mkSize 40 40) (mkSize 100 100) 0 25 []
  = [FlashPadCircle (mkPoint 7 9) 20 FILLED None].
Proof.
  pose proof (drill_mark_order Samples.front_plotter PAD_DRILL_SHAPE_CIRCLE
                (mkPoint 7 9) (mkSize 40 40) (mkSize 100 100) 0 25 []) as W.
  cbv zeta in W.
  destruct W as [W _];
    [vm_compute; split; discriminate | vm_compute; split; discriminate
    | discriminate | exact W].
Defined.

(** C4.  Aperture attribute of a through-hole pad.  When a standard
    (through-hole) pad is plotted on a layer set that holds a copper
    layer, the flash that [PlotPad] emits carries the component-pad
    attribute if the layer set holds an external copper layer and the pad
    is on a technical layer of the board, and the via-pad attribute
    otherwise (internal copper layers only, or a pad on no technical
    layer). *)
Theorem through_hole_pad_attribute (this : BRDITEMS_PLOTTER) (aPad : D_PAD)
    (aColor : COLOR4D) (aPlotMode : EDA_DRAW_MODE_T) (m_plotter : PLOTTER) :
  pad_Attribute aPad = PAD_ATTRIB_STANDARD ->
  lset_any_common (m_layerMask this) AllCuMask = true ->
  exists (flash : plot_call) (data : GBR_METADATA),
    PlotPad this aPad aColor aPlotMode m_plotter
    = m_plotter ++ [SetColor (not_white aColor); flash]
    /\ is_primitive flash = true
    /\ flash_metadata flash = Some data
    /\ m_ApertAttribute data =
         if lset_any_common (m_layerMask this) ExternalCuMask
            && lset_any_common (pad_LayerSet aPad) AllBoardTechMask
         then GBR_APERTURE_ATTRIB_COMPONENTPAD
         else GBR_APERTURE_ATTRIB_VIAPAD.
Proof.
  intros Hattr Hcu.
  assert (Hmd : m_ApertAttribute (pad_metadata this aPad) =
                if lset_any_common (m_layerMask this) ExternalCuMask
                   && lset_any_common (pad_LayerSet aPad) AllBoardTechMask
                then GBR_APERTURE_ATTRIB_COMPONENTPAD
                else GBR_APERTURE_ATTRIB_VIAPAD).
  { unfold pad_metadata. rewrite Hcu, Hattr. cbn [PAD_ATTR_T_eqb].
    destruct (lset_any_common (m_layerMask this) ExternalCuMask);
      destruct (lset_any_common (pad_LayerSet aPad) AllBoardTechMask);
      cbn; destruct (String.eqb (pad_PadName aPad) EmptyString); reflexivity. }
  unfold PlotPad, emit.
  destruct (pad_Shape aPad);
    eexists; exists (pad_metadata this aPad);
    rewrite <- app_assoc; (split; [reflexivity|]);
    (split; [reflexivity|]); (split; [reflexivity|]); exact Hmd.
Qed.

Lemma KiROUND_IZR (n : Z) : 0 <= n -> KiROUND (IZR n) = n.
Proof.
  intros Hn. apply IZR_le in Hn. unfold KiROUND.
  destruct (Rlt_dec (IZR n) 0) as [Hneg|_]; [lra|].
  unfold int_of_double.
  destruct (Rle_dec 0 (IZR n + / 2)) as [_|Hno]; [|exfalso; apply Hno; lra].
  symmetry. apply Int_part_spec. lra.
Qed.

(** The length of a horizontal offset [r >= 0], as [PlotDrawSegment]
    measures the radius of a circle from its centre and the point it
    passes through. *)
Lemma radius_of_horizontal_offset (x y r : Z) :
  0 <= r -> Int32.in_range r -> Int32.in_range (x + r) ->
  KiROUND (GetLineLength (mkPoint (Int32.add x r) y) (mkPoint x y)) = r.
Proof.
  intros Hr Hir Hxr. unfold GetLineLength, Int32.add, Int32.sub. cbn [pt_x pt_y].
  rewrite (wrap_in_range _ Hxr).
  replace (x + r - x) with r by lia. rewrite (wrap_in_range _ Hir).
  rewrite Z.sub_diag. change (Int32.wrap 0) with 0.
  rewrite Rsqr_0, Rplus_0_r, sqrt_Rsqr_abs, Rabs_right
    by (apply Rle_ge, IZR_le; exact Hr).
  apply KiROUND_IZR; exact Hr.
Qed.

Lemma PlotDrawSegment_mire_circle (this : BRDITEMS_PLOTTER) (aMire : PCB_TARGET)
    (r : Z) (p : PLOTTER) :
  lset_test (m_layerMask this) (mire_Layer aMire) = true ->
  0 <= r -> Int32.in_range (2 * r) -> Int32.in_range (pt_x (mire_Position aMire) + r) ->
  PlotDrawSegment this
    (mire_segment S_CIRCLE aMire (mire_Position aMire)
       (mkPoint (Int32.add (pt_x (mire_Position aMire)) r) (pt_y (mire_Position aMire)))) p
  = p ++ [SetColor (getColor this (mire_Layer aMire));
          ThickCircle (mire_Position aMire) (2 * r) (mire_Width aMire) (PlotMode this)
                      (Some (segment_metadata this (mire_Layer aMire)))].
Proof.
  intros Hvis Hr H2r Hxr.
  assert (Hir : Int32.in_range r).
  { revert H2r. unfold Int32.in_range, Int32.min_int, Int32.max_int. lia. }
  unfold PlotDrawSegment, mire_segment, emit. cbn [seg_Layer seg_Shape seg_Start seg_End seg_Width].
  rewrite Hvis. cbn [negb].
  destruct (mire_Position aMire) as [x y] eqn:Epos. cbn [pt_x pt_y] in *.
  rewrite (radius_of_horizontal_offset x y r Hr Hir Hxr).
  unfold Int32.mul. rewrite (Z.mul_comm r 2), (wrap_in_range _ H2r).
  rewrite <- app_assoc. reflexivity.
Qed.

Lemma PlotDrawSegment_mire_arm (this : BRDITEMS_PLOTTER) (aMire : PCB_TARGET)
    (a b : wxPoint) (p : PLOTTER) :
  lset_test (m_layerMask this) (mire_Layer aMire) = true ->
  PlotDrawSegment this (mire_segment S_SEGMENT aMire a b) p
  = p ++ [SetColor (getColor this (mire_Layer aMire));
          ThickSegment a b (mire_Width aMire) (PlotMode this)
                       (Some (segment_metadata this (mire_Layer aMire)))].
Proof.
  intros Hvis.
  unfold PlotDrawSegment, mire_segment, emit. cbn [seg_Layer seg_Shape seg_Start seg_End seg_Width].
  rewrite Hvis. cbn [negb]. rewrite <- app_assoc. reflexivity.
Qed.

(** C8.  Target (mire).  On a visible layer a target of size [size >= 0]
    is plotted as a circle of radius [size / 3] when the shape flag is
    unset and [size / 2] when it is set (the plotter receives the
    diameter, twice the radius), followed by two arms of half-length
    [size / 2] on each axis: horizontal and vertical when the flag is
    unset, the two diagonals when it is set.  The coordinates are assumed
    to stay within the range of [int]. *)
Theorem target_mire_decomposition (this : BRDITEMS_PLOTTER) (aMire : PCB_TARGET)
    (m_plotter : PLOTTER) :
  let size := mire_Size aMire in
  let x := pt_x (mire_Position aMire) in
  let y := pt_y (mire_Position aMire) in
  let cross := negb (mire_Shape aMire =? 0) in
  let radius := if cross then size ÷ 2 else size ÷ 3 in
  let half := size ÷ 2 in
  let color := SetColor (getColor this (mire_Layer aMire)) in
  let data := Some (segment_metadata this (mire_Layer aMire)) in
  let arm a b := ThickSegment a b (mire_Width aMire) (PlotMode this) data in
  lset_test (m_layerMask this) (mire_Layer aMire) = true ->
  0 <= size -> Int32.in_range size ->
  Int32.in_range (x - half) -> Int32.in_range (x + half) ->
  Int32.in_range (y - half) -> Int32.in_range (y + half) ->
  PlotPcbTarget this aMire m_plotter
  = m_plotter ++
      [color;
       color;
       ThickCircle (mire_Position aMire) (2 * radius) (mire_Width aMire)
                   (PlotMode this) data;
       color;
       (if cross then arm (mkPoint (x - half) (y - half)) (mkPoint (x + half) (y + half))
        else arm (mkPoint (x - half) y) (mkPoint (x + half) y));
       color;
       (if cross then arm (mkPoint (x - half) (y + half)) (mkPoint (x + half) (y - half))
        else arm (mkPoint x (y - half)) (mkPoint x (y + half)))].
Proof.
  intros size x y cross radius half color data arm Hvis Hsize Hrange Hx1 Hx2 Hy1 Hy2.
  assert (Hhalf : 0 <= half <= size).
  { subst half. split; [apply Z.quot_pos; lia|].
    apply Z.quot_le_upper_bound; lia. }
  assert (Hthird : 0 <= size ÷ 3 <= half).
  { subst half. split; [apply Z.quot_pos; lia|].
    rewrite !Z.quot_div_nonneg by lia.
    apply Z.div_le_lower_bound; [lia|].
    pose proof (Z.mul_div_le size 3 ltac:(lia)). 
    pose proof (Z.mul_div_le size 2 ltac:(lia)).
    pose proof (Z.mod_pos_bound size 3 ltac:(lia)).
    pose proof (Z.div_mod size 3 ltac:(lia)).
    lia. }
  assert (H2half : 2 * half <= size).
  { subst half. rewrite Z.quot_div_nonneg by lia. apply Z.mul_div_le. lia. }
  unfold Int32.in_range, Int32.min_int, Int32.max_int in Hrange, Hx1, Hx2, Hy1, Hy2.
  assert (Hwrap : forall z, - 2 ^ 31 <= z <= 2 ^ 31 - 1 -> Int32.wrap z = z).
  { intros z Hz. apply wrap_in_range. exact Hz. }
  assert (Hradius : 0 <= radius <= half).
  { subst radius. destruct cross; lia. }
  unfold PlotPcbTarget. rewrite Hvis. cbn [negb].
  fold cross. unfold Int32.div.
  rewrite (Hwrap (mire_Size aMire ÷ 3)) by (fold size; lia).
  rewrite (Hwrap (mire_Size aMire ÷ 2)) by (fold size half; lia).
  fold size half x y.
  replace (if cross then half else size ÷ 3) with radius
    by (subst radius; destruct cross; reflexivity).
  unfold emit.
  rewrite PlotDrawSegment_mire_circle;
    [ | exact Hvis | lia
      | unfold Int32.in_range, Int32.min_int, Int32.max_int; lia
      | unfold Int32.in_range, Int32.min_int, Int32.max_int; fold x; lia ].
  destruct cross; cbv iota beta.
  - rewrite !PlotDrawSegment_mire_arm by exact Hvis.
    unfold Int32.add, Int32.sub, Int32.neg.
    rewrite (Hwrap (- half)) by lia.
    rewrite !Hwrap by lia.
    replace (y - - half) with (y + half) by lia.
    replace (y + - half) with (y - half) by lia.
    rewrite <- !app_assoc. reflexivity.
  - rewrite !PlotDrawSegment_mire_arm by exact Hvis.
    unfold Int32.add, Int32.sub.
    rewrite !Z.sub_0_r, !Z.add_0_r.
    rewrite !Hwrap by lia.
    rewrite <- !app_assoc. reflexivity.
Qed.

(** C9, as amended.  A footprint polygon with one corner or none is
    skipped without a primitive call: [Plot_1_EdgeModule] has by then
    selected the colour of the layer of the edge, and that [SetColor] is
    all the plotter receives.  A line chain with fewer than two points
    leaves the Cairo drawing state as it was. *)
Theorem degenerate_polygon_skipped (this : BRDITEMS_PLOTTER) (aEdge : EDGE_MODULE)
    (m_plotter : PLOTTER) (aLineChain : Gal.SHAPE_LINE_CHAIN) (s : Gal.CAIRO_GAL) :
  edge_IsModuleEdge aEdge = true ->
  edge_Shape aEdge = S_POLYGON ->
  (length (edge_PolyPoints aEdge) <= 1)%nat ->
  (Gal.PointCount aLineChain <= 1)%nat ->
  Plot_1_EdgeModule this aEdge m_plotter
  = m_plotter ++ [SetColor (getColor this (edge_Layer aEdge))]
  /\ List.filter is_primitive (Plot_1_EdgeModule this aEdge m_plotter)
     = List.filter is_primitive m_plotter
  /\ Gal.drawPoly aLineChain s = s.
Proof.
  intros Htype Hshape Hlen Hcount.
  assert (E : Plot_1_EdgeModule this aEdge m_plotter
              = m_plotter ++ [SetColor (getColor this (edge_Layer aEdge))]).
  { unfold Plot_1_EdgeModule, emit. rewrite Htype, Hshape. cbn [negb].
    destruct (length (edge_PolyPoints aEdge) <=? 1)%nat eqn:E; [reflexivity|].
    apply Nat.leb_gt in E. lia. }
  split; [exact E|]. split.
  - rewrite E, List.filter_app. cbn. apply app_nil_r.
  - unfold Gal.drawPoly.
    destruct (Gal.PointCount aLineChain <? 2)%nat eqn:E2; [reflexivity|].
    apply Nat.ltb_ge in E2. lia.
Qed.

(** C10.  A PCB text whose shown text is empty is not plotted: whatever
    its layer, [PlotTextePcb] returns with the plotter as it was, no
    colour set and nothing emitted. *)
Theorem empty_text_not_plotted (this : BRDITEMS_PLOTTER) (pt_texte : TEXTE_PCB)
    (m_plotter : PLOTTER) :
  txt_ShownText pt_texte = EmptyString ->
  PlotTextePcb this pt_texte m_plotter = m_plotter.
Proof.
  intros Hempty. unfold PlotTextePcb. rewrite Hempty. reflexivity.
Qed.

(** ** Further properties *)

Context `{LayerDecls}.

(** *** Plot functions only append *)

Lemma appends_id : appends (fun p => p).
Proof. intros p. symmetry. apply app_nil_r. Qed.

Lemma appends_emit (c : plot_call) : appends (emit c).
Proof. intros p. reflexivity. Qed.

Lemma appends_compose (f g : PLOTTER -> PLOTTER) :
  appends f -> appends g -> appends (fun p => g (f p)).
Proof.
  intros Hf Hg p. rewrite (Hg (f p)), (Hf p), (Hg (f [])).
  rewrite <- app_assoc. reflexivity.
Qed.

Lemma appends_fold_left {A : Type} (f : A -> PLOTTER -> PLOTTER) (l : list A) :
  (forall a, appends (f a)) -> appends (fun p => fold_left (fun p a => f a p) l p).
Proof.
  intros Hf. induction l as [|a l IH]; [apply appends_id|].
  cbn [fold_left].
  apply (appends_compose (f a) (fun p => fold_left (fun p a => f a p) l p));
    [apply Hf | exact IH].
Qed.

Lemma thick_chain_segments (points : list wxPoint) (width : Z) (mode : EDA_DRAW_MODE_T)
    (data : option GBR_METADATA) (p : PLOTTER) :
  thick_chain points width mode data p
  = p ++ map (fun ab => ThickSegment (fst ab) (snd ab) width mode data)
             (chain_segments points).
Proof.
  revert p. induction points as [|a rest IH]; intros p.
  - cbn. symmetry. apply app_nil_r.
  - destruct rest as [|b rest'].
    + cbn. symmetry. apply app_nil_r.
    + change (thick_chain (a :: b :: rest') width mode data p)
        with (thick_chain (b :: rest') width mode data
                (emit (ThickSegment a b width mode data) p)).
      rewrite IH. unfold emit, chain_segments. cbn [tl combine map fst snd].
      rewrite <- app_assoc. reflexivity.
Qed.

Lemma appends_thick_chain (points : list wxPoint) (width : Z) (mode : EDA_DRAW_MODE_T)
    (data : option GBR_METADATA) :
  appends (thick_chain points width mode data).
Proof.
  intros p. rewrite !thick_chain_segments. reflexivity.
Qed.

Lemma appends_PlotDrawSegment (this : BRDITEMS_PLOTTER) (aSeg : DRAWSEGMENT) :
  appends (PlotDrawSegment this aSeg).
Proof.
  intros p. unfold PlotDrawSegment.
  destruct (negb (lset_test (m_layerMask this) (seg_Layer aSeg)));
    [symmetry; apply app_nil_r|].
  destruct (seg_Shape aSeg); unfold emit;
    rewrite ?thick_chain_segments, <- ?app_assoc; reflexivity.
Qed.

Lemma plot_text_lines_app (ii : nat) (strings_list : list string)
    (positions : list wxPoint) (put : wxPoint -> string -> plot_call) (p : PLOTTER) :
  plot_text_lines ii strings_list positions put p
  = p ++ plot_text_lines ii strings_list positions put [].
Proof.
  revert ii p. induction strings_list as [|txt rest IH]; intros ii p.
  - cbn. symmetry. apply app_nil_r.
  - cbn [plot_text_lines]. rewrite IH.
    rewrite (IH (S ii) (emit _ [])). unfold emit.
    rewrite <- !app_assoc. reflexivity.
Qed.

Lemma appends_PlotTextePcb (this : BRDITEMS_PLOTTER) (pt_texte : TEXTE_PCB) :
  appends (PlotTextePcb this pt_texte).
Proof.
  intros p. unfold PlotTextePcb.
  destruct (String.eqb (txt_ShownText pt_texte) EmptyString);
    [symmetry; apply app_nil_r|].
  destruct (negb (lset_test (m_layerMask this) (txt_Layer pt_texte)));
    [symmetry; apply app_nil_r|].
  cbv zeta.
  destruct (txt_MultilineAllowed pt_texte).
  - rewrite plot_text_lines_app.
    rewrite (plot_text_lines_app _ _ _ _ (emit _ [])).
    unfold emit. rewrite <- !app_assoc. reflexivity.
  - unfold emit. rewrite <- !app_assoc. reflexivity.
Qed.

Lemma appends_PlotPcbTarget (this : BRDITEMS_PLOTTER) (aMire : PCB_TARGET) :
  appends (PlotPcbTarget this aMire).
Proof.
  intros p. unfold PlotPcbTarget.
  destruct (negb (lset_test (m_layerMask this) (mire_Layer aMire)));
    [symmetry; apply app_nil_r|].
  cbv zeta.
  destruct (negb (mire_Shape aMire =? 0)); cbv iota beta;
    repeat match goal with
           | |- context [PlotDrawSegment this ?seg (?q ++ ?r)] => fail 1
           | |- context [PlotDrawSegment this ?seg ?q] =>
               lazymatch q with
               | [] => fail
               | _ => rewrite (appends_PlotDrawSegment this seg q)
               end
           end;
    unfold emit; rewrite <- ?app_assoc; reflexivity.
Qed.

(** X1.  The graphic items of the board that are on layers outside the
    layer mask leave the plotter as it was: [PlotBoardGraphicItems] hands
    every segment, text, dimension and target to its plot function, each
    of which returns at once for a layer that is not plotted; markers and
    other items are skipped. *)
Theorem hidden_graphic_items_not_plotted (this : BRDITEMS_PLOTTER)
    (m_Drawings : list BOARD_ITEM) (m_plotter : PLOTTER) :
  Forall (fun item => forall l : LAYER_NUM,
            item_layer item = Some l -> lset_test (m_layerMask this) l = false)
         m_Drawings ->
  PlotBoardGraphicItems this m_Drawings m_plotter = m_plotter.
Proof.
  intros Hall. unfold PlotBoardGraphicItems.
  induction Hall as [|item rest Hitem _ IH]; [reflexivity|].
  cbn [fold_left].
  destruct item as [seg|txt|dim|mire| |]; cbn [item_layer] in Hitem;
    try exact IH.
  - unfold PlotDrawSegment at 2. rewrite (Hitem _ eq_refl). exact IH.
  - unfold PlotTextePcb at 2. rewrite (Hitem _ eq_refl).
    destruct (String.eqb (txt_ShownText txt) EmptyString); exact IH.
  - unfold PlotDimension at 2. rewrite (Hitem _ eq_refl). exact IH.
  - unfold PlotPcbTarget at 2. rewrite (Hitem _ eq_refl). exact IH.
Qed.

Lemma segment_on_visible_layer (this : BRDITEMS_PLOTTER) (aSeg : DRAWSEGMENT)
    (p : PLOTTER) :
  lset_test (m_layerMask this) (seg_Layer aSeg) = true ->
  seg_Shape aSeg = S_SEGMENT ->
  PlotDrawSegment this aSeg p
  = p ++ [SetColor (getColor this (seg_Layer aSeg));
          ThickSegment (seg_Start aSeg) (seg_End aSeg) (seg_Width aSeg) (PlotMode this)
                       (Some (segment_metadata this (seg_Layer aSeg)))].
Proof.
  intros Hvis Hshape. unfold PlotDrawSegment, emit, segment_metadata.
  rewrite Hvis, Hshape. cbn [negb]. rewrite <- app_assoc. reflexivity.
Qed.

(** X2.  A dimension on a plotted layer is plotted as the colour of its
    layer on the board (light gray for white), its text, and seven thick
    segments of the width of the dimension, each after the colour of the
    layer: the cross bar, the two feature lines, the two arrow legs at the
    end of the cross bar and the two at its origin.  On a layer that is
    not plotted nothing is done. *)
Theorem dimension_decomposition (this : BRDITEMS_PLOTTER) (aDim : DIMENSION)
    (m_plotter : PLOTTER) :
  let color := SetColor (getColor this (dim_Layer aDim)) in
  let line a b := ThickSegment a b (dim_Width aDim) (PlotMode this)
                    (Some (segment_metadata this (dim_Layer aDim))) in
  PlotDimension this aDim m_plotter
  = if lset_test (m_layerMask this) (dim_Layer aDim)
    then m_plotter
         ++ [SetColor (not_white (dim_BoardLayerColor aDim))]
         ++ PlotTextePcb this (dim_Text aDim) []
         ++ [color; line (m_crossBarO aDim) (m_crossBarF aDim);
             color; line (m_featureLineGO aDim) (m_featureLineGF aDim);
             color; line (m_featureLineDO aDim) (m_featureLineDF aDim);
             color; line (m_crossBarF aDim) (m_arrowD1F aDim);
             color; line (m_crossBarF aDim) (m_arrowD2F aDim);
             color; line (m_crossBarO aDim) (m_arrowG1F aDim);
             color; line (m_crossBarO aDim) (m_arrowG2F aDim)]
    else m_plotter.
Proof.
  intros color line. unfold PlotDimension.
  destruct (lset_test (m_layerMask this) (dim_Layer aDim)) eqn:Hvis;
    cbn [negb]; [|reflexivity].
  cbv zeta.
  rewrite !segment_on_visible_layer by (try exact Hvis; reflexivity).
  rewrite (appends_PlotTextePcb this (dim_Text aDim) (emit _ m_plotter)).
  unfold emit, dimension_segment.
  cbn [seg_Layer seg_Start seg_End seg_Width].
  rewrite <- !app_assoc. reflexivity.
Qed.

Lemma COLOR4D_eqb_true (c d : COLOR4D) : COLOR4D_eqb c d = true <-> c = d.
Proof.
  unfold COLOR4D_eqb. destruct (COLOR4D_eq_dec c d); split; congruence.
Qed.

Lemma no_white_emit (c : plot_call) (p : PLOTTER) :
  selected_color c <> Some COLOR4D_WHITE -> no_white p -> no_white (emit c p).
Proof.
  intros Hc Hp. unfold no_white, emit. apply Forall_app. split; [exact Hp|].
  constructor; [exact Hc | constructor].
Qed.

Lemma no_white_primitive (c : plot_call) (p : PLOTTER) :
  selected_color c = None -> no_white p -> no_white (emit c p).
Proof. intros Hc. apply no_white_emit. rewrite Hc. discriminate. Qed.

Lemma getColor_not_white (this : BRDITEMS_PLOTTER) (l : LAYER_NUM) :
  COLOR4D_of LIGHTGRAY <> COLOR4D_WHITE ->
  selected_color (SetColor (getColor this l)) <> Some COLOR4D_WHITE.
Proof.
  intros Hgray. unfold getColor. cbn [selected_color].
  destruct (COLOR4D_eqb (LayerColor this l) COLOR4D_WHITE) eqn:E.
  - congruence.
  - intros [= E2]. apply COLOR4D_eqb_true in E2. congruence.
Qed.

Lemma not_white_not_white (c : COLOR4D) :
  COLOR4D_of WHITE = COLOR4D_WHITE -> COLOR4D_of LIGHTGRAY <> COLOR4D_WHITE ->
  selected_color (SetColor (not_white c)) <> Some COLOR4D_WHITE.
Proof.
  intros Hwhite Hgray. unfold not_white. cbn [selected_color]. rewrite Hwhite.
  destruct (COLOR4D_eqb c COLOR4D_WHITE) eqn:E; cbn [negb].
  - congruence.
  - intros [= E2]. apply COLOR4D_eqb_true in E2. congruence.
Qed.

Lemma no_white_thick_chain (points : list wxPoint) (width : Z) (mode : EDA_DRAW_MODE_T)
    (data : option GBR_METADATA) (p : PLOTTER) :
  no_white p -> no_white (thick_chain points width mode data p).
Proof.
  intros Hp. rewrite thick_chain_segments. apply Forall_app. split; [exact Hp|].
  apply Forall_map. apply Forall_forall. intros ab _. cbn. discriminate.
Qed.

Lemma no_white_PlotDrawSegment (this : BRDITEMS_PLOTTER) (aSeg : DRAWSEGMENT)
    (p : PLOTTER) :
  COLOR4D_of LIGHTGRAY <> COLOR4D_WHITE ->
  no_white p -> no_white (PlotDrawSegment this aSeg p).
Proof.
  intros Hgray Hp. unfold PlotDrawSegment.
  destruct (negb (lset_test (m_layerMask this) (seg_Layer aSeg))); [exact Hp|].
  pose proof (no_white_emit _ p (getColor_not_white this (seg_Layer aSeg) Hgray) Hp) as Hc.
  destruct (seg_Shape aSeg); cbv zeta;
    first [ apply no_white_primitive; [reflexivity | exact Hc]
          | apply no_white_thick_chain, no_white_primitive; [reflexivity | exact Hc] ].
Qed.

Lemma no_white_plot_text_lines (ii : nat) (strings_list : list string)
    (positions : list wxPoint) (put : wxPoint -> string -> plot_call) (p : PLOTTER) :
  (forall a b, selected_color (put a b) = None) ->
  no_white p -> no_white (plot_text_lines ii strings_list positions put p).
Proof.
  intros Hput. revert ii p. induction strings_list as [|txt rest IH]; intros ii p Hp.
  - exact Hp.
  - cbn [plot_text_lines]. apply IH. apply no_white_primitive; [apply Hput | exact Hp].
Qed.

Lemma no_white_PlotTextePcb (this : BRDITEMS_PLOTTER) (pt_texte : TEXTE_PCB)
    (p : PLOTTER) :
  COLOR4D_of LIGHTGRAY <> COLOR4D_WHITE ->
  no_white p -> no_white (PlotTextePcb this pt_texte p).
Proof.
  intros Hgray Hp. unfold PlotTextePcb.
  destruct (String.eqb (txt_ShownText pt_texte) EmptyString); [exact Hp|].
  destruct (negb (lset_test (m_layerMask this) (txt_Layer pt_texte))); [exact Hp|].
  pose proof (no_white_emit _ p (getColor_not_white this (txt_Layer pt_texte) Hgray) Hp)
    as Hc.
  cbv zeta. destruct (txt_MultilineAllowed pt_texte).
  - apply no_white_plot_text_lines; [reflexivity | exact Hc].
  - apply no_white_primitive; [reflexivity | exact Hc].
Qed.

Lemma no_white_PlotPcbTarget (this : BRDITEMS_PLOTTER) (aMire : PCB_TARGET)
    (p : PLOTTER) :
  COLOR4D_of LIGHTGRAY <> COLOR4D_WHITE ->
  no_white p -> no_white (PlotPcbTarget this aMire p).
Proof.
  intros Hgray Hp. unfold PlotPcbTarget.
  destruct (negb (lset_test (m_layerMask this) (mire_Layer aMire))); [exact Hp|].
  cbv zeta.
  assert (Hc : no_white (emit (SetColor (getColor this (mire_Layer aMire))) p))
    by (apply no_white_emit; [apply getColor_not_white; exact Hgray | exact Hp]).
  destruct (negb (mire_Shape aMire =? 0)); cbv iota beta;
    repeat (apply no_white_PlotDrawSegment; [exact Hgray|]); exact Hc.
Qed.

Lemma no_white_PlotDimension (this : BRDITEMS_PLOTTER) (aDim : DIMENSION)
    (p : PLOTTER) :
  COLOR4D_of WHITE = COLOR4D_WHITE -> COLOR4D_of LIGHTGRAY <> COLOR4D_WHITE ->
  no_white p -> no_white (PlotDimension this aDim p).
Proof.
  intros Hwhite Hgray Hp. unfold PlotDimension.
  destruct (negb (lset_test (m_layerMask this) (dim_Layer aDim))); [exact Hp|].
  cbv zeta.
  repeat (apply no_white_PlotDrawSegment; [exact Hgray|]).
  apply no_white_PlotTextePcb; [exact Hgray|].
  apply no_white_emit; [apply not_white_not_white; assumption | exact Hp].
Qed.

Lemma no_white_PlotTextModule (pt_texte : TEXTE_MODULE) (aColor : COLOR4D)
    (p : PLOTTER) :
  COLOR4D_of LIGHTGRAY <> COLOR4D_WHITE ->
  no_white p -> no_white (PlotTextModule pt_texte aColor p).
Proof.
  intros Hgray Hp. unfold PlotTextModule.
  apply no_white_primitive; [reflexivity|].
  apply no_white_emit; [|exact Hp]. cbn [selected_color].
  destruct (COLOR4D_eqb aColor COLOR4D_WHITE) eqn:E.
  - congruence.
  - intros [= E2]. apply COLOR4D_eqb_true in E2. congruence.
Qed.

Lemma no_white_plot_item_texts (this : BRDITEMS_PLOTTER) (items : list MODULE_ITEM)
    (p : PLOTTER) :
  COLOR4D_of LIGHTGRAY <> COLOR4D_WHITE ->
  no_white p -> no_white (snd (plot_item_texts this items p)).
Proof.
  intros Hgray. revert p. induction items as [|item rest IH]; intros p Hp.
  - exact Hp.
  - cbn [plot_item_texts]. destruct (as_text item) as [t|]; [|apply IH, Hp].
    destruct (negb (tm_Visible t)); [apply IH, Hp|].
    destruct (LAYER_ID_COUNT <=? tm_Layer t); [exact Hp|].
    destruct (negb (lset_test (m_layerMask this) (tm_Layer t))); [apply IH, Hp|].
    apply IH. apply no_white_PlotTextModule; assumption.
Qed.

Lemma no_white_Plot_1_EdgeModule (this : BRDITEMS_PLOTTER) (aEdge : EDGE_MODULE)
    (p : PLOTTER) :
  COLOR4D_of LIGHTGRAY <> COLOR4D_WHITE ->
  no_white p -> no_white (Plot_1_EdgeModule this aEdge p).
Proof.
  intros Hgray Hp. unfold Plot_1_EdgeModule.
  destruct (negb (edge_IsModuleEdge aEdge)); [exact Hp|].
  pose proof (no_white_emit _ p (getColor_not_white this (edge_Layer aEdge) Hgray) Hp)
    as Hc.
  cbv zeta. destruct (edge_Shape aEdge);
    try (apply no_white_primitive; [reflexivity | exact Hc]); try exact Hc.
  destruct (length (edge_PolyPoints aEdge) <=? 1)%nat; [exact Hc|].
  apply no_white_primitive; [reflexivity | exact Hc].
Qed.

Lemma no_white_plot_contour (this : BRDITEMS_PLOTTER) (aZone : ZONE_CONTAINER)
    (cornerList : list wxPoint) (p : PLOTTER) :
  no_white p -> no_white (plot_contour this aZone cornerList p).
Proof.
  intros Hp. unfold plot_contour.
  destruct (PlotMode this).
  - destruct (zone_FillMode aZone =? 0).
    + apply no_white_primitive; [reflexivity | exact Hp].
    + assert (Hsegs : forall l q, no_white q ->
                no_white (fold_left
                  (fun p seg => emit (ThickSegment (fst seg) (snd seg)
                     (zone_MinThickness aZone) FILLED (Some (zone_metadata aZone))) p)
                  l q)).
      { induction l as [|seg l IH]; intros q Hq; [exact Hq|].
        cbn [fold_left]. apply IH. apply no_white_primitive; [reflexivity | exact Hq]. }
      cbv zeta. destruct (0 <? zone_MinThickness aZone).
      * apply no_white_primitive; [reflexivity|]. apply Hsegs, Hp.
      * apply Hsegs, Hp.
  - cbv zeta. apply no_white_primitive; [reflexivity|].
    destruct (0 <? zone_MinThickness aZone); [|exact Hp].
    apply no_white_thick_chain, Hp.
Qed.

Lemma no_white_plot_corners (this : BRDITEMS_PLOTTER) (aZone : ZONE_CONTAINER)
    (corners : list (wxPoint * bool)) (cornerList : list wxPoint) (p : PLOTTER) :
  no_white p -> no_white (plot_corners this aZone corners cornerList p).
Proof.
  revert cornerList p. induction corners as [|[pos e] rest IH]; intros cornerList p Hp.
  - exact Hp.
  - cbn [plot_corners]. destruct e.
    + apply IH, no_white_plot_contour, Hp.
    + apply IH, Hp.
Qed.

(** X3.  Apart from the drill marks, no plot function selects white: when
    the colour table has white where [COLOR4D::WHITE] is and light gray
    elsewhere, every [SetColor] that the graphic items of the board, the
    outlines and the texts of the footprints, the zones and the pads add
    to the plotter has a colour other than white. *)
Theorem white_is_never_selected (this : BRDITEMS_PLOTTER) (params : PCB_PLOT_PARAMS)
    (m_plotter : PLOTTER) :
  COLOR4D_of WHITE = COLOR4D_WHITE ->
  COLOR4D_of LIGHTGRAY <> COLOR4D_WHITE ->
  no_white m_plotter ->
  (forall m_Drawings : list BOARD_ITEM,
      no_white (PlotBoardGraphicItems this m_Drawings m_plotter))
  /\ (forall m_Modules : list MODULE_FIELDS,
        no_white (Plot_Edges_Modules this m_Modules m_plotter))
  /\ (forall aModule : MODULE_FIELDS,
        no_white (snd (PlotAllTextsModule this params aModule m_plotter)))
  /\ (forall aZone : ZONE_CONTAINER,
        no_white (PlotFilledAreas this aZone m_plotter))
  /\ (forall (aPad : D_PAD) (aColor : COLOR4D) (aPlotMode : EDA_DRAW_MODE_T),
        no_white (PlotPad this aPad aColor aPlotMode m_plotter)).
Proof.
  intros Hwhite Hgray Hp. repeat split.
  - intros items. unfold PlotBoardGraphicItems. revert m_plotter Hp.
    induction items as [|item rest IH]; intros p Hp; [exact Hp|].
    cbn [fold_left]. apply IH.
    destruct item as [seg|txt|dim|mire| |]; try exact Hp.
    + apply no_white_PlotDrawSegment; assumption.
    + apply no_white_PlotTextePcb; assumption.
    + apply no_white_PlotDimension; assumption.
    + apply no_white_PlotPcbTarget; assumption.
  - intros modules. unfold Plot_Edges_Modules. revert m_plotter Hp.
    induction modules as [|m rest IH]; intros p Hp; [exact Hp|].
    cbn [fold_left]. apply IH.
    generalize (mod_GraphicalItems m). intros items. revert p Hp.
    induction items as [|item items IHi]; intros p Hp; [exact Hp|].
    cbn [fold_left]. apply IHi.
    destruct (as_edge item) as [e|]; [|exact Hp].
    destruct (lset_test (m_layerMask this) (edge_Layer e)); [|exact Hp].
    apply no_white_Plot_1_EdgeModule; assumption.
  - intros aModule. unfold PlotAllTextsModule.
    destruct (LAYER_ID_COUNT <=? tm_Layer (mod_Reference aModule)); [exact Hp|].
    destruct (LAYER_ID_COUNT <? tm_Layer (mod_Value aModule)); [exact Hp|].
    cbv zeta. apply no_white_plot_item_texts; [exact Hgray|].
    repeat match goal with
           | |- no_white (if ?b then _ else _) => destruct b
           | |- no_white (PlotTextModule _ _ _) =>
               apply no_white_PlotTextModule; [exact Hgray|]
           end; exact Hp.
  - intros aZone. unfold PlotFilledAreas.
    destruct (zone_PolysIsEmpty aZone); [exact Hp|].
    apply no_white_plot_corners.
    apply no_white_emit; [apply getColor_not_white; exact Hgray | exact Hp].
  - intros aPad aColor aPlotMode. unfold PlotPad. cbv zeta.
    assert (Hc : no_white (emit (SetColor (not_white aColor)) m_plotter))
      by (apply no_white_emit; [apply not_white_not_white; assumption | exact Hp]).
    destruct (pad_Shape aPad); apply no_white_primitive; first [reflexivity | exact Hc].
Qed.



(** Every pad is flashed once, after the colour, with the metadata built for it. *)
Lemma PlotPad_flash (this : BRDITEMS_PLOTTER) (aPad : D_PAD) (aColor : COLOR4D)
    (aPlotMode : EDA_DRAW_MODE_T) (p : PLOTTER) :
  exists flash : plot_call,
    PlotPad this aPad aColor aPlotMode p = p ++ [SetColor (not_white aColor); flash]
    /\ is_primitive flash = true
    /\ flash_metadata flash = Some (pad_metadata this aPad).
Proof.
  unfold PlotPad, emit. destruct (pad_Shape aPad); eexists;
    rewrite <- app_assoc; repeat split.
Qed.

(** X5.  A pad with a hole that is not plated, plotted on copper, always
    carries the washer-pad aperture attribute and is marked as not in a
    net, whatever its layers and its name. *)
Theorem washer_pad_attribute (this : BRDITEMS_PLOTTER) (aPad : D_PAD)
    (aColor : COLOR4D) (aPlotMode : EDA_DRAW_MODE_T) (m_plotter : PLOTTER) :
  pad_Attribute aPad = PAD_ATTRIB_HOLE_NOT_PLATED ->
  lset_any_common (m_layerMask this) AllCuMask = true ->
  exists (flash : plot_call) (data : GBR_METADATA),
    PlotPad this aPad aColor aPlotMode m_plotter
    = m_plotter ++ [SetColor (not_white aColor); flash]
    /\ flash_metadata flash = Some data
    /\ m_ApertAttribute data = GBR_APERTURE_ATTRIB_WASHERPAD
    /\ m_NotInNet data = true.
Proof.
  intros Hattr Hcu.
  destruct (PlotPad_flash this aPad aColor aPlotMode m_plotter) as (flash & E & _ & Hm).
  exists flash, (pad_metadata this aPad). split; [exact E|]. split; [exact Hm|].
  unfold pad_metadata. rewrite Hcu, Hattr. cbn [PAD_ATTR_T_eqb orb].
  destruct (lset_any_common (m_layerMask this) ExternalCuMask);
    destruct (lset_any_common (pad_LayerSet aPad) AllBoardTechMask); cbn; auto.
Qed.

(** X7.  What identifies a pad in the metadata of its flash: the
    reference of its footprint always, the net name only when copper is
    plotted, the pad name only when external copper is plotted.  The pad
    is marked as not in a net exactly when copper is plotted and the pad
    has no name or a hole that is not plated.  Off copper the net
    attribute is the component one and no aperture attribute is set. *)
Theorem pad_identification (this : BRDITEMS_PLOTTER) (aPad : D_PAD)
    (aColor : COLOR4D) (aPlotMode : EDA_DRAW_MODE_T) (m_plotter : PLOTTER) :
  let copper := lset_any_common (m_layerMask this) AllCuMask in
  let external := lset_any_common (m_layerMask this) ExternalCuMask in
  exists (flash : plot_call) (data : GBR_METADATA),
    PlotPad this aPad aColor aPlotMode m_plotter
    = m_plotter ++ [SetColor (not_white aColor); flash]
    /\ flash_metadata flash = Some data
    /\ m_Cmpref data = pad_ParentReference aPad
    /\ m_Netname data = (if copper then pad_Netname aPad else EmptyString)
    /\ m_Padname data = (if copper && external then pad_PadName aPad else EmptyString)
    /\ m_NotInNet data
       = copper && (PAD_ATTR_T_eqb (pad_Attribute aPad) PAD_ATTRIB_HOLE_NOT_PLATED
                    || String.eqb (pad_PadName aPad) EmptyString)
    /\ (copper = false ->
        m_NetAttribType data = GBR_NETINFO_CMP
        /\ m_ApertAttribute data = GBR_APERTURE_ATTRIB_NONE).
Proof.
  intros copper external.
  destruct (PlotPad_flash this aPad aColor aPlotMode m_plotter) as (flash & E & _ & Hm).
  exists flash, (pad_metadata this aPad). split; [exact E|]. split; [exact Hm|].
  unfold pad_metadata. fold copper external.
  destruct copper; [|cbn; repeat split; auto].
  destruct external;
    destruct (lset_any_common (pad_LayerSet aPad) AllBoardTechMask);
    destruct (pad_Attribute aPad); destruct (pad_Shape aPad);
    destruct (String.eqb (pad_PadName aPad) EmptyString);
    cbn; repeat split; intros; discriminate.
Qed.

(** X6.  Aperture attribute of a surface-mount or connector pad plotted
    on copper: conductor when the pad is on no technical layer; none when
    it is on one but no external copper is plotted; otherwise connector
    pad for a connector, BGA pad for a round surface-mount pad and SMD pad
    for the other shapes. *)
Theorem surface_pad_attribute (this : BRDITEMS_PLOTTER) (aPad : D_PAD)
    (aColor : COLOR4D) (aPlotMode : EDA_DRAW_MODE_T) (m_plotter : PLOTTER) :
  pad_Attribute aPad = PAD_ATTRIB_SMD \/ pad_Attribute aPad = PAD_ATTRIB_CONN ->
  lset_any_common (m_layerMask this) AllCuMask = true ->
  exists (flash : plot_call) (data : GBR_METADATA),
    PlotPad this aPad aColor aPlotMode m_plotter
    = m_plotter ++ [SetColor (not_white aColor); flash]
    /\ flash_metadata flash = Some data
    /\ m_ApertAttribute data
       = if negb (lset_any_common (pad_LayerSet aPad) AllBoardTechMask)
         then GBR_APERTURE_ATTRIB_CONDUCTOR
         else if negb (lset_any_common (m_layerMask this) ExternalCuMask)
         then GBR_APERTURE_ATTRIB_NONE
         else match pad_Attribute aPad, pad_Shape aPad with
              | PAD_ATTRIB_CONN, _ => GBR_APERTURE_ATTRIB_CONNECTORPAD
              | _, PAD_SHAPE_CIRCLE => GBR_APERTURE_ATTRIB_BGAPAD_CUDEF
              | _, _ => GBR_APERTURE_ATTRIB_SMDPAD_CUDEF
              end.
Proof.
  intros Hattr Hcu.
  destruct (PlotPad_flash this aPad aColor aPlotMode m_plotter) as (flash & E & _ & Hm).
  exists flash, (pad_metadata this aPad). split; [exact E|]. split; [exact Hm|].
  unfold pad_metadata. rewrite Hcu.
  destruct (lset_any_common (m_layerMask this) ExternalCuMask);
    destruct (lset_any_common (pad_LayerSet aPad) AllBoardTechMask);
    destruct Hattr as [-> | ->]; destruct (pad_Shape aPad);
    destruct (String.eqb (pad_PadName aPad) EmptyString); reflexivity.
Qed.

Lemma wxPoint_eqb_eq (a b : wxPoint) : wxPoint_eqb a b = true <-> a = b.
Proof.
  unfold wxPoint_eqb. destruct a as [ax ay], b as [bx b_y]. cbn.
  rewrite andb_true_iff, !Z.eqb_eq. split; [intros [-> ->]; reflexivity|].
  intros [= -> ->]. auto.
Qed.

Lemma close_outline_closed (cornerList : list wxPoint) :
  cornerList <> [] -> closed (close_outline cornerList).
Proof.
  intros Hne. unfold close_outline, closed.
  destruct (wxPoint_eqb (hd (mkPoint 0 0) cornerList)
                        (List.last cornerList (mkPoint 0 0))) eqn:E; cbn [negb].
  - split; [exact Hne|]. apply wxPoint_eqb_eq. exact E.
  - split; [destruct cornerList; discriminate|].
    rewrite last_last. destruct cornerList; [contradiction | reflexivity].
Qed.

Lemma polygons_closed_emit (c : plot_call) (p : PLOTTER) :
  (forall corners, polygon_corners c = Some corners -> closed corners) ->
  polygons_closed p -> polygons_closed (emit c p).
Proof.
  intros Hc Hp. unfold polygons_closed, emit. apply Forall_app. split; [exact Hp|].
  constructor; [exact Hc | constructor].
Qed.

Lemma polygons_closed_other (c : plot_call) (p : PLOTTER) :
  polygon_corners c = None -> polygons_closed p -> polygons_closed (emit c p).
Proof. intros Hc. apply polygons_closed_emit. rewrite Hc. discriminate. Qed.

Lemma fill_segments_app (aZone : ZONE_CONTAINER) (mode : EDA_DRAW_MODE_T)
    (data : option GBR_METADATA) (l : list (wxPoint * wxPoint)) (p : PLOTTER) :
  fold_left (fun p seg => emit (ThickSegment (fst seg) (snd seg)
                                  (zone_MinThickness aZone) mode data) p) l p
  = p ++ map (fun seg => ThickSegment (fst seg) (snd seg)
                           (zone_MinThickness aZone) mode data) l.
Proof.
  revert p. induction l as [|seg l IH]; intros p.
  - cbn. symmetry. apply app_nil_r.
  - cbn [fold_left map]. rewrite IH. unfold emit. rewrite <- app_assoc. reflexivity.
Qed.

Lemma polygons_closed_app (p q : PLOTTER) :
  polygons_closed p -> polygons_closed q -> polygons_closed (p ++ q).
Proof. intros Hp Hq. apply Forall_app. split; assumption. Qed.

Lemma polygons_closed_segments (l : list (wxPoint * wxPoint)) (w : Z)
    (mode : EDA_DRAW_MODE_T) (data : option GBR_METADATA) :
  polygons_closed (map (fun seg => ThickSegment (fst seg) (snd seg) w mode data) l).
Proof. apply Forall_map, Forall_forall. intros seg _ corners. discriminate. Qed.

Lemma polygons_closed_plot_contour (this : BRDITEMS_PLOTTER) (aZone : ZONE_CONTAINER)
    (cornerList : list wxPoint) (p : PLOTTER) :
  closed cornerList -> polygons_closed p ->
  polygons_closed (plot_contour this aZone cornerList p).
Proof.
  intros Hc Hp. unfold plot_contour.
  assert (Hpoly : forall fill w d corners,
             polygon_corners (PlotPoly cornerList fill w d) = Some corners ->
             closed corners) by (intros fill w d corners [= <-]; exact Hc).
  destruct (PlotMode this).
  - destruct (zone_FillMode aZone =? 0).
    + apply polygons_closed_emit; [apply Hpoly | exact Hp].
    + cbv zeta. rewrite fill_segments_app.
      assert (Hs : polygons_closed
                (p ++ map (fun seg => ThickSegment (fst seg) (snd seg)
                             (zone_MinThickness aZone) FILLED
                             (Some (zone_metadata aZone))) (zone_FillSegments aZone)))
        by (apply polygons_closed_app; [exact Hp | apply polygons_closed_segments]).
      destruct (0 <? zone_MinThickness aZone); [|exact Hs].
      apply polygons_closed_emit; [apply Hpoly | exact Hs].
  - cbv zeta. apply polygons_closed_other; [reflexivity|].
    destruct (0 <? zone_MinThickness aZone); [|exact Hp].
    rewrite thick_chain_segments. apply polygons_closed_app; [exact Hp|].
    apply polygons_closed_segments.
Qed.

Lemma polygons_closed_plot_corners (this : BRDITEMS_PLOTTER) (aZone : ZONE_CONTAINER)
    (corners : list (wxPoint * bool)) (cornerList : list wxPoint) (p : PLOTTER) :
  polygons_closed p ->
  polygons_closed (plot_corners this aZone corners cornerList p).
Proof.
  revert cornerList p. induction corners as [|[pos e] rest IH]; intros cornerList p Hp.
  - exact Hp.
  - cbn [plot_corners]. destruct e.
    + apply IH, polygons_closed_plot_contour; [|exact Hp].
      apply close_outline_closed. destruct cornerList; discriminate.
    + apply IH, Hp.
Qed.

(** X10.  A zone without filled polygons leaves the plotter as it was.
    Otherwise every polygon that [PlotFilledAreas] plots is closed: it has
    a corner and ends on its first corner, which is added to a contour
    that did not end there. *)
Theorem zone_outlines_closed (this : BRDITEMS_PLOTTER) (aZone : ZONE_CONTAINER)
    (m_plotter : PLOTTER) :
  (zone_PolysIsEmpty aZone = true -> PlotFilledAreas this aZone m_plotter = m_plotter)
  /\ (polygons_closed m_plotter ->
      polygons_closed (PlotFilledAreas this aZone m_plotter)).
Proof.
  unfold PlotFilledAreas. split.
  - intros ->. reflexivity.
  - intros Hp. destruct (zone_PolysIsEmpty aZone); [exact Hp|].
    apply polygons_closed_plot_corners.
    apply polygons_closed_other; [reflexivity | exact Hp].
Qed.





Lemma appends_PlotTextModule (pt_texte : TEXTE_MODULE) (aColor : COLOR4D) :
  appends (PlotTextModule pt_texte aColor).
Proof. intros p. unfold PlotTextModule, emit. rewrite <- !app_assoc. reflexivity. Qed.

Lemma plot_item_texts_app (this : BRDITEMS_PLOTTER) (items : list MODULE_ITEM)
    (p : PLOTTER) :
  plot_item_texts this items p
  = (fst (plot_item_texts this items []), p ++ snd (plot_item_texts this items [])).
Proof.
  revert p. induction items as [|item rest IH]; intros p.
  - cbn. rewrite app_nil_r. reflexivity.
  - cbn [plot_item_texts]. destruct (as_text item) as [t|]; [|apply IH].
    destruct (negb (tm_Visible t)); [apply IH|].
    destruct (LAYER_ID_COUNT <=? tm_Layer t); [cbn; rewrite app_nil_r; reflexivity|].
    destruct (negb (lset_test (m_layerMask this) (tm_Layer t))); [apply IH|].
    rewrite IH.
    rewrite (IH (PlotTextModule t (getColor this (tm_Layer t)) [])).
    cbn [fst snd]. rewrite (appends_PlotTextModule t _ p), <- app_assoc. reflexivity.
Qed.

(** X12.  The reference of a footprint, when it is plotted and no
    reference colour is given, is plotted first, in the colour of the
    layer of the value of the footprint and not of its own layer: the
    layer read last before the fields are plotted is that of the value. *)
Theorem reference_plotted_in_value_layer_color (this : BRDITEMS_PLOTTER)
    (params : PCB_PLOT_PARAMS) (aModule : MODULE_FIELDS) (m_plotter : PLOTTER) :
  let reference := mod_Reference aModule in
  let value := mod_Value aModule in
  tm_Layer reference < LAYER_ID_COUNT ->
  tm_Layer value < LAYER_ID_COUNT ->
  m_plotReference params = true ->
  lset_test (m_layerMask this) (tm_Layer reference) = true ->
  tm_Visible reference || m_plotInvisibleText params = true ->
  m_referenceColor params = COLOR4D_UNSPECIFIED ->
  exists rest : list plot_call,
    snd (PlotAllTextsModule this params aModule m_plotter)
    = m_plotter
      ++ PlotTextModule reference (getColor this (tm_Layer value)) []
      ++ rest.
Proof.
  intros reference value Href Hval Htrace Hmask Hvis Hcol.
  unfold PlotAllTextsModule. fold reference value.
  apply Z.leb_gt in Href. rewrite Href.
  assert (Hval' : (LAYER_ID_COUNT <? tm_Layer value) = false) by (apply Z.ltb_ge; lia).
  rewrite Hval'. cbv zeta.
  rewrite Htrace, Hmask. cbn [negb].
  assert (Hv : negb (tm_Visible reference) && negb (m_plotInvisibleText params) = false).
  { rewrite <- negb_orb, Hvis. reflexivity. }
  rewrite Hv, Hcol.
  assert (Heq : COLOR4D_eqb COLOR4D_UNSPECIFIED COLOR4D_UNSPECIFIED = true)
    by (apply COLOR4D_eqb_true; reflexivity).
  rewrite Heq.
  rewrite plot_item_texts_app. cbn [snd].
  set (r := PlotTextModule reference (getColor this (tm_Layer value)) m_plotter).
  assert (Hr : r = m_plotter ++ PlotTextModule reference (getColor this (tm_Layer value)) [])
    by apply appends_PlotTextModule.
  match goal with
  | |- context [snd (plot_item_texts this ?items [])] =>
      set (tail := snd (plot_item_texts this items []))
  end.
  match goal with
  | |- exists rest, ?v ++ tail = _ =>
      assert (Hv2 : exists mid, v = r ++ mid)
  end.
  { repeat match goal with
           | |- context [if ?b then _ else _] => destruct b
           end;
      first [ eexists; apply appends_PlotTextModule
            | exists []; symmetry; apply app_nil_r ]. }
  destruct Hv2 as (mid & ->). exists (mid ++ tail).
  rewrite Hr, <- !app_assoc. reflexivity.
Qed.

(** X13.  [PlotAllTextsModule] gives up with [false], having plotted
    nothing, when the layer of the reference is [LAYER_ID_COUNT] or more,
    or that of the value is more than [LAYER_ID_COUNT].  With the plot of
    the reference and of the value switched off and every other text of
    the footprint invisible, it returns [true] and plots nothing, whether
    invisible texts are to be plotted or not: that parameter is read for
    the reference and the value only. *)
Theorem footprint_texts_not_plotted (this : BRDITEMS_PLOTTER)
    (params : PCB_PLOT_PARAMS) (aModule : MODULE_FIELDS) (m_plotter : PLOTTER) :
  (LAYER_ID_COUNT <= tm_Layer (mod_Reference aModule)
   \/ LAYER_ID_COUNT < tm_Layer (mod_Value aModule) ->
   PlotAllTextsModule this params aModule m_plotter = (false, m_plotter))
  /\ (tm_Layer (mod_Reference aModule) < LAYER_ID_COUNT ->
      tm_Layer (mod_Value aModule) < LAYER_ID_COUNT ->
      m_plotReference params = false ->
      m_plotValue params = false ->
      Forall (fun item => forall text : TEXTE_MODULE,
                as_text item = Some text -> tm_Visible text = false)
             (mod_GraphicalItems aModule) ->
      PlotAllTextsModule this params aModule m_plotter = (true, m_plotter)).
Proof.
  unfold PlotAllTextsModule. split.
  - intros [Href | Hval].
    + apply Z.leb_le in Href. rewrite Href. reflexivity.
    + destruct (LAYER_ID_COUNT <=? tm_Layer (mod_Reference aModule)); [reflexivity|].
      apply Z.ltb_lt in Hval. rewrite Hval. reflexivity.
  - intros Href Hval Hr Hv Hitems.
    apply Z.leb_gt in Href. rewrite Href.
    assert (Hval' : (LAYER_ID_COUNT <? tm_Layer (mod_Value aModule)) = false)
      by (apply Z.ltb_ge; lia).
    rewrite Hval'. cbv zeta. rewrite Hr, Hv.
    assert (E1 : forall b c : bool, (if b then false else if c then false else false) = false)
      by (intros [] []; reflexivity).
    rewrite !E1.
    induction Hitems as [|item rest Hitem _ IH]; [reflexivity|].
    cbn [plot_item_texts]. destruct (as_text item) as [t|] eqn:E; [|exact IH].
    rewrite (Hitem t eq_refl). cbn [negb]. exact IH.
Qed.

(** X14.  [Plot_Edges_Modules] plots the footprint outlines on plotted
    layers only: when no edge of any footprint is on a layer of the layer
    mask, the plotter is left as it was, whatever texts the footprints
    hold. *)
Theorem hidden_footprint_edges_not_plotted (this : BRDITEMS_PLOTTER)
    (m_Modules : list MODULE_FIELDS) (m_plotter : PLOTTER) :
  Forall (fun module =>
            Forall (fun item => forall edge : EDGE_MODULE,
                      as_edge item = Some edge ->
                      lset_test (m_layerMask this) (edge_Layer edge) = false)
                   (mod_GraphicalItems module))
         m_Modules ->
  Plot_Edges_Modules this m_Modules m_plotter = m_plotter.
Proof.
  intros Hall. unfold Plot_Edges_Modules.
  induction Hall as [|module rest Hmod _ IH]; [reflexivity|].
  cbn [fold_left].
  match goal with
  | |- fold_left ?f rest (fold_left ?g _ _) = _ =>
      assert (E : fold_left g (mod_GraphicalItems module) m_plotter = m_plotter)
  end.
  { induction Hmod as [|item items Hitem _ IHi]; [reflexivity|].
    cbn [fold_left]. destruct (as_edge item) as [e|]; [|exact IHi].
    rewrite (Hitem e eq_refl). exact IHi. }
  rewrite E. exact IH.
Qed.

(** X8.  A curve on a plotted layer is plotted as the colour of the
    layer, the line width, and one thick segment from each Bezier point to
    the next: one segment less than there are points (none for an empty
    list), every segment starting where the one before it ends. *)
Theorem curve_is_a_chain (this : BRDITEMS_PLOTTER) (aSeg : DRAWSEGMENT)
    (m_plotter : PLOTTER) :
  lset_test (m_layerMask this) (seg_Layer aSeg) = true ->
  seg_Shape aSeg = S_CURVE ->
  let data := Some (segment_metadata this (seg_Layer aSeg)) in
  PlotDrawSegment this aSeg m_plotter
  = m_plotter
    ++ [SetColor (getColor this (seg_Layer aSeg));
        SetCurrentLineWidth (seg_Width aSeg) data]
    ++ map (fun ab => ThickSegment (fst ab) (snd ab) (seg_Width aSeg) (PlotMode this) data)
           (chain_segments (seg_BezierPoints aSeg))
  /\ length (chain_segments (seg_BezierPoints aSeg))
     = Nat.pred (length (seg_BezierPoints aSeg))
  /\ (forall (i : nat) (a b c d : wxPoint),
        nth_error (chain_segments (seg_BezierPoints aSeg)) i = Some (a, b) ->
        nth_error (chain_segments (seg_BezierPoints aSeg)) (S i) = Some (c, d) ->
        b = c).
Proof.
  intros Hvis Hshape data. split; [|split].
  - unfold PlotDrawSegment. rewrite Hvis, Hshape. cbn [negb]. cbv zeta.
    rewrite thick_chain_segments. unfold emit, data, segment_metadata.
    rewrite <- !app_assoc. reflexivity.
  - unfold chain_segments. rewrite length_combine.
    destruct (seg_BezierPoints aSeg) as [|x l]; [reflexivity|].
    cbn [tl length Nat.pred]. lia.
  - unfold chain_segments. generalize (seg_BezierPoints aSeg). intros l.
    induction l as [|x l IH]; intros i a b c d Ha Hb.
    + destruct i; discriminate.
    + destruct l as [|y l]; [destruct i; discriminate|].
      destruct i as [|i].
      * cbn in Ha. injection Ha as <- <-.
        destruct l as [|z l]; [discriminate|]. cbn in Hb. congruence.
      * apply (IH i a b c d); [exact Ha | exact Hb].
Qed.

(** X9.  A PCB text that shows something, on a plotted layer, is plotted
    as the colour of its layer followed by one text call for each line
    that [wxStringSplit] finds when the text may have several lines, and
    by one call otherwise.  Every call has the unspecified colour, the
    size of the text with the width negated for a mirrored text, the bold
    flag for a bold text or a thickness other than zero, and the
    non-conductor attribute when the layer is a copper layer. *)
Theorem pcb_text_lines (this : BRDITEMS_PLOTTER) (pt_texte : TEXTE_PCB)
    (m_plotter : PLOTTER) :
  txt_ShownText pt_texte <> EmptyString ->
  lset_test (m_layerMask this) (txt_Layer pt_texte) = true ->
  exists texts : list plot_call,
    PlotTextePcb this pt_texte m_plotter
    = m_plotter ++ SetColor (getColor this (txt_Layer pt_texte)) :: texts
    /\ length texts
       = (if txt_MultilineAllowed pt_texte
          then length (wxStringSplit (txt_ShownText pt_texte) "010"%char)
          else 1%nat)
    /\ Forall (fun c => exists pos text,
                 c = Text pos COLOR4D_UNSPECIFIED text (txt_TextAngle pt_texte)
                          (if txt_Mirrored pt_texte
                           then mkSize (Int32.neg (sz_x (txt_TextSize pt_texte)))
                                       (sz_y (txt_TextSize pt_texte))
                           else txt_TextSize pt_texte)
                          (txt_HorizJustify pt_texte) (txt_VertJustify pt_texte)
                          (txt_Thickness pt_texte) (txt_Italic pt_texte)
                          (txt_Bold pt_texte || negb (txt_Thickness pt_texte =? 0))
                          false
                          (Some (if IsCopperLayer (txt_Layer pt_texte)
                                 then SetApertureAttrib GBR_APERTURE_ATTRIB_NONCONDUCTOR
                                        GBR_METADATA_new
                                 else GBR_METADATA_new)))
              texts.
Proof.
  intros Htext Hvis. unfold PlotTextePcb.
  destruct (String.eqb (txt_ShownText pt_texte) EmptyString) eqn:E;
    [apply String.eqb_eq in E; contradiction|].
  rewrite Hvis. cbn [negb]. cbv zeta.
  destruct (txt_MultilineAllowed pt_texte).
  - rewrite plot_text_lines_app. unfold emit at 1. rewrite <- app_assoc.
    eexists. split; [reflexivity|].
    generalize (wxStringSplit (txt_ShownText pt_texte) "010").
    intros lines. generalize (txt_LinePositions pt_texte (length lines)). intros positions.
    generalize 0%nat. induction lines as [|line lines IH]; intros ii.
    + split; [reflexivity | constructor].
    + cbn [plot_text_lines]. rewrite plot_text_lines_app. unfold emit at 1.
      cbn [app length]. destruct (IH (S ii)) as [Hlen Hall]. split.
      * rewrite Hlen. reflexivity.
      * constructor; [eexists _, _; reflexivity | exact Hall].
  - unfold emit. rewrite <- app_assoc. eexists. split; [reflexivity|].
    split; [reflexivity|]. constructor; [eexists _, _; reflexivity | constructor].
Qed.

End PlotterProperties.

(** ** The properties on the sample board *)

Section PlotterExamples.

Import Plot Samples.

#[local] Existing Instance pcbnew_decls.

(** C4 on the sample pad: plotted with the front copper layer it is a
    component pad, plotted on an inner layer only it is a via pad. *)
Lemma through_hole_pad_attribute_witness :
  (exists (flash : plot_call) (data : GBR_METADATA),
      PlotPad front_plotter through_pad red FILLED []
      = [] ++ [SetColor (not_white red); flash]
      /\ is_primitive flash = true
      /\ flash_metadata flash = Some data
      /\ m_ApertAttribute data = GBR_APERTURE_ATTRIB_COMPONENTPAD)
  /\
  (exists (flash : plot_call) (data : GBR_METADATA),
      PlotPad inner_plotter through_pad red FILLED []
      = [] ++ [SetColor (not_white red); flash]
      /\ is_primitive flash = true
      /\ flash_metadata flash = Some data
      /\ m_ApertAttribute data = GBR_APERTURE_ATTRIB_VIAPAD).
Proof.
  split.
  - exact (through_hole_pad_attribute front_plotter through_pad red FILLED []
             eq_refl eq_refl).
  - exact (through_hole_pad_attribute inner_plotter through_pad red FILLED []
             eq_refl eq_refl).
Defined.

(** C8 on the two sample targets of size 30: with the flag set the circle
    has radius 15 (diameter 30) and the arms are the diagonals of
    half-length 15; with the flag unset the circle has radius 10
    (diameter 20) and the arms are horizontal and vertical, of
    half-length 15. *)
Lemma target_mire_decomposition_witness :
  let color := SetColor (getColor front_plotter 37) in
  let data := Some GBR_METADATA_new in
  PlotPcbTarget front_plotter mire_x []
  = [color; color;
     ThickCircle (mkPoint 1000 2000) 30 2 FILLED data;
     color;
     ThickSegment (mkPoint 985 1985) (mkPoint 1015 2015) 2 FILLED data;
     color;
     ThickSegment (mkPoint 985 2015) (mkPoint 1015 1985) 2 FILLED data]
  /\
  PlotPcbTarget front_plotter mire_plus []
  = [color; color;
     ThickCircle (mkPoint 1000 2000) 20 2 FILLED data;
     color;
     ThickSegment (mkPoint 985 2000) (mkPoint 1015 2000) 2 FILLED data;
     color;
     ThickSegment (mkPoint 1000 1985) (mkPoint 1000 2015) 2 FILLED data].
Proof.
  split.
  - refine (target_mire_decomposition front_plotter mire_x [] _ _ _ _ _ _ _);
      [reflexivity | vm_compute; discriminate | vm_compute; split; discriminate ..].
  - refine (target_mire_decomposition front_plotter mire_plus [] _ _ _ _ _ _ _);
      [reflexivity | vm_compute; discriminate | vm_compute; split; discriminate ..].
Defined.

(** C9 as it was stated fails on the sample polygon with a single corner:
    plotting it on an idle plotter leaves the plotter with a colour
    selected. *)
Lemma degenerate_polygon_sets_color :
  Plot_1_EdgeModule front_plotter one_corner_edge []
  = [SetColor (getColor front_plotter 37)]
  /\ Plot_1_EdgeModule front_plotter one_corner_edge [] <> [].
Proof.
  split; [reflexivity | discriminate].
Qed.

(** C9 as amended, on the sample polygon and on a chain of one point. *)
Lemma degenerate_polygon_skipped_witness :
  Plot_1_EdgeModule front_plotter one_corner_edge []
  = [] ++ [SetColor (getColor front_plotter (edge_Layer one_corner_edge))]
  /\ List.filter is_primitive (Plot_1_EdgeModule front_plotter one_corner_edge [])
     = List.filter is_primitive []
  /\ Gal.drawPoly (Gal.mkChain [mkVECTOR2I 3 4] true) new_gal = new_gal.
Proof.
  refine (degenerate_polygon_skipped front_plotter one_corner_edge []
            (Gal.mkChain [mkVECTOR2I 3 4] true) new_gal _ _ _ _);
    [reflexivity | reflexivity | cbn; lia | cbn; lia].
Defined.

(** C10 on the sample text: its layer is visible, and yet nothing reaches
    the plotter. *)
Lemma empty_text_not_plotted_witness :
  lset_test (m_layerMask front_plotter) (txt_Layer empty_text) = true
  /\ PlotTextePcb front_plotter empty_text [SetColor black] = [SetColor black].
Proof.
  split; [reflexivity|].
  refine (empty_text_not_plotted front_plotter empty_text [SetColor black] _).
  reflexivity.
Defined.

(** ** The further properties on the sample board *)

#[local] Existing Instance layer_decls.

(** X1 on the sample items of the back copper layer. *)
Lemma hidden_graphic_items_not_plotted_witness :
  PlotBoardGraphicItems front_plotter back_drawings [SetColor black] = [SetColor black].
Proof.
  apply (hidden_graphic_items_not_plotted front_plotter back_drawings [SetColor black]).
  repeat constructor; intros l E; cbn in E; first [discriminate | injection E as <-];
    reflexivity.
Defined.

(** X3 on a board whose layers are all white, and on a white pad. *)
Lemma white_is_never_selected_witness :
  no_white (PlotBoardGraphicItems white_board_plotter silk_drawings [])
  /\ no_white (PlotPad white_board_plotter through_pad white FILLED []).
Proof.
  assert (Hwhite : COLOR4D_of WHITE = COLOR4D_WHITE) by reflexivity.
  assert (Hgray : COLOR4D_of LIGHTGRAY <> COLOR4D_WHITE).
  { cbn. intros E. injection E. lra. }
  assert (Hnone : no_white []) by constructor.
  destruct (white_is_never_selected white_board_plotter fields_plotted []
              Hwhite Hgray Hnone) as (A & _ & _ & _ & B).
  split; [apply A | apply B].
Defined.

(** X5 on the sample mechanical pad. *)
Lemma washer_pad_attribute_witness :
  exists (flash : plot_call) (data : GBR_METADATA),
    PlotPad front_plotter washer_pad red FILLED []
    = [] ++ [SetColor (not_white red); flash]
    /\ flash_metadata flash = Some data
    /\ m_ApertAttribute data = GBR_APERTURE_ATTRIB_WASHERPAD
    /\ m_NotInNet data = true.
Proof.
  exact (washer_pad_attribute front_plotter washer_pad red FILLED [] eq_refl eq_refl).
Defined.

(** X6 on the sample round surface-mount pad: a BGA pad. *)
Lemma surface_pad_attribute_witness :
  exists (flash : plot_call) (data : GBR_METADATA),
    PlotPad front_plotter ball_pad red FILLED []
    = [] ++ [SetColor (not_white red); flash]
    /\ flash_metadata flash = Some data
    /\ m_ApertAttribute data = GBR_APERTURE_ATTRIB_BGAPAD_CUDEF.
Proof.
  exact (surface_pad_attribute front_plotter ball_pad red FILLED []
           (or_introl eq_refl) eq_refl).
Defined.

(** X8 on the sample curve of four points: three segments. *)
Lemma curve_is_a_chain_witness :
  let data := Some GBR_METADATA_new in
  PlotDrawSegment front_plotter silk_curve []
  = [SetColor (getColor front_plotter 37);
     SetCurrentLineWidth 2 data;
     ThickSegment (mkPoint 0 0) (mkPoint 10 5) 2 FILLED data;
     ThickSegment (mkPoint 10 5) (mkPoint 20 5) 2 FILLED data;
     ThickSegment (mkPoint 20 5) (mkPoint 30 0) 2 FILLED data].
Proof.
  destruct (curve_is_a_chain front_plotter silk_curve [] eq_refl eq_refl) as (E & _).
  exact E.
Defined.

(** X9 on the sample text of two lines. *)
Lemma pcb_text_lines_witness :
  exists texts : list plot_call,
    PlotTextePcb front_plotter two_line_text []
    = [] ++ SetColor (getColor front_plotter 37) :: texts
    /\ length texts = 2%nat.
Proof.
  destruct (pcb_text_lines front_plotter two_line_text [])
    as (texts & E & L & _); [discriminate | reflexivity |].
  exists texts. split; [exact E | exact L].
Defined.


(** X12 on the sample footprint: the reference, on the red silk screen,
    is plotted in the colour of the layer of the value. *)
Lemma reference_plotted_in_value_layer_color_witness :
  exists rest : list plot_call,
    snd (PlotAllTextsModule layered_plotter fields_plotted sample_module [])
    = [] ++ PlotTextModule sample_reference (getColor layered_plotter 49) [] ++ rest.
Proof.
  refine (reference_plotted_in_value_layer_color layered_plotter fields_plotted
            sample_module [] _ _ _ _ _ _);
    first [reflexivity | cbn; lia].
Defined.

(** X14 on the sample footprint, whose outline is on the back copper
    layer. *)
Lemma hidden_footprint_edges_not_plotted_witness :
  Plot_Edges_Modules front_plotter [sample_module] [SetColor black] = [SetColor black].
Proof.
  apply (hidden_footprint_edges_not_plotted front_plotter [sample_module]
           [SetColor black]).
  repeat constructor; intros edge E; cbn in E; first [discriminate | injection E as <-];
    reflexivity.
Defined.

(** X10 on the sample zone: its two contours are plotted as closed
    polygons, the first of which did not end on its first corner. *)
Lemma zone_outlines_closed_witness :
  polygons_closed (PlotFilledAreas front_plotter segment_zone []).
Proof.
  destruct (zone_outlines_closed front_plotter segment_zone []) as (_ & A).
  apply A. constructor.
Defined.

(** X13 on the sample footprint, with the plot of the fields switched off
    and invisible texts asked for: the invisible text is not plotted. *)
Lemma footprint_texts_not_plotted_witness :
  PlotAllTextsModule layered_plotter fields_not_plotted sample_module [SetColor black]
  = (true, [SetColor black]).
Proof.
  destruct (footprint_texts_not_plotted layered_plotter fields_not_plotted sample_module
              [SetColor black]) as (_ & A).
  apply A; try reflexivity.
  repeat constructor; intros text E; cbn in E; first [discriminate | injection E as <-];
    reflexivity.
Defined.

End PlotterExamples.

(* ===================================================================== *)
(** * Properties of CAIRO_GAL *)
(* ===================================================================== *)

Section GalProperties.

Import Gal.

Context `{CairoNumerics}.

(** ** The flush *)

(** Case analysis on the flags that the conditionals of the goal test. *)
Ltac by_flags :=
  repeat first
    [ progress cbn
    | match goal with
      | E : ?f ?x = _ |- context [?f ?x] => is_var x; rewrite E
      end
    | match goal with
      | |- context [if ?b then _ else _] =>
          match b with
          | context [?f ?x] =>
              is_var x; let t := type of (f x) in unify t bool; destruct (f x) eqn:?
          end
      end ].

Lemma storePath_isElementAdded (s : CAIRO_GAL) : isElementAdded (storePath s) = false.
Proof. unfold storePath. by_flags; auto. Qed.




(** The members that a flush does not touch. *)
Lemma storePath_frame (s : CAIRO_GAL) :
  isGrouping (storePath s) = isGrouping s
  /\ isInitialized (storePath s) = isInitialized s
  /\ validCompositor (storePath s) = validCompositor s
  /\ isFillEnabled (storePath s) = isFillEnabled s
  /\ isStrokeEnabled (storePath s) = isStrokeEnabled s
  /\ fillColor (storePath s) = fillColor s
  /\ strokeColor (storePath s) = strokeColor s
  /\ lineWidth (storePath s) = lineWidth s
  /\ layerDepth (storePath s) = layerDepth s
  /\ currentGroup (storePath s) = currentGroup s
  /\ currentTarget (storePath s) = currentTarget s
  /\ mainBuffer (storePath s) = mainBuffer s
  /\ overlayBuffer (storePath s) = overlayBuffer s
  /\ target (currentContext (storePath s)) = target (currentContext s).
Proof.
  unfold storePath. by_flags; repeat split; auto.
Qed.

(** The commands that a flush appends to the current group, and the
    paths they hold. *)
Lemma storePath_groups (s : CAIRO_GAL) :
  groups (storePath s)
  = alter (fun g => g ++ flush_records s) (currentGroup s) (groups s).
Proof.
  unfold storePath, flush_records, push_back, copy_path.
  by_flags;
    first [ rewrite alter_alter_eq; apply alter_ext; intros g _; cbn;
            rewrite <- app_assoc; reflexivity
          | reflexivity
          | symmetry; apply alter_id; intros g _; apply app_nil_r ].
Qed.


(** A flush and the assignment of the layer depth commute. *)
Lemma storePath_set_layerDepth (d : double) (s : CAIRO_GAL) :
  storePath (set_layerDepth d s) = set_layerDepth d (storePath s).
Proof. unfold storePath. by_flags; reflexivity. Qed.


(** ** Handles that name no group *)



Lemma touch_absent (s : CAIRO_GAL) (h : Z) :
  groups s !! h = None -> touch h s = set_groups (<[h := []]> (groups s)) s.
Proof. intros Hnone. unfold touch. rewrite Hnone. reflexivity. Qed.


(** ** Primitives inside a group *)

(** With filling or stroking enabled, [flushPath] paints the path and
    leaves none. *)
Lemma flushPath_clears_path (s : CAIRO_GAL) :
  isFillEnabled s || isStrokeEnabled s = true ->
  path (currentContext (flushPath s)) = [].
Proof.
  unfold flushPath. by_flags; intros; first [reflexivity | discriminate].
Qed.

(** Hence the path command that the flush records after a line drawn in
    a group points to an empty path, whatever the line. *)
Lemma recorded_line_is_empty (aStartPoint aEndPoint : VECTOR2D) (s : CAIRO_GAL) :
  isGrouping s = true -> isStrokeEnabled s = true -> isFillEnabled s = false ->
  let s' := storePath (DrawLine aStartPoint aEndPoint s) in
  groups s' = alter (fun g => g ++ [CMD_STROKE_PATH (nextPath s)]) (currentGroup s) (groups s)
  /\ cairoPaths s' !! nextPath s = Some [].
Proof.
  intros Hg Hs Hf. unfold storePath, DrawLine, flushPath, copy_path, push_back.
  repeat (progress (cbn; rewrite ?Hg, ?Hs, ?Hf)).
  split; [reflexivity | apply lookup_insert_eq].
Qed.

(** ** Groups hold no nested call *)

Lemma flat_app (l : GROUP) (e : GROUP_ELEMENT) :
  flat l = true -> is_call e = false -> flat (l ++ [e]) = true.
Proof.
  intros Hl He. unfold flat in *. rewrite forallb_app, Hl. cbn. rewrite He. reflexivity.
Qed.

Lemma flat_table_push (m : gmap Z GROUP) (c : Z) (e : GROUP_ELEMENT) :
  is_call e = false -> flat_table m -> flat_table (alter (fun g => g ++ [e]) c m).
Proof.
  intros He Hm k g. rewrite lookup_alter. destruct (decide (c = k)) as [->|Hne].
  - destruct (m !! k) as [g0|] eqn:E; cbn; [|discriminate].
    intros [= <-]. apply flat_app; [apply (Hm k), E | exact He].
  - apply Hm.
Qed.

Lemma flat_table_insert_nil (m : gmap Z GROUP) (c : Z) :
  flat_table m -> flat_table (<[c := []]> m).
Proof.
  intros Hm k g. rewrite lookup_insert. destruct (decide (c = k)) as [->|Hne].
  - intros [= <-]. reflexivity.
  - apply Hm.
Qed.

Lemma flat_table_delete (m : gmap Z GROUP) (c : Z) :
  flat_table m -> flat_table (delete c m).
Proof.
  intros Hm k g. rewrite lookup_delete. destruct (decide (c = k)); [discriminate|apply Hm].
Qed.

Lemma flat_recolor (aNewColor : COLOR4D) (l : GROUP) :
  flat (map (recolor aNewColor) l) = flat l.
Proof.
  unfold flat. induction l as [|e l IH]; [reflexivity|]. cbn. rewrite IH.
  destruct e; reflexivity.
Qed.

Lemma flat_table_recolor (m : gmap Z GROUP) (c : Z) (aNewColor : COLOR4D) :
  flat_table m -> flat_table (alter (map (recolor aNewColor)) c m).
Proof.
  intros Hm k g. rewrite lookup_alter. destruct (decide (c = k)) as [->|Hne].
  - destruct (m !! k) as [g0|] eqn:E; cbn; [|discriminate].
    intros [= <-]. rewrite flat_recolor. apply (Hm k), E.
  - apply Hm.
Qed.

Ltac flat_step :=
  unfold all_flat in *; by_flags;
  repeat first [ assumption
               | apply flat_table_push; [reflexivity|]
               | apply flat_table_insert_nil
               | apply flat_table_delete
               | apply flat_table_recolor ].

Lemma storePath_flat (s : CAIRO_GAL) : all_flat s -> all_flat (storePath s).
Proof. intros Hs. unfold storePath, push_back, copy_path. flat_step. Qed.

Lemma flushPath_groups (s : CAIRO_GAL) : groups (flushPath s) = groups s.
Proof. unfold flushPath. by_flags; reflexivity. Qed.

Lemma touch_flat (h : Z) (s : CAIRO_GAL) : all_flat s -> all_flat (touch h s).
Proof.
  intros Hs. unfold touch. destruct (groups s !! h); [exact Hs|].
  apply flat_table_insert_nil, Hs.
Qed.

Lemma initSurface_groups (s : CAIRO_GAL) : groups (initSurface s) = groups s.
Proof. unfold initSurface. destruct (isInitialized s); reflexivity. Qed.

Lemma deinitSurface_groups (s : CAIRO_GAL) : groups (deinitSurface s) = groups s.
Proof. unfold deinitSurface. destruct (isInitialized s); reflexivity. Qed.

Lemma SetLineWidth_flat (w : double) (s : CAIRO_GAL) :
  all_flat s -> all_flat (SetLineWidth w s).
Proof.
  intros Hs. apply storePath_flat in Hs. unfold SetLineWidth.
  destruct (storePath_frame s) as (Hg & _). cbn. rewrite Hg.
  destruct (isGrouping s); [apply flat_table_push; [reflexivity|exact Hs] | exact Hs].
Qed.

Lemma chain_lines_groups (c : SHAPE_LINE_CHAIN) (n i : nat) (s : CAIRO_GAL) :
  groups (chain_lines c n i s) = groups s.
Proof.
  revert i s. induction n as [|n IH]; intros i s; [reflexivity|].
  cbn [chain_lines]. rewrite IH. reflexivity.
Qed.

Lemma drawPoly_groups (c : SHAPE_LINE_CHAIN) (s : CAIRO_GAL) :
  groups (drawPoly c s) = groups s.
Proof.
  unfold drawPoly. destruct (PointCount c <? 2)%nat; [reflexivity|].
  cbn [groups set_isElementAdded]. rewrite flushPath_groups, chain_lines_groups.
  reflexivity.
Qed.

Lemma DrawPolygon_groups (l : list SHAPE_LINE_CHAIN) (s : CAIRO_GAL) :
  groups (DrawPolygon l s) = groups s.
Proof.
  unfold DrawPolygon. revert s. induction l as [|c l IH]; intros s; [reflexivity|].
  cbn [fold_left]. rewrite IH. apply drawPoly_groups.
Qed.

Lemma destroy_paths_groups (l : GROUP) (s : CAIRO_GAL) :
  groups (destroy_paths l s) = groups s.
Proof.
  unfold destroy_paths. revert s. induction l as [|e l IH]; intros s; [reflexivity|].
  cbn [fold_left]. rewrite IH. destruct e; reflexivity.
Qed.

Lemma DeleteGroup_flat (h : Z) (s : CAIRO_GAL) : all_flat s -> all_flat (DeleteGroup h s).
Proof.
  intros Hs. unfold DeleteGroup, all_flat. cbn [groups set_groups].
  apply flat_table_delete. rewrite destroy_paths_groups.
  apply touch_flat, storePath_flat, Hs.
Qed.

Lemma delete_down_flat (n : nat) (s : CAIRO_GAL) : all_flat s -> all_flat (delete_down n s).
Proof.
  revert s. induction n as [|n IH]; intros s Hs; [exact Hs|].
  cbn [delete_down]. apply IH, DeleteGroup_flat, Hs.
Qed.

Lemma run_element_flat (call : Z -> CAIRO_GAL -> option CAIRO_GAL)
    (e : GROUP_ELEMENT) (s s' : CAIRO_GAL) :
  (forall n t t', all_flat t -> call n t = Some t' -> all_flat t') ->
  all_flat s -> run_element call e s = Some s' -> all_flat s'.
Proof.
  intros Hcall Hs. destruct e; cbn [run_element];
    try (intros [= <-]; exact Hs).
  apply Hcall, Hs.
Qed.

Lemma run_elements_flat (call : Z -> CAIRO_GAL -> option CAIRO_GAL) (l : GROUP) :
  (forall n t t', all_flat t -> call n t = Some t' -> all_flat t') ->
  forall s s', all_flat s -> run_elements call l s = Some s' -> all_flat s'.
Proof.
  intros Hcall. induction l as [|e l IH]; intros s s' Hs.
  - intros [= <-]. exact Hs.
  - cbn [run_elements]. destruct (run_element call e s) as [t|] eqn:E; [|discriminate].
    apply IH. exact (run_element_flat call e s t Hcall Hs E).
Qed.

Lemma DrawGroup_flat (fuel : nat) :
  forall (n : Z) (s s' : CAIRO_GAL),
    all_flat s -> DrawGroup fuel n s = Some s' -> all_flat s'.
Proof.
  induction fuel as [|fuel IH]; intros n s s' Hs; [discriminate|].
  cbn [DrawGroup]. apply (run_elements_flat _ _ IH).
  apply touch_flat, storePath_flat, Hs.
Qed.

Lemma Returns_inj (s t : CAIRO_GAL) : Returns s = Returns t -> s = t.
Proof. intros E. congruence. Qed.

(** The shape of the state operations: a flush, the change [after], and
    then either its recording in the current group or [other]. *)
Lemma recorded_flat (e : GROUP_ELEMENT) (s : CAIRO_GAL)
    (after other : CAIRO_GAL -> CAIRO_GAL) :
  is_call e = false ->
  (forall t, groups (after t) = groups t) ->
  (forall t, isGrouping (after t) = isGrouping t) ->
  (forall t, currentGroup (after t) = currentGroup t) ->
  (forall t, groups (other t) = groups t) ->
  all_flat s ->
  all_flat (let t := after (storePath s) in
            if isGrouping t then push_back e t else other t).
Proof.
  intros He Hgroups Hgrouping Hcurrent Hother Hs. apply storePath_flat in Hs.
  cbv zeta. rewrite Hgrouping.
  destruct (isGrouping (storePath s)); unfold all_flat, push_back in *.
  - cbn [groups set_groups]. rewrite Hcurrent, Hgroups.
    apply flat_table_push; assumption.
  - rewrite Hother, Hgroups. assumption.
Qed.

Lemma groups_on_context (f : cairo_t -> cairo_t) (s : CAIRO_GAL) :
  groups (on_context f s) = groups s.
Proof. reflexivity. Qed.

Lemma groups_set_isElementAdded (b : bool) (s : CAIRO_GAL) :
  groups (set_isElementAdded b s) = groups s.
Proof. reflexivity. Qed.

(** A primitive that builds a path with calls on the context, flushes it
    and marks an element as added leaves the groups alone. *)
Ltac primitive_keeps_groups :=
  cbv zeta;
  rewrite ?groups_set_isElementAdded, ?flushPath_groups, ?groups_on_context.

Lemma BeginDrawing_flat (s : CAIRO_GAL) : all_flat s -> all_flat (BeginDrawing s).
Proof.
  intros Hs. unfold all_flat, BeginDrawing, compositor_SetBuffer.
  cbn [groups on_context set_currentContext].
  destruct (negb (validCompositor (initSurface s))); cbn; rewrite initSurface_groups;
    exact Hs.
Qed.

Lemma EndDrawing_flat (s : CAIRO_GAL) : all_flat s -> all_flat (EndDrawing s).
Proof.
  intros Hs. unfold all_flat, EndDrawing, compositor_DrawBuffer.
  rewrite deinitSurface_groups. apply storePath_flat, Hs.
Qed.

Lemma DrawLine_flat (a b : VECTOR2D) (s : CAIRO_GAL) : all_flat s -> all_flat (DrawLine a b s).
Proof.
  intros Hs. unfold all_flat, DrawLine. primitive_keeps_groups. exact Hs.
Qed.

Lemma DrawSegment_flat (a b : VECTOR2D) (w : double) (s : CAIRO_GAL) :
  all_flat s -> all_flat (DrawSegment a b w s).
Proof.
  intros Hs. unfold all_flat, DrawSegment. rewrite groups_set_isElementAdded.
  destruct (isFillEnabled s); primitive_keeps_groups.
  - apply (SetLineWidth_flat w s Hs).
  - exact Hs.
Qed.

Lemma DrawCircle_flat (c : VECTOR2D) (r : double) (s : CAIRO_GAL) :
  all_flat s -> all_flat (DrawCircle c r s).
Proof.
  intros Hs. unfold all_flat, DrawCircle. primitive_keeps_groups. exact Hs.
Qed.

Lemma DrawArc_flat (c : VECTOR2D) (r a b : double) (s : CAIRO_GAL) :
  all_flat s -> all_flat (DrawArc c r a b s).
Proof.
  intros Hs. unfold all_flat, DrawArc. destruct (swap_if_greater a b).
  primitive_keeps_groups.
  destruct (isFillEnabled (on_context _ _)); primitive_keeps_groups; exact Hs.
Qed.

Lemma DrawArcSegment_flat (c : VECTOR2D) (r a b w : double) (s : CAIRO_GAL) :
  all_flat s -> all_flat (DrawArcSegment c r a b w s).
Proof.
  intros Hs. unfold all_flat, DrawArcSegment. destruct (swap_if_greater a b).
  rewrite groups_set_isElementAdded.
  destruct (isFillEnabled s); primitive_keeps_groups; exact Hs.
Qed.

Lemma DrawRectangle_flat (a b : VECTOR2D) (s : CAIRO_GAL) :
  all_flat s -> all_flat (DrawRectangle a b s).
Proof.
  intros Hs. unfold all_flat, DrawRectangle. primitive_keeps_groups. exact Hs.
Qed.

Lemma DrawCurve_flat (a b c d : VECTOR2D) (s : CAIRO_GAL) :
  all_flat s -> all_flat (DrawCurve a b c d s).
Proof.
  intros Hs. unfold all_flat, DrawCurve. primitive_keeps_groups. exact Hs.
Qed.

Lemma SetLayerDepth_flat (d : double) (s : CAIRO_GAL) :
  all_flat s -> all_flat (SetLayerDepth d s).
Proof.
  intros Hs. unfold SetLayerDepth, super_SetLayerDepth. cbn.
  destruct (isInitialized s); [|exact Hs].
  rewrite storePath_set_layerDepth. apply (storePath_flat s Hs).
Qed.

Lemma SetTarget_flat (t : RENDER_TARGET) (s : CAIRO_GAL) :
  all_flat s -> all_flat (SetTarget t s).
Proof.
  intros Hs. unfold SetTarget. destruct (negb (validCompositor s)); [exact Hs|].
  unfold all_flat. cbn.
  destruct (isInitialized s); [apply (storePath_flat s Hs) | exact Hs].
Qed.

Lemma BeginGroup_flat (s s' : CAIRO_GAL) (n : Z) :
  all_flat s -> BeginGroup s = Ok (n, s') -> all_flat s'.
Proof.
  intros Hs. unfold BeginGroup, getNewGroupNumber.
  destruct (negb (Z.of_nat (size (groups (storePath (initSurface s)))) <? 2 ^ 32 - 1));
    [discriminate|].
  destruct (first_free _ _ _) as [counter|]; [|discriminate].
  intros E. assert (E' : s' = set_isGrouping true
                              (set_currentGroup (Int32.of_unsigned counter)
                                 (touch (Int32.of_unsigned counter)
                                    (set_groupCounter (Int32.uwrap (counter + 1))
                                       (storePath (initSurface s)))))) by congruence.
  subst s'. unfold all_flat. cbn [groups set_isGrouping set_currentGroup].
  apply touch_flat. unfold all_flat. cbn [groups set_groupCounter].
  apply storePath_flat. unfold all_flat. rewrite initSurface_groups. exact Hs.
Qed.

Lemma EndGroup_flat (s : CAIRO_GAL) : all_flat s -> all_flat (EndGroup s).
Proof.
  intros Hs. unfold all_flat, EndGroup. rewrite deinitSurface_groups.
  apply storePath_flat, Hs.
Qed.

Lemma ChangeGroupColor_flat (h : Z) (c : COLOR4D) (s : CAIRO_GAL) :
  all_flat s -> all_flat (ChangeGroupColor h c s).
Proof.
  intros Hs. unfold all_flat, ChangeGroupColor. cbn [groups set_groups].
  apply flat_table_recolor, touch_flat, storePath_flat, Hs.
Qed.

(** No call of the interface puts a [CMD_CALL_GROUP] into a group. *)
Lemma exec_flat (fuel : nat) (c : call) (s s' : CAIRO_GAL) :
  all_flat s -> exec fuel c s = Returns s' -> all_flat s'.
Proof.
  intros Hs.
  destruct c; cbn [exec];
    try (intros E; apply Returns_inj in E; subst s').
  - apply BeginDrawing_flat, Hs.
  - apply EndDrawing_flat, Hs.
  - apply DrawLine_flat, Hs.
  - apply DrawSegment_flat, Hs.
  - apply DrawCircle_flat, Hs.
  - apply DrawArc_flat, Hs.
  - apply DrawArcSegment_flat, Hs.
  - apply DrawRectangle_flat, Hs.
  - unfold all_flat. rewrite DrawPolygon_groups. exact Hs.
  - apply DrawCurve_flat, Hs.
  - exact Hs.
  - apply storePath_flat, Hs.
  - exact Hs.
  - apply (recorded_flat _ s (set_isFillEnabled aIsFillEnabled) (fun t => t)); auto.
  - apply (recorded_flat _ s (set_isStrokeEnabled aIsStrokeEnabled) (fun t => t)); auto.
  - apply (recorded_flat _ s (set_strokeColor aColor) (fun t => t)); auto.
  - apply (recorded_flat _ s (set_fillColor aColor) (fun t => t)); auto.
  - apply SetLineWidth_flat, Hs.
  - apply SetLayerDepth_flat, Hs.
  - exact Hs.
  - apply (recorded_flat (CMD_ROTATE aAngle) s (fun t => t)
             (on_context (cairo_rotate aAngle))); auto.
  - apply (recorded_flat (CMD_TRANSLATE _ _) s (fun t => t)
             (on_context (cairo_translate (vx aTranslation) (vy aTranslation)))); auto.
  - apply (recorded_flat (CMD_SCALE _ _) s (fun t => t)
             (on_context (cairo_scale (vx aScale) (vy aScale)))); auto.
  - apply (recorded_flat CMD_SAVE s (fun t => t) (on_context cairo_save)); auto.
  - apply (recorded_flat CMD_RESTORE s (fun t => t) (on_context cairo_restore)); auto.
  - destruct (BeginGroup s) as [[n t]|] eqn:E; [|discriminate].
    intros E'. apply Returns_inj in E'. subst t. exact (BeginGroup_flat s s' n Hs E).
  - apply EndGroup_flat, Hs.
  - destruct (DrawGroup fuel aGroupNumber s) as [t|] eqn:E; [|discriminate].
    intros E'. apply Returns_inj in E'. subst t.
    exact (DrawGroup_flat fuel aGroupNumber s s' Hs E).
  - apply ChangeGroupColor_flat, Hs.
  - exact Hs.
  - apply DeleteGroup_flat, Hs.
  - apply delete_down_flat, Hs.
  - apply SetTarget_flat, Hs.
  - exact Hs.
Qed.

Lemma exec_all_flat (fuel : nat) (cs : list call) :
  forall s s' : CAIRO_GAL, all_flat s -> exec_all fuel cs s = Returns s' -> all_flat s'.
Proof.
  induction cs as [|c cs IH]; intros s s' Hs.
  - intros [= <-]. exact Hs.
  - cbn [exec_all]. destruct (exec fuel c s) as [t| |] eqn:E; try discriminate.
    apply IH. exact (exec_flat fuel c s t Hs E).
Qed.

Lemma ctor_flat (parentSize : VECTOR2I) (raw : CAIRO_GAL) :
  all_flat (CAIRO_GAL_ctor parentSize raw).
Proof. intros k g. cbn. rewrite lookup_empty. discriminate. Qed.
(** ** Colour substitution in a group *)











Lemma respects_compose (f f2 g g2 : cairo_t -> cairo_t) :
  respects f f2 -> respects g g2 -> respects (fun c => g (f c)) (fun c => g2 (f2 c)).
Proof. intros Hf Hg c c2 E. apply Hg, Hf, E. Qed.



Lemma run_element_flat_total (call : Z -> CAIRO_GAL -> option CAIRO_GAL)
    (e : GROUP_ELEMENT) (s : CAIRO_GAL) :
  is_call e = false -> exists s', run_element call e s = Some s'.
Proof. destruct e; try discriminate; intros _; eexists; reflexivity. Qed.



Lemma COLOR4D_eta (c : COLOR4D) :
  mkCOLOR4D (col_r c) (col_g c) (col_b c) (col_a c) = c.
Proof. destruct c; reflexivity. Qed.




Lemma storePath_idle (s : CAIRO_GAL) : isElementAdded s = false -> storePath s = s.
Proof. intros E. unfold storePath. rewrite E. reflexivity. Qed.

Lemma isElementAdded_set_groups (m : gmap Z GROUP) (s : CAIRO_GAL) :
  isElementAdded (set_groups m s) = isElementAdded s.
Proof. reflexivity. Qed.

Lemma touch_isElementAdded (h : Z) (s : CAIRO_GAL) :
  isElementAdded (touch h s) = isElementAdded s.
Proof. unfold touch. destruct (groups s !! h); reflexivity. Qed.

Lemma touch_lookup (h : Z) (s : CAIRO_GAL) :
  groups (touch h s) !! h = Some (group_at h s)
  /\ (forall k, k <> h -> groups (touch h s) !! k = groups s !! k)
  /\ cairoPaths (touch h s) = cairoPaths s.
Proof.
  unfold touch, group_at. destruct (groups s !! h) as [g|] eqn:E.
  - rewrite E. auto.
  - cbn. rewrite lookup_insert_eq. repeat split.
    intros k Hk. apply lookup_insert_ne. congruence.
Qed.


(** ** Further properties *)

(** X15.  A flush is idempotent: a second [Flush] changes nothing and
    paints nothing, and neither does a flush when no element is pending. *)
Theorem flush_is_idempotent (s : CAIRO_GAL) :
  Flush (Flush s) = Flush s
  /\ painted_since (Flush s) (Flush (Flush s)) = []
  /\ Flush (set_isElementAdded false s) = set_isElementAdded false s.
Proof.
  unfold Flush.
  assert (E : storePath (storePath s) = storePath s)
    by apply storePath_idle, storePath_isElementAdded.
  split; [exact E|]. split.
  - rewrite E. unfold painted_since. apply drop_all.
  - apply storePath_idle. reflexivity.
Qed.

(** The angles of an arc are put in order *)
Lemma swap_if_greater_sym (a b : double) : swap_if_greater a b = swap_if_greater b a.
Proof.
  unfold swap_if_greater.
  destruct (Rlt_dec b a) as [Hba|Hba], (Rlt_dec a b) as [Hab|Hab];
    try reflexivity; [lra|].
  assert (a = b) by lra. subst. reflexivity.
Qed.

Lemma swap_if_greater_ordered (a b : double) :
  (fst (swap_if_greater a b) <= snd (swap_if_greater a b))%R.
Proof.
  unfold swap_if_greater. destruct (Rlt_dec b a); cbn; lra.
Qed.

(** X17.  [DrawArc] and [DrawArcSegment] do not depend on the order in
    which the two angles are given: the smaller one is the start. *)
Theorem arc_angles_commute (aCenterPoint : VECTOR2D)
    (aRadius aStartAngle aEndAngle aWidth : double) (s : CAIRO_GAL) :
  DrawArc aCenterPoint aRadius aStartAngle aEndAngle s
  = DrawArc aCenterPoint aRadius aEndAngle aStartAngle s
  /\ DrawArcSegment aCenterPoint aRadius aStartAngle aEndAngle aWidth s
     = DrawArcSegment aCenterPoint aRadius aEndAngle aStartAngle aWidth s.
Proof.
  unfold DrawArc, DrawArcSegment.
  rewrite (swap_if_greater_sym aStartAngle aEndAngle). split; reflexivity.
Qed.

(** X20.  [GetTarget] after [SetTarget] gives the target set when the
    compositor is valid and the target of before when it is not; after
    [ResizeScreen], which invalidates the compositor, [SetTarget] does
    nothing; after [BeginDrawing] it sets the target. *)
Theorem target_selection (aTarget : RENDER_TARGET) (aWidth aHeight : Z) (s : CAIRO_GAL) :
  GetTarget (SetTarget aTarget s) = (if validCompositor s then aTarget else GetTarget s)
  /\ SetTarget aTarget (ResizeScreen aWidth aHeight s) = ResizeScreen aWidth aHeight s
  /\ GetTarget (SetTarget aTarget (BeginDrawing s)) = aTarget.
Proof.
  assert (Hvalid : validCompositor (BeginDrawing s) = true).
  { unfold BeginDrawing, setCompositor, compositor_SetBuffer.
    destruct (validCompositor (initSurface s)) eqn:E; cbn; [exact E | reflexivity]. }
  repeat split.
  - unfold SetTarget, GetTarget. destruct (validCompositor s); reflexivity.
  - unfold SetTarget, GetTarget. rewrite Hvalid. reflexivity.
Qed.

(** *** Group handles *)

Lemma uwrap_range (z : Z) : 0 <= Int32.uwrap z < 2 ^ 32.
Proof. unfold Int32.uwrap. apply Z.mod_pos_bound. lia. Qed.

Lemma uwrap_small (z : Z) : 0 <= z < 2 ^ 32 -> Int32.uwrap z = z.
Proof. intros Hz. unfold Int32.uwrap. apply Z.mod_small. exact Hz. Qed.

Lemma of_unsigned_range (u : Z) : Int32.in_range (Int32.of_unsigned u).
Proof.
  unfold Int32.of_unsigned, Int32.wrap, Int32.in_range, Int32.min_int, Int32.max_int.
  pose proof (Z.mod_pos_bound (u + 2 ^ 31) (2 ^ 32) ltac:(lia)). lia.
Qed.

Lemma of_unsigned_inj (u v : Z) :
  0 <= u < 2 ^ 32 -> 0 <= v < 2 ^ 32 ->
  Int32.of_unsigned u = Int32.of_unsigned v -> u = v.
Proof.
  unfold Int32.of_unsigned, Int32.wrap. intros Hu Hv E.
  assert (E' : (u + 2 ^ 31) mod 2 ^ 32 = (v + 2 ^ 31) mod 2 ^ 32) by lia.
  clear E.
  destruct (Z_lt_ge_dec u (2 ^ 31)) as [Hu1|Hu1], (Z_lt_ge_dec v (2 ^ 31)) as [Hv1|Hv1].
  - rewrite !Z.mod_small in E' by lia. lia.
  - rewrite (Z.mod_small (u + 2 ^ 31)) in E' by lia.
    replace (v + 2 ^ 31) with (v - 2 ^ 31 + 1 * 2 ^ 32) in E' by lia.
    rewrite Z.mod_add, Z.mod_small in E' by lia. lia.
  - rewrite (Z.mod_small (v + 2 ^ 31)) in E' by lia.
    replace (u + 2 ^ 31) with (u - 2 ^ 31 + 1 * 2 ^ 32) in E' by lia.
    rewrite Z.mod_add, Z.mod_small in E' by lia. lia.
  - replace (u + 2 ^ 31) with (u - 2 ^ 31 + 1 * 2 ^ 32) in E' by lia.
    replace (v + 2 ^ 31) with (v - 2 ^ 31 + 1 * 2 ^ 32) in E' by lia.
    rewrite !Z.mod_add, !Z.mod_small in E' by lia. lia.
Qed.

Lemma first_free_Some (fuel : nat) (table : gmap Z GROUP) :
  forall counter found : Z,
    0 <= counter < 2 ^ 32 ->
    first_free fuel table counter = Some found ->
    table !! Int32.of_unsigned found = None /\ 0 <= found < 2 ^ 32.
Proof.
  induction fuel as [|fuel IH]; intros counter found Hc; [discriminate|].
  cbn [first_free].
  destruct (table !! Int32.of_unsigned counter) eqn:E.
  - apply IH, uwrap_range.
  - intros [= <-]. auto.
Qed.

Lemma first_free_None (fuel : nat) (table : gmap Z GROUP) :
  forall counter : Z,
    0 <= counter < 2 ^ 32 ->
    first_free fuel table counter = None ->
    forall i : nat, (i < fuel)%nat ->
      is_Some (table !! Int32.of_unsigned (Int32.uwrap (counter + Z.of_nat i))).
Proof.
  induction fuel as [|fuel IH]; intros counter Hc Hnone i Hi; [lia|].
  cbn [first_free] in Hnone.
  destruct (table !! Int32.of_unsigned counter) eqn:E; [|discriminate].
  destruct i as [|i].
  - rewrite Z.add_0_r, uwrap_small by exact Hc. rewrite E. eauto.
  - specialize (IH _ (uwrap_range (counter + 1)) Hnone i ltac:(lia)).
    replace (Int32.uwrap (counter + Z.of_nat (S i)))
      with (Int32.uwrap (Int32.uwrap (counter + 1) + Z.of_nat i)); [exact IH|].
    unfold Int32.uwrap. rewrite Zplus_mod_idemp_l. f_equal. lia.
Qed.

Lemma uwrap_offsets_inj (counter : Z) (i j : nat) :
  Z.of_nat i < 2 ^ 32 -> Z.of_nat j < 2 ^ 32 ->
  Int32.uwrap (counter + Z.of_nat i) = Int32.uwrap (counter + Z.of_nat j) -> i = j.
Proof.
  unfold Int32.uwrap. intros Hi Hj E.
  assert (D : (Z.of_nat i - Z.of_nat j) mod 2 ^ 32 = 0).
  { replace (Z.of_nat i - Z.of_nat j)
      with ((counter + Z.of_nat i) - (counter + Z.of_nat j)) by lia.
    rewrite Zminus_mod, E, Z.sub_diag. reflexivity. }
  apply Z.mod_divide in D; [|lia]. destruct D as [k Hk].
  assert (k = 0) by nia. lia.
Qed.

(** With fewer groups than counters, the search finds a free handle. *)
Lemma first_free_finds (table : gmap Z GROUP) (counter : Z) :
  0 <= counter < 2 ^ 32 ->
  Z.of_nat (size table) < 2 ^ 32 - 1 ->
  exists found : Z, first_free (S (size table)) table counter = Some found.
Proof.
  intros Hc Hsize.
  destruct (first_free (S (size table)) table counter) as [found|] eqn:E; [eauto|].
  exfalso.
  pose proof (first_free_None _ _ _ Hc E) as Hall.
  set (keys := (fun i : nat => Int32.of_unsigned (Int32.uwrap (counter + Z.of_nat i)))
                 <$> seq 0 (S (size table))).
  assert (Hnodup : NoDup keys).
  { apply NoDup_fmap_2_strong; [|apply NoDup_seq].
    intros i j Hi Hj Eij. apply elem_of_seq in Hi, Hj.
    apply of_unsigned_inj in Eij; try apply uwrap_range.
    apply (uwrap_offsets_inj counter); [lia | lia | exact Eij]. }
  assert (Hsub : (list_to_set keys : gset Z) ⊆ dom table).
  { intros k Hk. apply elem_of_list_to_set in Hk. unfold keys in Hk.
    apply list_elem_of_fmap in Hk. destruct Hk as (i & -> & Hi).
    apply elem_of_seq in Hi. apply elem_of_dom. apply Hall. lia. }
  apply subseteq_size in Hsub.
  rewrite size_list_to_set in Hsub by exact Hnodup.
  rewrite size_dom in Hsub. unfold keys in Hsub.
  rewrite length_fmap, length_seq in Hsub. lia.
Qed.

Lemma storePath_size (s : CAIRO_GAL) : size (groups (storePath s)) = size (groups s).
Proof.
  rewrite storePath_groups. rewrite <- !size_dom.
  rewrite dom_alter_L. reflexivity.
Qed.

Lemma storePath_groupCounter (s : CAIRO_GAL) : groupCounter (storePath s) = groupCounter s.
Proof. unfold storePath. by_flags; reflexivity. Qed.

Lemma initSurface_groupCounter (s : CAIRO_GAL) : groupCounter (initSurface s) = groupCounter s.
Proof. unfold initSurface. destruct (isInitialized s); reflexivity. Qed.

Lemma initSurface_isInitialized (s : CAIRO_GAL) : isInitialized (initSurface s) = true.
Proof. unfold initSurface. destruct (isInitialized s) eqn:E; [exact E | reflexivity]. Qed.

(** X22.  [BeginGroup] on a table with room for a group (fewer than
    2^32 - 1 of them) does not stop on the assertion: it returns a handle,
    in the range of [int], that named no group after the flush, registers
    an empty group under it, makes it the current group, and leaves the
    GAL grouping, its surface initialised. *)
Theorem begin_group_gives_fresh_handle (s : CAIRO_GAL) :
  0 <= groupCounter s < 2 ^ 32 ->
  Z.of_nat (size (groups s)) < 2 ^ 32 - 1 ->
  let f := storePath (initSurface s) in
  exists (h : Z) (s' : CAIRO_GAL),
    BeginGroup s = Ok (h, s')
    /\ groups f !! h = None
    /\ groups s' = <[h := []]> (groups f)
    /\ currentGroup s' = h
    /\ isGrouping s' = true
    /\ isInitialized s' = true
    /\ Int32.in_range h.
Proof.
  intros Hc Hsize f.
  assert (Hcf : 0 <= groupCounter f < 2 ^ 32).
  { unfold f. rewrite storePath_groupCounter, initSurface_groupCounter. exact Hc. }
  assert (Hsf : Z.of_nat (size (groups f)) < 2 ^ 32 - 1).
  { unfold f. rewrite storePath_size, initSurface_groups. exact Hsize. }
  destruct (first_free_finds (groups f) (groupCounter f) Hcf Hsf) as (found & Hfound).
  destruct (first_free_Some _ _ _ _ Hcf Hfound) as (Hfree & Hrange).
  unfold BeginGroup, getNewGroupNumber. fold f.
  apply Z.ltb_lt in Hsf. rewrite Hsf. cbn [negb]. rewrite Hfound.
  eexists _, _. split; [reflexivity|].
  split; [exact Hfree|].
  assert (Ht : groups (set_groupCounter (Int32.uwrap (found + 1)) f)
               !! Int32.of_unsigned found = None) by exact Hfree.
  repeat split.
  - cbn [groups set_isGrouping set_currentGroup]. rewrite (touch_absent _ _ Ht).
    reflexivity.
  - cbn [isInitialized set_isGrouping set_currentGroup]. rewrite (touch_absent _ _ Ht).
    cbn. unfold f.
    destruct (storePath_frame (initSurface s)) as (_ & -> & _).
    apply initSurface_isInitialized.
  - apply of_unsigned_range.
  - apply of_unsigned_range.
Qed.

Lemma destroy_paths_cairoPaths (l : GROUP) (s : CAIRO_GAL) (p : nat) :
  cairoPaths (destroy_paths l s) !! p
  = if decide (p ∈ paths_of l) then None else cairoPaths s !! p.
Proof.
  unfold destroy_paths. revert s. induction l as [|e l IH]; intros s.
  - cbn. rewrite decide_False by apply not_elem_of_nil. reflexivity.
  - cbn [fold_left]. rewrite IH. unfold paths_of. cbn [flat_map].
    fold (paths_of l).
    assert (Hpath : forall q : nat,
              (if decide (p ∈ paths_of l) then None
               else cairoPaths (cairo_path_destroy q s) !! p)
              = if decide (p ∈ q :: paths_of l) then None else cairoPaths s !! p).
    { intros q. unfold cairo_path_destroy. cbn [cairoPaths set_cairoPaths].
      destruct (decide (p ∈ paths_of l)) as [Hin|Hout].
      - rewrite decide_True by (right; exact Hin). reflexivity.
      - destruct (decide (q = p)) as [->|Hne].
        + rewrite decide_True by left. apply lookup_delete_eq.
        + rewrite decide_False
            by (intros Hq; apply elem_of_cons in Hq; destruct Hq; congruence).
          apply lookup_delete_ne. exact Hne. }
    destruct e; cbn [app]; first [apply Hpath | reflexivity].
Qed.

Lemma group_at_touch (h : Z) (s : CAIRO_GAL) : group_at h (touch h s) = group_at h s.
Proof.
  destruct (touch_lookup h s) as (Hh & _). unfold group_at at 1. rewrite Hh. reflexivity.
Qed.

Lemma delete_touch (h : Z) (s : CAIRO_GAL) :
  delete h (groups (touch h s)) = delete h (groups s).
Proof.
  unfold touch. destruct (groups s !! h); [reflexivity|].
  cbn. apply delete_insert_eq.
Qed.

Lemma DeleteGroup_groups (h : Z) (s : CAIRO_GAL) :
  groups (DeleteGroup h s) = delete h (groups (storePath s)).
Proof.
  unfold DeleteGroup. cbn [groups set_groups].
  rewrite destroy_paths_groups. apply delete_touch.
Qed.

Lemma DeleteGroup_cairoPaths (h : Z) (s : CAIRO_GAL) (p : nat) :
  cairoPaths (DeleteGroup h s) !! p
  = if decide (p ∈ paths_of (group_at h (storePath s))) then None
    else cairoPaths (storePath s) !! p.
Proof.
  unfold DeleteGroup. cbn [cairoPaths set_groups].
  rewrite destroy_paths_cairoPaths, group_at_touch.
  destruct (touch_lookup h (storePath s)) as (_ & _ & ->). reflexivity.
Qed.

(** X24.  [DeleteGroup] flushes, destroys the path objects that the
    commands of the group hold, and no others, and erases the group: the
    handle names no group afterwards and the other groups are as the
    flush left them. *)
Theorem delete_group_releases_its_paths (aGroupNumber : Z) (s : CAIRO_GAL) :
  let f := storePath s in
  let s' := DeleteGroup aGroupNumber s in
  groups s' = delete aGroupNumber (groups f)
  /\ groups s' !! aGroupNumber = None
  /\ Forall (fun p => cairoPaths s' !! p = None) (paths_of (group_at aGroupNumber f))
  /\ (forall p : nat, p ∉ paths_of (group_at aGroupNumber f) ->
        cairoPaths s' !! p = cairoPaths f !! p).
Proof.
  intros f s'. split; [apply DeleteGroup_groups|]. split; [|split].
  - unfold s'. rewrite DeleteGroup_groups. apply lookup_delete_eq.
  - apply Forall_forall. intros p Hp. unfold s'.
    rewrite DeleteGroup_cairoPaths. fold f. rewrite decide_True by exact Hp. reflexivity.
  - intros p Hp. unfold s'. rewrite DeleteGroup_cairoPaths. fold f.
    rewrite decide_False by exact Hp. reflexivity.
Qed.

Lemma storePath_outside_group (s : CAIRO_GAL) :
  isGrouping s = false ->
  groups (storePath s) = groups s /\ cairoPaths (storePath s) = cairoPaths s.
Proof.
  intros Hg. unfold storePath. by_flags; auto.
Qed.

Lemma initSurface_frame (s : CAIRO_GAL) :
  isGrouping (initSurface s) = isGrouping s
  /\ cairoPaths (initSurface s) = cairoPaths s.
Proof. unfold initSurface. destruct (isInitialized s); auto. Qed.

(** X23.  A group begun outside a group, ended and deleted.  The handle
    that [BeginGroup] returns named no group; the group is empty when it
    is begun and still when it is ended at once; after [DeleteGroup] the
    table of groups and the path objects are as before [BeginGroup]. *)
Theorem group_round_trip (s s1 : CAIRO_GAL) (h : Z) :
  isGrouping s = false ->
  BeginGroup s = Ok (h, s1) ->
  groups s !! h = None
  /\ groups s1 = <[h := []]> (groups s)
  /\ groups (EndGroup s1) = <[h := []]> (groups s)
  /\ groups (DeleteGroup h (EndGroup s1)) = groups s
  /\ cairoPaths (DeleteGroup h (EndGroup s1)) = cairoPaths s.
Proof.
  intros Hg. unfold BeginGroup, getNewGroupNumber.
  set (f := storePath (initSurface s)).
  destruct (initSurface_frame s) as (Hgi & Hpi).
  assert (Hgi' : isGrouping (initSurface s) = false) by congruence.
  destruct (storePath_outside_group _ Hgi') as (Hgf & Hpf). fold f in Hgf, Hpf.
  rewrite initSurface_groups in Hgf. rewrite Hpi in Hpf.
  destruct (negb (Z.of_nat (size (groups f)) <? 2 ^ 32 - 1)); [discriminate|].
  destruct (first_free _ _ _) as [counter|] eqn:Efree; [|discriminate].
  intros E.
  assert (Eh : h = Int32.of_unsigned counter) by congruence.
  assert (E1 : s1 = set_isGrouping true
                      (set_currentGroup h
                         (touch h (set_groupCounter (Int32.uwrap (counter + 1)) f))))
    by congruence.
  clear E.
  assert (Hfree : groups s !! h = None).
  { rewrite <- Hgf, Eh.
    clear - Efree. revert Efree. generalize (groupCounter f).
    induction (S (size (groups f))) as [|fuel IH]; intros c; [discriminate|].
    cbn [first_free]. destruct (groups f !! Int32.of_unsigned c) eqn:E.
    - apply IH.
    - intros [= <-]. exact E. }
  assert (Hg1 : groups s1 = <[h := []]> (groups s)).
  { rewrite E1. cbn [groups set_isGrouping set_currentGroup].
    rewrite touch_absent by (cbn; rewrite Hgf; exact Hfree).
    cbn. rewrite Hgf. reflexivity. }
  assert (Hp1 : cairoPaths s1 = cairoPaths s).
  { rewrite E1. cbn [cairoPaths set_isGrouping set_currentGroup].
    destruct (touch_lookup h (set_groupCounter (Int32.uwrap (counter + 1)) f))
      as (_ & _ & ->). exact Hpf. }
  assert (Hadded : isElementAdded s1 = false).
  { rewrite E1. cbn [isElementAdded set_isGrouping set_currentGroup].
    rewrite touch_isElementAdded. cbn. apply storePath_isElementAdded. }
  assert (Hend : EndGroup s1 = deinitSurface (set_isGrouping false s1)).
  { unfold EndGroup. rewrite (storePath_idle _ Hadded). reflexivity. }
  assert (Hge : groups (EndGroup s1) = <[h := []]> (groups s)).
  { rewrite Hend, deinitSurface_groups. exact Hg1. }
  assert (Hae : isElementAdded (EndGroup s1) = false).
  { rewrite Hend. unfold deinitSurface.
    destruct (negb (isInitialized (set_isGrouping false s1))); exact Hadded. }
  assert (Hpe : cairoPaths (EndGroup s1) = cairoPaths s).
  { rewrite Hend. unfold deinitSurface.
    destruct (negb (isInitialized (set_isGrouping false s1))); exact Hp1. }
  split; [exact Hfree|]. split; [exact Hg1|]. split; [exact Hge|]. split.
  - rewrite DeleteGroup_groups, (storePath_idle _ Hae), Hge.
    apply delete_insert_id. exact Hfree.
  - apply map_eq. intros p. rewrite DeleteGroup_cairoPaths, (storePath_idle _ Hae).
    unfold group_at. rewrite Hge, lookup_insert_eq. cbn.
    rewrite decide_False by apply not_elem_of_nil. rewrite Hpe. reflexivity.
Qed.

Lemma run_elements_flat_total (call : Z -> CAIRO_GAL -> option CAIRO_GAL) (l : GROUP) :
  flat l = true -> forall s : CAIRO_GAL, exists s', run_elements call l s = Some s'.
Proof.
  induction l as [|e l IH]; intros Hflat s; [eexists; reflexivity|].
  cbn [flat forallb] in Hflat. apply andb_true_iff in Hflat. destruct Hflat as [He Hl].
  cbn [run_elements].
  destruct (run_element_flat_total call e s) as (t & ->).
  - apply negb_true_iff. exact He.
  - apply IH. exact Hl.
Qed.

(** X26.  In a state that interface calls reach from a constructed
    CAIRO_GAL no group holds a call of another group (no member function
    records one), so that the replay of any handle returns without
    recursion: a depth of one is enough. *)
Theorem replay_needs_no_recursion (s : CAIRO_GAL) (aGroupNumber : Z) :
  reachable s ->
  all_flat s
  /\ exists s' : CAIRO_GAL, exec 1 (CallDrawGroup aGroupNumber) s = Returns s'.
Proof.
  intros (parentSize & raw & fuel & cs & Hrun).
  assert (Hflat : all_flat s)
    by exact (exec_all_flat fuel cs _ _ (ctor_flat parentSize raw) Hrun).
  split; [exact Hflat|].
  set (t := touch aGroupNumber (storePath s)).
  change (exec 1 (CallDrawGroup aGroupNumber) s)
    with (match run_elements (DrawGroup 0) (group_at aGroupNumber t) t with
          | Some s => Returns s
          | None => TooDeep
          end).
  assert (Ht : all_flat t) by apply touch_flat, storePath_flat, Hflat.
  assert (Hg : flat (group_at aGroupNumber t) = true).
  { unfold group_at. destruct (groups t !! aGroupNumber) as [g|] eqn:E; [|reflexivity].
    exact (Ht _ _ E). }
  destruct (run_elements_flat_total (DrawGroup 0) _ Hg t) as (s' & ->).
  eauto.
Qed.

Lemma recolor_recolor (c1 c2 : COLOR4D) (e : GROUP_ELEMENT) :
  recolor c2 (recolor c1 e) = recolor c2 e.
Proof. destruct e; reflexivity. Qed.

Lemma set_groups_set_groups (m1 m2 : gmap Z GROUP) (s : CAIRO_GAL) :
  set_groups m2 (set_groups m1 s) = set_groups m2 s.
Proof. reflexivity. Qed.

(** X27.  Two changes of the colour of a group in a row are the last one
    alone: [ChangeGroupColor] with [c2] after [ChangeGroupColor] with [c1]
    gives the state that [ChangeGroupColor] with [c2] gives. *)
Theorem change_group_color_last_wins (aGroupNumber : Z) (c1 c2 : COLOR4D)
    (s : CAIRO_GAL) :
  ChangeGroupColor aGroupNumber c2 (ChangeGroupColor aGroupNumber c1 s)
  = ChangeGroupColor aGroupNumber c2 s.
Proof.
  set (s1 := ChangeGroupColor aGroupNumber c1 s).
  set (t := touch aGroupNumber (storePath s)).
  assert (E1 : s1 = set_groups (alter (map (recolor c1)) aGroupNumber (groups t)) t)
    by reflexivity.
  assert (Hidle : storePath s1 = s1).
  { apply storePath_idle. rewrite E1, isElementAdded_set_groups. unfold t.
    rewrite touch_isElementAdded. apply storePath_isElementAdded. }
  destruct (touch_lookup aGroupNumber (storePath s)) as (Hh & _). fold t in Hh.
  assert (Htouch : touch aGroupNumber s1 = s1).
  { unfold touch. rewrite E1. cbn [groups set_groups].
    rewrite lookup_alter_eq, Hh. reflexivity. }
  unfold ChangeGroupColor at 1. fold s1. rewrite Hidle, Htouch.
  rewrite E1. cbn [groups set_groups]. rewrite set_groups_set_groups.
  unfold ChangeGroupColor. fold t. f_equal.
  rewrite alter_alter_eq. apply alter_ext. intros g _. cbn.
  rewrite map_map. apply map_ext. intros e. apply recolor_recolor.
Qed.

Lemma storePath_is_Some (s : CAIRO_GAL) (k : Z) :
  is_Some (groups (storePath s) !! k) <-> is_Some (groups s !! k).
Proof.
  rewrite storePath_groups, <- !elem_of_dom, dom_alter_L. reflexivity.
Qed.

(** Deleting the handles [n - 1] down to 0 of a table whose handles are
    [0 .. n - 1] leaves no group. *)
Lemma delete_down_dense (n : nat) :
  forall s : CAIRO_GAL,
    (forall k : Z, is_Some (groups s !! k) <-> 0 <= k < Z.of_nat n) ->
    groups (delete_down n s) = ∅.
Proof.
  induction n as [|n IH]; intros s Hdom.
  - cbn [delete_down]. apply map_empty. intros k.
    apply eq_None_not_Some. rewrite Hdom. lia.
  - cbn [delete_down]. apply IH. intros k.
    rewrite DeleteGroup_groups.
    destruct (decide (k = Z.of_nat n)) as [->|Hne].
    + rewrite lookup_delete_eq. split; [intros [? [=]] | lia].
    + rewrite lookup_delete_ne by congruence.
      rewrite storePath_is_Some, Hdom. lia.
Qed.

Lemma DeleteGroup_isElementAdded (h : Z) (s : CAIRO_GAL) :
  isElementAdded (DeleteGroup h s) = false.
Proof.
  unfold DeleteGroup. rewrite isElementAdded_set_groups.
  assert (Hd : forall l t, isElementAdded (destroy_paths l t) = isElementAdded t).
  { unfold destroy_paths. induction l as [|e l IHl]; intros t; [reflexivity|].
    cbn [fold_left]. rewrite IHl. destruct e; reflexivity. }
  rewrite Hd, touch_isElementAdded. apply storePath_isElementAdded.
Qed.

(** Once no element is pending, deleting groups only destroys paths: a
    path that a group of the table holds is gone when the handles
    [n - 1 .. 0] have been deleted. *)
Lemma delete_down_paths (n : nat) :
  forall (s : CAIRO_GAL) (p : nat),
    isElementAdded s = false ->
    (forall k : Z, is_Some (groups s !! k) -> 0 <= k < Z.of_nat n) ->
    (exists (k : Z) (g : GROUP), groups s !! k = Some g /\ p ∈ paths_of g) ->
    cairoPaths (delete_down n s) !! p = None.
Proof.
  assert (Hgone : forall (m : nat) (s : CAIRO_GAL) (p : nat),
            isElementAdded s = false ->
            cairoPaths s !! p = None -> cairoPaths (delete_down m s) !! p = None).
  { induction m as [|m IH]; intros s p Hidle Hp; [exact Hp|].
    cbn [delete_down]. apply IH.
    - apply DeleteGroup_isElementAdded.
    - rewrite DeleteGroup_cairoPaths, (storePath_idle _ Hidle), Hp.
      destruct (decide _); reflexivity. }
  induction n as [|n IH]; intros s p Hidle Hdom (k & g & Hk & Hp).
  - exfalso. specialize (Hdom k (ex_intro _ g Hk)). lia.
  - cbn [delete_down].
    assert (Hidle' : isElementAdded (DeleteGroup (Z.of_nat n) s) = false)
      by apply DeleteGroup_isElementAdded.
    destruct (decide (k = Z.of_nat n)) as [->|Hne].
    + apply Hgone; [exact Hidle'|].
      rewrite DeleteGroup_cairoPaths, (storePath_idle _ Hidle).
      unfold group_at. rewrite Hk. cbn. rewrite decide_True by exact Hp. reflexivity.
    + apply IH; [exact Hidle'| |].
      * intros j. rewrite DeleteGroup_groups, (storePath_idle _ Hidle).
        destruct (decide (j = Z.of_nat n)) as [->|Hj].
        -- rewrite lookup_delete_eq. intros [? [=]].
        -- rewrite lookup_delete_ne by congruence. intros Hs.
           specialize (Hdom j Hs). lia.
      * exists k, g. split; [|exact Hp].
        rewrite DeleteGroup_groups, (storePath_idle _ Hidle).
        rewrite lookup_delete_ne by congruence. exact Hk.
Qed.

(** X25.  On a table whose handles are 0 .. size - 1, [ClearCache]
    leaves no group; when no element is pending, every path object that a
    group held is destroyed. *)
Theorem clear_cache_empties_dense_table (s : CAIRO_GAL) :
  dense (groups s) ->
  groups (ClearCache s) = ∅
  /\ (isElementAdded s = false ->
      forall (k : Z) (g : GROUP), groups s !! k = Some g ->
        Forall (fun p => cairoPaths (ClearCache s) !! p = None) (paths_of g)).
Proof.
  intros Hdense. unfold ClearCache. split.
  - apply delete_down_dense. exact Hdense.
  - intros Hidle k g Hk. apply Forall_forall. intros p Hp.
    apply delete_down_paths; [exact Hidle| |eauto].
    intros j Hj. apply Hdense. exact Hj.
Qed.

(** *** Primitives *)

Lemma flushPath_paints (s : CAIRO_GAL) :
  surface (currentContext (flushPath s))
  = surface (currentContext s) ++ flush_path_paints s
  /\ path (currentContext (flushPath s))
     = (if isFillEnabled s || isStrokeEnabled s then [] else path (currentContext s))
  /\ groups (flushPath s) = groups s
  /\ matrix (currentContext (flushPath s)) = matrix (currentContext s).
Proof.
  unfold flushPath, flush_path_paints.
  by_flags; rewrite <- ?app_assoc, ?app_nil_r;
    unfold the_fill, the_stroke, source_rgba, cairo_set_source_rgba, source, line_width,
           matrix; cbn; rewrite ?COLOR4D_eta; repeat split; reflexivity.
Qed.

Lemma painted_since_app (s t : CAIRO_GAL) (l : list (nat * paint)) :
  surface (currentContext t) = surface (currentContext s) ++ l ->
  painted_since s t = l.
Proof. intros E. unfold painted_since. rewrite E. apply drop_app_length. Qed.

(** X16.  [DrawLine] paints at once: the line is added to the current
    path, which is filled with the fill colour if filling is enabled and
    then stroked with the stroke colour if stroking is, both with their
    alpha; the path is left empty when it was painted, the element is
    marked as added, and no group changes, inside a group or outside. *)
Theorem line_is_painted_at_once (aStartPoint aEndPoint : VECTOR2D) (s : CAIRO_GAL) :
  let c := currentContext s in
  let drawn := path c ++ [MoveTo (matrix c) (vx aStartPoint) (vy aStartPoint);
                          LineTo (matrix c) (vx aEndPoint) (vy aEndPoint)] in
  let s' := DrawLine aStartPoint aEndPoint s in
  painted_since s s'
  = (if isFillEnabled s then [(target c, Fill drawn (fillColor s))] else [])
    ++ (if isStrokeEnabled s
        then [(target c, Stroke drawn (strokeColor s) (line_width c) (matrix c)
                                (g_line_join (gs c)) (g_line_cap (gs c)))]
        else [])
  /\ path (currentContext s')
     = (if isFillEnabled s || isStrokeEnabled s then [] else drawn)
  /\ isElementAdded s' = true
  /\ groups s' = groups s.
Proof.
  intros c drawn s'. unfold s', DrawLine. cbv zeta.
  set (t := on_context (cairo_line_to (vx aEndPoint) (vy aEndPoint))
              (on_context (cairo_move_to (vx aStartPoint) (vy aStartPoint)) s)).
  destruct (flushPath_paints t) as (Hs & Hp & Hg & _).
  assert (Ht : path (currentContext t) = drawn).
  { unfold t, drawn, c, on_context, cairo_line_to, cairo_move_to, add_path. cbn.
    rewrite <- app_assoc. reflexivity. }
  split; [|split; [|split]].
  - apply painted_since_app. cbn [currentContext set_isElementAdded]. rewrite Hs.
    unfold flush_path_paints. rewrite Ht. reflexivity.
  - cbn [currentContext set_isElementAdded]. rewrite Hp, Ht. reflexivity.
  - reflexivity.
  - cbn [groups set_isElementAdded]. rewrite Hg. reflexivity.
Qed.

(** *** The polylines *)

Lemma on_context_append_nil (s : CAIRO_GAL) :
  on_context (cairo_append_path []) s = s.
Proof.
  unfold on_context, cairo_append_path, set_path. rewrite app_nil_r.
  destruct s. cbn. destruct currentContext0. reflexivity.
Qed.

Lemma fold_line_to (points : list VECTOR2D) (s : CAIRO_GAL) :
  let m := matrix (currentContext s) in
  fold_left (fun s it => on_context (cairo_line_to (vx it) (vy it)) s) points s
  = on_context (cairo_append_path (map (fun q => LineTo m (vx q) (vy q)) points)) s.
Proof.
  cbv zeta. revert s. induction points as [|q points IH]; intros s.
  - cbn [fold_left map]. symmetry. apply on_context_append_nil.
  - cbn [fold_left map]. rewrite IH.
    unfold on_context, cairo_append_path, cairo_line_to, add_path, set_path. cbn.
    rewrite <- app_assoc. reflexivity.
Qed.

Lemma array_lines_reads (aPointList : list VECTOR2D) (count : nat) :
  forall (ptr : nat) (s : CAIRO_GAL),
    array_lines aPointList count ptr s
    = if (ptr + count <? length aPointList)%nat || (count =? 0)%nat
      then Some (on_context
                   (cairo_append_path
                      (map (fun q => LineTo (matrix (currentContext s)) (vx q) (vy q))
                           (firstn count (skipn (S ptr) aPointList)))) s)
      else None.
Proof.
  induction count as [|count IH]; intros ptr s.
  - cbn [array_lines firstn map]. rewrite orb_true_r, on_context_append_nil. reflexivity.
  - cbn [array_lines]. rewrite orb_false_r.
    destruct (nth_error aPointList (S ptr)) as [p|] eqn:E.
    + rewrite IH.
      assert (Hlt : (S ptr < length aPointList)%nat)
        by (apply nth_error_Some; congruence).
      assert (Hskip : skipn (S ptr) aPointList = p :: skipn (S (S ptr)) aPointList).
      { clear - E. revert E. generalize (S ptr). intros n. revert aPointList.
        induction n as [|n IH]; intros [|x l]; try discriminate.
        - intros [= ->]. reflexivity.
        - cbn [nth_error]. intros E. cbn [skipn]. rewrite (IH l E). reflexivity. }
      rewrite Hskip. cbn [firstn map].
      destruct (Nat.ltb_spec (ptr + S count) (length aPointList)) as [Hin|Hout].
      * assert (Hin2 : (S ptr + count <? length aPointList)%nat = true)
          by (apply Nat.ltb_lt; lia).
        rewrite Hin2. cbn [orb]. f_equal.
        unfold on_context, cairo_append_path, cairo_line_to, add_path, set_path. cbn.
        rewrite <- app_assoc. reflexivity.
      * assert (Hout2 : (S ptr + count <? length aPointList)%nat = false)
          by (apply Nat.ltb_ge; lia).
        rewrite Hout2. cbn [orb].
        destruct count as [|count]; [lia | reflexivity].
    + apply nth_error_None in E.
      assert (Hout : (ptr + S count <? length aPointList)%nat = false)
        by (apply Nat.ltb_ge; lia).
      rewrite Hout. reflexivity.
Qed.

(** X18.  The bounds of the polylines.  [drawPoly] on a deque reads the
    first point without a test: it is defined on the non-empty lists
    only.  [drawPoly] on an array and a size reads the points at the
    indices 0 .. aListSize: it is defined exactly when the array has more
    than [aListSize] elements.  With filling and stroking disabled, each
    leaves the path extended by a move to the first point read and a line
    to each of the others. *)
Theorem polyline_bounds (aPointList : list VECTOR2D) (aListSize : Z) (s : CAIRO_GAL) :
  (drawPoly_deque aPointList s = None <-> aPointList = [])
  /\ (drawPoly_array aPointList aListSize s = None
      <-> (length aPointList <= Z.to_nat aListSize)%nat)
  /\ (isFillEnabled s = false -> isStrokeEnabled s = false ->
      forall s' : CAIRO_GAL,
        (drawPoly_deque aPointList s = Some s' ->
         path (currentContext s')
         = path (currentContext s) ++ polyline (matrix (currentContext s)) aPointList)
        /\ (drawPoly_array aPointList aListSize s = Some s' ->
            path (currentContext s')
            = path (currentContext s)
              ++ polyline (matrix (currentContext s))
                          (firstn (S (Z.to_nat aListSize)) aPointList))).
Proof.
  split; [|split].
  - unfold drawPoly_deque. destruct aPointList; split; congruence.
  - unfold drawPoly_array. destruct aPointList as [|p rest].
    + cbn. split; [lia | reflexivity].
    + cbn [nth_error]. rewrite array_lines_reads. cbn [Nat.add length].
      destruct (Z.to_nat aListSize) as [|n] eqn:En.
      * cbn. split; [discriminate | lia].
      * rewrite orb_false_r.
        destruct (Nat.ltb_spec (S n) (S (length rest))); split;
          first [discriminate | lia | reflexivity].
  - intros Hf Hs s'. split.
    + unfold drawPoly_deque. destruct aPointList as [|p rest]; [discriminate|].
      intros [= <-]. rewrite fold_line_to.
      cbn [currentContext set_isElementAdded].
      match goal with |- context [flushPath ?t] =>
        destruct (flushPath_paints t) as (_ & Hp & _) end.
      rewrite Hp.
      unfold on_context, cairo_append_path, cairo_move_to, add_path, set_path. cbn.
      rewrite Hf, Hs. cbn. rewrite <- app_assoc. reflexivity.
    + unfold drawPoly_array. destruct aPointList as [|p rest]; [discriminate|].
      cbn [nth_error]. rewrite array_lines_reads.
      destruct (_ || _); [|discriminate]. intros [= <-].
      cbn [currentContext set_isElementAdded].
      match goal with |- context [flushPath ?t] =>
        destruct (flushPath_paints t) as (_ & Hp & _) end.
      rewrite Hp.
      unfold on_context, cairo_append_path, cairo_move_to, add_path, set_path. cbn.
      rewrite Hf, Hs. cbn. rewrite <- app_assoc. reflexivity.
Qed.

Lemma wrap_small (z : Z) : - 2 ^ 31 <= z <= 2 ^ 31 - 1 -> Int32.wrap z = z.
Proof. intros Hz. apply wrap_in_range. exact Hz. Qed.

Lemma triple_rem (w : Z) : 0 <= w -> (Z.rem (w * 3) 4 =? 0) = (w mod 4 =? 0).
Proof.
  intros Hw. rewrite Z.rem_mod_nonneg by lia.
  pose proof (Z.mod_pos_bound w 4 ltac:(lia)) as Hb.
  pose proof (Z.div_mod w 4 ltac:(lia)) as Hd.
  replace (w * 3) with (w mod 4 * 3 + (3 * (w / 4)) * 4) by lia.
  rewrite Z.mod_add by lia.
  assert (Hc : w mod 4 = 0 \/ w mod 4 = 1 \/ w mod 4 = 2 \/ w mod 4 = 3) by lia.
  destruct Hc as [-> | [-> | [-> | ->]]]; reflexivity.
Qed.

Lemma pad_width_step (fuel : nat) (w : Z) :
  0 <= w -> 3 * w <= 2 ^ 31 - 1 ->
  pad_width (S fuel) w = if w mod 4 =? 0 then Some w else pad_width fuel (w + 1).
Proof.
  intros H0 H1. cbn [pad_width]. unfold Int32.mul, Int32.add.
  rewrite (wrap_small (w * 3)) by lia. rewrite triple_rem by lia.
  destruct (w mod 4 =? 0); cbn [negb]; [reflexivity|].
  rewrite (wrap_small (w + 1)) by lia. reflexivity.
Qed.

Lemma pad_width_search (fuel : nat) :
  forall w : Z,
    0 <= w -> 3 * (w + Z.of_nat fuel) <= 2 ^ 31 - 1 ->
    (Z.of_nat fuel > (4 - w mod 4) mod 4) ->
    pad_width fuel w = Some (w + (4 - w mod 4) mod 4).
Proof.
  induction fuel as [|fuel IH]; intros w H0 H1 Hfuel.
  - pose proof (Z.mod_pos_bound (4 - w mod 4) 4 ltac:(lia)). lia.
  - rewrite pad_width_step by lia.
    pose proof (Z.mod_pos_bound w 4 ltac:(lia)) as Hb.
    destruct (w mod 4 =? 0) eqn:E.
    + apply Z.eqb_eq in E. rewrite E. change ((4 - 0) mod 4) with 0.
      rewrite Z.add_0_r. reflexivity.
    + apply Z.eqb_neq in E.
      assert (Hn : (w + 1) mod 4 = (w mod 4 + 1) mod 4)
        by (rewrite Zplus_mod_idemp_l; reflexivity).
      assert (Hc : w mod 4 = 1 \/ w mod 4 = 2 \/ w mod 4 = 3) by lia.
      assert (Hk : (4 - (w + 1) mod 4) mod 4 + 1 = (4 - w mod 4) mod 4).
      { rewrite Hn. destruct Hc as [-> | [-> | ->]]; reflexivity. }
      rewrite IH by lia. f_equal. lia.
Qed.

(** X28.  The loop of [allocateBitmaps] ends within four tests and rounds
    the width up to the next multiple of four, for a width that is not
    negative and whose triple stays in the range of [int]. *)
Theorem buffer_width_is_padded (width : Z) :
  0 <= width -> 3 * (width + 4) <= Int32.max_int ->
  exists wxBufferWidth : Z,
    pad_width 4 width = Some wxBufferWidth
    /\ width <= wxBufferWidth < width + 4
    /\ wxBufferWidth mod 4 = 0.
Proof.
  unfold Int32.max_int. intros Hw Hmax.
  pose proof (Z.mod_pos_bound width 4 ltac:(lia)) as Hb.
  pose proof (Z.mod_pos_bound (4 - width mod 4) 4 ltac:(lia)) as Hb2.
  exists (width + (4 - width mod 4) mod 4). split; [|split].
  - apply pad_width_search; cbn; lia.
  - lia.
  - rewrite Zplus_mod_idemp_r, <- Zplus_mod_idemp_l.
    assert (Hc : width mod 4 = 0 \/ width mod 4 = 1 \/ width mod 4 = 2 \/ width mod 4 = 3)
      by lia.
    destruct Hc as [-> | [-> | [-> | ->]]]; reflexivity.
Qed.

(** X19.  Outside a group, [Save], a rotation, a translation, a scaling
    and [Restore] leave the state as a flush alone leaves it, the
    transformation included; after the rotation, the transformation is
    the rotation on top of the one before. *)
Theorem save_restore_brackets_transformations (aAngle : double)
    (aTranslation aScale : VECTOR2D) (s : CAIRO_GAL) :
  isGrouping s = false ->
  Restore (Scale aScale (Translate aTranslation (Rotate aAngle (Save s))))
  = Flush s
  /\ matrix (currentContext (Rotate aAngle (Save s)))
     = CtmRotate aAngle :: matrix (currentContext (Flush s)).
Proof.
  intros Hg. unfold Flush.
  destruct (storePath_frame s) as (Hgf & _).
  assert (Hf : isElementAdded (storePath s) = false) by apply storePath_isElementAdded.
  set (f := storePath s) in *.
  assert (Hgf' : isGrouping f = false) by congruence.
  assert (E1 : Save s = on_context cairo_save f).
  { unfold Save. fold f. rewrite Hgf'. reflexivity. }
  assert (E2 : Rotate aAngle (Save s)
               = on_context (cairo_rotate aAngle) (on_context cairo_save f)).
  { rewrite E1. unfold Rotate. rewrite storePath_idle by exact Hf.
    cbn [isGrouping on_context set_currentContext]. rewrite Hgf'. reflexivity. }
  assert (E3 : Translate aTranslation (Rotate aAngle (Save s))
               = on_context (cairo_translate (vx aTranslation) (vy aTranslation))
                   (on_context (cairo_rotate aAngle) (on_context cairo_save f))).
  { rewrite E2. unfold Translate. rewrite storePath_idle by exact Hf.
    cbn [isGrouping on_context set_currentContext]. rewrite Hgf'. reflexivity. }
  assert (E4 : Scale aScale (Translate aTranslation (Rotate aAngle (Save s)))
               = on_context (cairo_scale (vx aScale) (vy aScale))
                   (on_context (cairo_translate (vx aTranslation) (vy aTranslation))
                      (on_context (cairo_rotate aAngle) (on_context cairo_save f)))).
  { rewrite E3. unfold Scale. rewrite storePath_idle by exact Hf.
    cbn [isGrouping on_context set_currentContext]. rewrite Hgf'. reflexivity. }
  split.
  - rewrite E4. unfold Restore. rewrite storePath_idle by exact Hf.
    cbn [isGrouping on_context set_currentContext]. rewrite Hgf'.
    destruct f as [? ? ? ? ? ? ? ? ? ? ? ? ? ? ? ? c]. destruct c as [p g sv t sf].
    destruct g. reflexivity.
  - rewrite E2. reflexivity.
Qed.

(** X21.  [BeginDrawing] leaves the surface initialised and the
    compositor valid.  On a surface that was not initialised it clears the
    screen, filling the rectangle of the screen with the background colour
    made opaque, and on an initialised one it paints nothing; a second
    [BeginDrawing] changes nothing.  [EndDrawing] leaves the surface not
    initialised and no element pending. *)
Theorem drawing_frame (s : CAIRO_GAL) :
  isInitialized (BeginDrawing s) = true
  /\ validCompositor (BeginDrawing s) = true
  /\ BeginDrawing (BeginDrawing s) = BeginDrawing s
  /\ painted_since s (BeginDrawing s)
     = (if isInitialized s then []
        else [(0%nat, Fill [Rectangle [] 0 0 (IZR (ix (screenSize s)))
                                      (IZR (iy (screenSize s)))]
                           (opaque (backgroundColor s)))])
  /\ isInitialized (EndDrawing s) = false
  /\ isElementAdded (EndDrawing s) = false.
Proof.
  assert (Hinit : isInitialized (BeginDrawing s) = true).
  { unfold BeginDrawing, setCompositor, compositor_SetBuffer, initSurface.
    destruct (isInitialized s) eqn:E; cbn; destruct (validCompositor s); cbn;
      first [exact E | reflexivity]. }
  assert (Hvalid : validCompositor (BeginDrawing s) = true).
  { unfold BeginDrawing, setCompositor, compositor_SetBuffer.
    destruct (validCompositor (initSurface s)) eqn:E; cbn; [exact E | reflexivity]. }
  split; [exact Hinit|]. split; [exact Hvalid|]. split; [|split; [|split]].
  - set (t := BeginDrawing s) in *.
    unfold BeginDrawing at 1. unfold initSurface. rewrite Hinit, Hvalid. cbn [negb].
    unfold t, BeginDrawing, compositor_SetBuffer, on_context, set_target.
    destruct (negb (validCompositor (initSurface s))); reflexivity.
  - unfold painted_since, BeginDrawing, setCompositor, compositor_SetBuffer, initSurface.
    destruct (isInitialized s) eqn:E.
    + destruct (negb (validCompositor s)); cbn; apply drop_all.
    + cbn. destruct (negb (validCompositor s)); cbn;
        rewrite drop_app_length; reflexivity.
  - unfold EndDrawing, deinitSurface.
    match goal with
    | |- isInitialized (if negb (isInitialized ?t) then _ else _) = false =>
        destruct (isInitialized t) eqn:E; cbn [negb]; [reflexivity | exact E]
    end.
  - unfold EndDrawing, deinitSurface, Flush, compositor_DrawBuffer.
    match goal with
    | |- isElementAdded (if ?b then _ else _) = false => destruct b
    end; cbn; apply storePath_isElementAdded.
Qed.

End GalProperties.

(** ** The properties on sample runs *)

Section GalExamples.

Import Gal Samples.

#[local] Existing Instance unit_numerics.





(** C6 fails on the code: after the calls of [two_groups_then_clear] the
    live handles are not 0 .. size - 1, and [ClearCache], which deletes
    the handles [size - 1] down to 0, leaves group 1 in the table with
    its path object alive. *)
Theorem clear_cache_leaves_group :
  exists s : CAIRO_GAL,
    exec_all 1 two_groups_then_clear new_gal = Returns s
    /\ groups s = {[ 1 := [CMD_SET_STROKE true; CMD_STROKE_PATH 0] ]}
    /\ cairoPaths s = {[ 0%nat := [] ]}
    /\ groups s <> ∅.
Proof.
  eexists. split; [vm_compute; reflexivity|].
  split; [vm_compute; reflexivity|]. split; [vm_compute; reflexivity|].
  intros E. apply (f_equal (fun m => m !! 1)) in E. vm_compute in E. discriminate E.
Qed.

(** C2 fails on the code.  While a group is recorded, [DrawLine] strokes
    the line at once ([flushPath]) and leaves the path empty, so that the
    flush at [EndGroup] records a stroke-path command that holds an empty
    path: the replay of the group paints nothing, where the same calls
    outside a group paint the line. *)
Theorem grouped_line_is_not_replayed :
  exists recorded ready replayed direct : CAIRO_GAL,
    exec_all 1 (CallBeginGroup :: red_line ++ [CallEndGroup]) new_gal = Returns recorded
    /\ groups recorded
       = {[ 0 := [CMD_SET_FILL false; CMD_SET_STROKE true;
                  CMD_SET_STROKECOLOR 1 0 0 1; CMD_STROKE_PATH 0] ]}
    /\ cairoPaths recorded = {[ 0%nat := [] ]}
    /\ visible (painted_since new_gal recorded)
       = [(0%nat, Fill [Rectangle [] 0 0 800 600] black);
          (0%nat, Stroke the_line red 2 world CAIRO_LINE_JOIN_ROUND CAIRO_LINE_CAP_ROUND)]
    /\ exec 1 CallBeginDrawing recorded = Returns ready
    /\ exec 1 (CallDrawGroup 0) ready = Returns replayed
    /\ visible (painted_since ready replayed) = []
    /\ exec_all 1 (CallBeginDrawing :: red_line ++ [CallFlush]) new_gal = Returns direct
    /\ visible (painted_since (BeginDrawing new_gal) direct)
       = [(1%nat, Stroke the_line red 2 world CAIRO_LINE_JOIN_ROUND CAIRO_LINE_CAP_ROUND)].
Proof.
  eexists _, _, _, _.
  do 8 (split; [vm_compute; reflexivity|]).
  vm_compute; reflexivity.
Qed.



(** ** The further properties on sample runs *)

(** X19 on a new CAIRO_GAL. *)
Lemma save_restore_brackets_transformations_witness :
  Restore (Scale (mkVECTOR2D 2 2) (Translate (mkVECTOR2D 10 20) (Rotate 1 (Save new_gal))))
  = Flush new_gal
  /\ matrix (currentContext (Rotate 1 (Save new_gal)))
     = CtmRotate 1 :: matrix (currentContext (Flush new_gal)).
Proof.
  apply (save_restore_brackets_transformations 1 (mkVECTOR2D 10 20) (mkVECTOR2D 2 2)
           new_gal).
  reflexivity.
Defined.

(** X22 on a new CAIRO_GAL. *)
Lemma begin_group_gives_fresh_handle_witness :
  let f := storePath (initSurface new_gal) in
  exists (h : Z) (s' : CAIRO_GAL),
    BeginGroup new_gal = Ok (h, s')
    /\ groups f !! h = None
    /\ groups s' = <[h := []]> (groups f)
    /\ currentGroup s' = h
    /\ isGrouping s' = true
    /\ isInitialized s' = true
    /\ Int32.in_range h.
Proof.
  apply (begin_group_gives_fresh_handle new_gal).
  - cbn. lia.
  - vm_compute. reflexivity.
Defined.

(** X23 on the first group of a new CAIRO_GAL. *)
Lemma group_round_trip_witness :
  groups new_gal !! 0 = None
  /\ groups first_group = <[0 := []]> (groups new_gal)
  /\ groups (EndGroup first_group) = <[0 := []]> (groups new_gal)
  /\ groups (DeleteGroup 0 (EndGroup first_group)) = groups new_gal
  /\ cairoPaths (DeleteGroup 0 (EndGroup first_group)) = cairoPaths new_gal.
Proof.
  apply (group_round_trip new_gal first_group 0).
  - reflexivity.
  - vm_compute. reflexivity.
Defined.

(** X25 on the state whose group 0 holds the path of a line. *)
Lemma clear_cache_empties_dense_table_witness :
  groups (ClearCache idle_gal_with_line_group) = ∅
  /\ cairoPaths (ClearCache idle_gal_with_line_group) !! 0%nat = None.
Proof.
  assert (Hgroups : groups idle_gal_with_line_group
                    = {[ 0 := [CMD_SET_STROKECOLOR 0 0 0 1; CMD_STROKE_PATH 0] ]})
    by (vm_compute; reflexivity).
  assert (Hdense : dense (groups idle_gal_with_line_group)).
  { rewrite Hgroups. intros k. rewrite map_size_singleton.
    destruct (decide (k = 0)) as [->|Hne].
    - rewrite lookup_singleton_eq. split; [lia | eauto].
    - rewrite lookup_singleton_ne by congruence. split; [intros [? [=]] | lia]. }
  destruct (clear_cache_empties_dense_table idle_gal_with_line_group Hdense) as (A & B).
  split; [exact A|].
  assert (Hidle : isElementAdded idle_gal_with_line_group = false)
    by (vm_compute; reflexivity).
  assert (Hk : groups idle_gal_with_line_group !! 0
               = Some [CMD_SET_STROKECOLOR 0 0 0 1; CMD_STROKE_PATH 0])
    by (rewrite Hgroups; apply lookup_singleton_eq).
  exact (Forall_inv (B Hidle 0 _ Hk)).
Defined.

(** X26 on the state after the recording of a line in a group. *)
Lemma replay_needs_no_recursion_witness :
  all_flat recorded_line
  /\ exists s' : CAIRO_GAL, exec 1 (CallDrawGroup 0) recorded_line = Returns s'.
Proof.
  apply (replay_needs_no_recursion recorded_line 0).
  exists (mkVECTOR2I 800 600), (raw_gal false), 1%nat,
         (CallBeginGroup :: red_line ++ [CallEndGroup]).
  vm_compute. reflexivity.
Defined.

(** X28 on a screen of 801 pixels: the buffer is 804 wide. *)
Lemma buffer_width_is_padded_witness :
  exists wxBufferWidth : Z,
    pad_width 4 801 = Some wxBufferWidth
    /\ 801 <= wxBufferWidth < 801 + 4
    /\ wxBufferWidth mod 4 = 0.
Proof.
  apply (buffer_width_is_padded 801); [lia | vm_compute; discriminate].
Defined.

(** X18 on an array of three points: a size of three reads past its end,
    a size of two draws the three points. *)
Lemma polyline_bounds_witness :
  let s := SetIsStroke false (SetIsFill false new_gal) in
  let points := [mkVECTOR2D 0 0; mkVECTOR2D 10 0; mkVECTOR2D 10 10] in
  drawPoly_array points 3 s = None
  /\ exists s' : CAIRO_GAL,
       drawPoly_array points 2 s = Some s'
       /\ path (currentContext s')
          = path (currentContext s) ++ polyline (matrix (currentContext s)) points.
Proof.
  intros s points.
  destruct (polyline_bounds points 3 s) as (_ & B & _).
  destruct (polyline_bounds points 2 s) as (_ & B' & C).
  split.
  - apply B. cbn. lia.
  - destruct (drawPoly_array points 2 s) as [s'|].
    + exists s'. split; [reflexivity|].
      exact (proj2 (C eq_refl eq_refl s') eq_refl).
    + exfalso. assert (L : (length points <= Z.to_nat 2)%nat) by (apply B'; reflexivity).
      cbn in L. lia.
Defined.

End GalExamples.
